(** * AgentX workflow engine (scratchpad/ant-agentx.ts)

    A shallow embedding of the node / flow engine: [BaseNode], [Node],
    [BatchNode], [Flow], [BatchFlow] and the promise-based variants, with
    the properties the specification states about them.

    Conventions of the embedding.
    - A JavaScript object used as a record of named entries ([Params],
      [Successors], [SharedContext]) is a [gmap string _] of its own
      entries.  Reading an entry of a successor table, as
      [successors[action]] does, also finds what every object inherits
      from [Object.prototype]: see [inherited].
    - Objects live in a heap of realms.  A realm is an array of node
      objects that refer to each other by index.  [structuredClone]
      copies the realm of its argument into a fresh realm; as on the host
      the copies keep the data and lose the class: they are plain
      objects, of class [CObject], on which no method can be called.
    - User code (the overridable [prep], [exec], [post], ... methods) acts
      on a [World]: the shared context of the run together with whatever
      else the methods close over.  The [shared] argument of the source is
      a reference into that world and is therefore not passed separately.
      A method sees the fields of [this] and cannot change them.
    - [console.warn] appends a structured [Warning] to the console.
    - A ghost [trace] records method invocations, so that statements can
      count them; it has no influence on any result.
    - Loops that the source does not bound take fuel; running out of fuel
      yields [Diverge], which no statement below counts as a result.
    - An [async] method is its body cut at the awaits.  Where the source
      awaits one promise after the other the pieces follow each other as
      in the blocking code; under [Promise.all] the tasks are resumed in
      an order the host chooses, which the state carries as a schedule.
      The orchestrations of [AsyncParallelBatchFlow] are resumed in the
      same way, each at the awaits of its current unit.  The class adds
      no field to [AsyncFlow] and overrides [_runAsync] only: its objects
      are [AsyncFlow] objects that this [_runAsync] is applied to. *)

From stdpp Require Import gmap strings list fin_maps pretty.

Set Warnings "-register-all".

(** ** Values *)

(** [any]: the JavaScript values the engine inspects.  The numbers are
    the integers: [VNum n] is the Number nearest to [n]. *)
Inductive any : Type :=
  | VUndefined
  | VNull
  | VBool (b : bool)
  | VNum (n : Z)
  | VStr (s : string)
  | VArr (elems : list any)
  | VObj (props : gmap string any).

(** Thrown values. *)
Inductive Exn : Type :=
  | Error (msg : string)
  | TypeError (msg : string)
  (** what [structuredClone] throws for a value it cannot copy *)
  | DataCloneError (msg : string).

(** [export type Params = Record<string, any>] *)
Abbreviation Params := (gmap string any).
(** [export type SharedContext = Record<string, any>] *)
Abbreviation World := (gmap string any).

(** ToBoolean. *)
Definition truthy (v : any) : bool :=
  match v with
  | VUndefined | VNull => false
  | VBool b => b
  | VNum n => negb (n =? 0)%Z
  | VStr s => negb (String.eqb s "")
  | VArr _ | VObj _ => true
  end.

(** ** Numbers as strings

    [Number::toString] of ECMAScript for the Number nearest to an
    integer. *)

(** The Number nearest to a positive integer, ties to the even
    significand: integers of at most 53 bits are Numbers; above, the
    significand keeps 53 bits.  [None] is [Infinity]. *)
Definition to_double (n : Z) : option Z :=
  let bits := (Z.log2 n + 1)%Z in
  if (bits <=? 53)%Z then Some n
  else
    let e := (bits - 53)%Z in
    let q := Z.shiftr n e in
    let r := (n - Z.shiftl q e)%Z in
    let half := Z.shiftl 1 (e - 1) in
    let q' := if (half <? r)%Z || ((r =? half)%Z && Z.odd q) then (q + 1)%Z else q in
    let x := Z.shiftl q' e in
    if (Z.log2 x <? 1024)%Z then Some x else None.

(** Whether the integer [c] is read as the Number [x > 0]: twice the
    bounds of the interval that rounds to [x], which belong to it when the
    significand of [x] is even. *)
Definition reads_as (x c : Z) : bool :=
  let bits := (Z.log2 x + 1)%Z in
  if (bits <=? 53)%Z then (c =? x)%Z
  else
    let e := (bits - 53)%Z in
    let m := Z.shiftr x e in
    let below := if (m =? Z.shiftl 1 52)%Z then Z.shiftl 1 (e - 1) else Z.shiftl 1 e in
    let lo := (2 * x - below)%Z in
    let hi := (2 * x + Z.shiftl 1 e)%Z in
    ((lo <? 2 * c)%Z && (2 * c <? hi)%Z)
    || (((2 * c =? lo)%Z || (2 * c =? hi)%Z) && Z.even m).

(** The number of decimal digits of a positive integer. *)
Definition digits (x : Z) : nat := String.length (pretty x).

(** The integer with the fewest significant digits that is read as [x],
    the nearest to [x] among those: the multiples of [10^(N-k)] around
    [x] are tried for [k = 1, 2, ...] significant digits. *)
Fixpoint shortest (x : Z) (N k : nat) (fuel : nat) : Z :=
  match fuel with
  | O => x
  | S fuel' =>
      let P := (10 ^ Z.of_nat (N - k))%Z in
      let s := (x / P)%Z in
      let c1 := (s * P)%Z in
      let c2 := ((s + 1) * P)%Z in
      match reads_as x c1, reads_as x c2 with
      | true, true =>
          if (x - c1 <? c2 - x)%Z then c1
          else if (c2 - x <? x - c1)%Z then c2
          else if Z.even s then c1 else c2
      | true, false => c1
      | false, true => c2
      | false, false => shortest x N (S k) fuel'
      end
  end.

(** The digits of a string without its trailing zeros. *)
Fixpoint strip_zeros (s : string) : string :=
  match s with
  | EmptyString => EmptyString
  | String a s' =>
      match strip_zeros s' with
      | EmptyString => if Ascii.eqb a (Ascii.ascii_of_nat 48) then EmptyString else String a EmptyString
      | t => String a t
      end
  end.

(** [Number::toString(x)] for the Number nearest to the integer [n]:
    below [10^21] the digits and the zeros that follow them, from there
    on the exponent form. *)
Definition number_to_string (n : Z) : string :=
  if (n =? 0)%Z then "0"
  else
    let sign := if (n <? 0)%Z then "-" else "" in
    match to_double (Z.abs n) with
    | None => sign +:+ "Infinity"
    | Some x =>
        let c := shortest x (digits x) 1 (digits x) in
        let d := pretty c in
        if (String.length d <=? 21)%nat then sign +:+ d
        else
          match strip_zeros d with
          | String a EmptyString =>
              sign +:+ String a EmptyString +:+ "e+" +:+ pretty (String.length d - 1)%nat
          | String a rest =>
              sign +:+ String a ("." +:+ rest) +:+ "e+" +:+ pretty (String.length d - 1)%nat
          | EmptyString => sign +:+ d
          end
    end.

(** ToString, as used when a value is a property key or a part of a
    template.  An object is converted by the [toString] it inherits; an
    own entry of that name hides it and, no value here being a function,
    the conversion then fails with a [TypeError]: [None]. *)
Fixpoint ToString (v : any) : option string :=
  match v with
  | VUndefined => Some "undefined"
  | VNull => Some "null"
  | VBool true => Some "true"
  | VBool false => Some "false"
  | VNum n => Some (number_to_string n)
  | VStr s => Some s
  | VArr l =>
      (fix join (l : list any) : option string :=
         match l with
         | [] => Some ""
         | x :: l' =>
             match (match x with
                    | VUndefined | VNull => Some ""
                    | _ => ToString x
                    end), l' with
             | Some sx, [] => Some sx
             | Some sx, _ =>
                 match join l' with
                 | Some rest => Some (sx +:+ "," +:+ rest)
                 | None => None
                 end
             | None, _ => None
             end
         end) l
  | VObj props =>
      match props !! "toString" with
      | Some _ => None
      | None => Some "[object Object]"
      end
  end.

(** The own enumerable properties that [{...v}] copies. *)
Definition spread (v : any) : Params :=
  match v with
  | VObj o => o
  | VArr l => list_to_map (imap (fun i x => (pretty i, x)) l)
  | VStr s =>
      list_to_map
        (imap (fun i c => (pretty i, VStr (String c EmptyString)))
              (String.list_ascii_of_string s))
  | _ => ∅
  end.

(** [{...a, ...b}]: entries of [b] win. *)
Definition merge_params (a b : Params) : Params := b ∪ a.

(** ** Objects *)

Abbreviation NodeId := nat (only parsing).

(** A reference: realm index and index inside the realm. *)
Definition Ref : Type := nat * NodeId.

(** [export type Successors = Record<string, BaseNode>] *)
Abbreviation Successors := (gmap string NodeId).

Inductive Class : Type :=
  | CBaseNode
  | CNode
  | CBatchNode
  | CFlow
  | CBatchFlow
  | CAsyncNode
  | CAsyncBatchNode
  | CAsyncParallelBatchNode
  | CAsyncFlow
  | CAsyncBatchFlow
  (** a plain object: what [structuredClone] makes of an instance of any
      of the classes *)
  | CObject.

(** The data fields of the classes.  [params] and [successors] belong to
    [BaseNode]; [maxRetries], [wait] and [curRetry] to [Node]; [start] to
    [Flow]. *)
Record Fields : Type := mkFields {
  params : Params;
  successors : Successors;
  maxRetries : Z;
  wait : Z;
  curRetry : Z;
  start : option NodeId
}.

Inductive Completion (A : Type) : Type :=
  | Normal (a : A)
  | Abrupt (e : Exn).
Arguments Normal {A} a.
Arguments Abrupt {A} e.

(** What a user method does: it may change the world and either returns
    or throws. *)
Definition Effect (A : Type) : Type := World -> Completion A * World.

(** The overridable methods.  The first argument is [this]. *)
Record Hooks : Type := mkHooks {
  prep : Fields -> Effect any;
  exec : Fields -> any -> Effect any;
  execFallback : Fields -> any -> Exn -> Effect any;
  post : Fields -> any -> any -> Effect any;
  prepAsync : Fields -> Effect any;
  execAsync : Fields -> any -> Effect any;
  execFallbackAsync : Fields -> any -> Exn -> Effect any;
  postAsync : Fields -> any -> any -> Effect any
}.

Record Obj : Type := mkObj {
  cls : Class;
  fields : Fields;
  hooks : Hooks
}.

Abbreviation Realm := (list Obj).

(** ** Engine state *)

Inductive Warning : Type :=
  (** [`Overwriting successor for action '${action}'`] *)
  | OverwritingSuccessor (action : string)
  (** [`Flow ends: '${action}' not found in ${Object.keys(curr.successors)}`] *)
  | FlowEnds (action : any) (keys : gset string)
  (** ["Node won't run successors. Use Flow."] (or [AsyncFlow]) *)
  | WontRunSuccessors (use : string).

Inductive Event : Type :=
  (** the orchestrator calls [curr._run] / [curr._runAsync] *)
  | NodeRun (node : Ref) (applied : Params)
  (** a retry loop calls [exec] / [execAsync] *)
  | ExecCall (node : Ref) (attempt : Z) (prepRes : any)
  (** a retry loop calls [execFallback] / [execFallbackAsync] *)
  | FallbackCall (node : Ref) (prepRes : any) (exc : Exn)
  (** a retry loop waits between attempts *)
  | Waited (ms : Z).

Record State : Type := mkState {
  world : World;
  heap : list Realm;
  console : list Warning;
  trace : list Event;
  (** the order in which the host settles the promises of each
      [Promise.all], one schedule per call *)
  settle_order : list (list nat)
}.

Inductive Outcome (A : Type) : Type :=
  | Return (a : A)
  | Throw (e : Exn)
  | Diverge.
Arguments Return {A} a.
Arguments Throw {A} e.
Arguments Diverge {A}.

Definition M (A : Type) : Type := State -> Outcome A * State.

#[global] Instance M_ret : MRet M := fun A a st => (Return a, st).

#[global] Instance M_bind : MBind M := fun A B k m st =>
  match m st with
  | (Return a, st') => k a st'
  | (Throw e, st') => (Throw e, st')
  | (Diverge, st') => (Diverge, st')
  end.

Definition throw {A : Type} (e : Exn) : M A := fun st => (Throw e, st).

Definition diverge {A : Type} : M A := fun st => (Diverge, st).

(** [try { m } catch (e) { handler e }] *)
Definition try_catch {A : Type} (m : M A) (handler : Exn -> M A) : M A :=
  fun st =>
    match m st with
    | (Throw e, st') => handler e st'
    | r => r
    end.

(** Calling a user method. *)
Definition call {A : Type} (f : Effect A) : M A := fun st =>
  let '(c, w) := f (world st) in
  let st' := mkState w (heap st) (console st) (trace st) (settle_order st) in
  match c with
  | Normal a => (Return a, st')
  | Abrupt e => (Throw e, st')
  end.

(** [console.warn] *)
Definition warn (w : Warning) : M unit := fun st =>
  (Return tt,
   mkState (world st) (heap st) (console st ++ [w]) (trace st) (settle_order st)).

Definition emit (ev : Event) : M unit := fun st =>
  (Return tt,
   mkState (world st) (heap st) (console st) (trace st ++ [ev]) (settle_order st)).

Definition set_heap (h : list Realm) (st : State) : State :=
  mkState (world st) h (console st) (trace st) (settle_order st).

Definition lookup_obj (h : list Realm) (r : Ref) : option Obj :=
  h !! r.1 ≫= fun rl => rl !! r.2.

(** Dereferencing; following a dangling reference is a [TypeError]. *)
Definition get_obj (r : Ref) : M Obj := fun st =>
  match lookup_obj (heap st) r with
  | Some o => (Return o, st)
  | None => (Throw (TypeError "Cannot read properties of undefined"), st)
  end.

Definition update_obj (h : list Realm) (r : Ref) (f : Obj -> Obj) : list Realm :=
  match h !! r.1 with
  | Some rl =>
      match rl !! r.2 with
      | Some o => <[r.1 := <[r.2 := f o]> rl]> h
      | None => h
      end
  | None => h
  end.

Definition modify_fields (r : Ref) (f : Fields -> Fields) : M unit := fun st =>
  match lookup_obj (heap st) r with
  | Some _ =>
      (Return tt,
       set_heap
         (update_obj (heap st) r (fun o => mkObj (cls o) (f (fields o)) (hooks o)))
         st)
  | None => (Throw (TypeError "Cannot set properties of undefined"), st)
  end.

Definition with_params (p : Params) (f : Fields) : Fields :=
  mkFields p (successors f) (maxRetries f) (wait f) (curRetry f) (start f).

Definition with_successors (s : Successors) (f : Fields) : Fields :=
  mkFields (params f) s (maxRetries f) (wait f) (curRetry f) (start f).

Definition with_curRetry (c : Z) (f : Fields) : Fields :=
  mkFields (params f) (successors f) (maxRetries f) (wait f) c (start f).

(** Allocation of a new object, in the realm of the caller. *)
Definition alloc (realm : nat) (o : Obj) : M Ref := fun st =>
  match heap st !! realm with
  | Some rl =>
      (Return (realm, length rl), set_heap (<[realm := rl ++ [o]]> (heap st)) st)
  | None => (Throw (TypeError "no such realm"), st)
  end.

(** What every object inherits from [Object.prototype]: the properties
    of ECMAScript and of its annex B.  Each of them is a function, but
    [__proto__], which reads as [Object.prototype] itself; all are
    truthy. *)
Definition Object_prototype : list string :=
  ["constructor"; "hasOwnProperty"; "isPrototypeOf"; "propertyIsEnumerable";
   "toLocaleString"; "toString"; "valueOf"; "__proto__";
   "__defineGetter__"; "__defineSetter__"; "__lookupGetter__";
   "__lookupSetter__"].

Definition inherited (k : string) : bool := bool_decide (k ∈ Object_prototype).

(** What reading an entry of a successor table gives, when it gives
    something: a unit, or what [Object.prototype] has under that name. *)
Inductive Next : Type :=
  | NextUnit (r : Ref)
  | NextInherited (k : string).

(** [table[k]], for a table of an object of the realm [realm]. *)
Definition read_successor (realm : nat) (table : Successors) (k : string)
    : option Next :=
  match table !! k with
  | Some n => Some (NextUnit (realm, n))
  | None => if inherited k then Some (NextInherited k) else None
  end.

(** Calling a method that a plain object does not have. *)
Definition not_a_function {A : Type} (name : string) : Effect A :=
  fun w => (Abrupt (TypeError ("this." +:+ name +:+ " is not a function")), w).

Definition Object_hooks : Hooks :=
  {| prep := fun _ => not_a_function "prep";
     exec := fun _ _ => not_a_function "exec";
     execFallback := fun _ _ _ => not_a_function "execFallback";
     post := fun _ _ _ => not_a_function "post";
     prepAsync := fun _ => not_a_function "prepAsync";
     execAsync := fun _ _ => not_a_function "execAsync";
     execFallbackAsync := fun _ _ _ => not_a_function "execFallbackAsync";
     postAsync := fun _ _ _ => not_a_function "postAsync" |}.

(** The copy [structuredClone] makes of an object: its data, without its
    class and so without its methods. *)
Definition plain (o : Obj) : Obj := mkObj CObject (fields o) Object_hooks.

(** [structuredClone(node)]: a copy of everything [node] reaches, in a realm
    of its own.  The host copies the own data of a class instance and not
    its prototype: the copies are plain objects. *)
Definition structuredClone (r : Ref) : M Ref := fun st =>
  match heap st !! r.1 with
  | Some rl =>
      (Return (length (heap st), r.2), set_heap (heap st ++ [plain <$> rl]) st)
  | None => (Throw (TypeError "Cannot read properties of undefined"), st)
  end.

(** The delay between two attempts, taken when [this.wait > 0]. *)
Definition pause (f : Fields) : M unit :=
  if (0 <? wait f)%Z then emit (Waited (wait f)) else mret tt.

(** [Object.keys(o).length > 0] *)
Definition has_keys {V : Type} (o : gmap string V) : bool :=
  bool_decide (dom o ≠ ∅).

Definition is_async_node (c : Class) : bool :=
  match c with
  | CAsyncNode | CAsyncBatchNode | CAsyncParallelBatchNode => true
  | _ => false
  end.

Definition is_flow (c : Class) : bool :=
  match c with
  | CFlow | CBatchFlow | CAsyncFlow | CAsyncBatchFlow => true
  | _ => false
  end.

(** ** class BaseNode *)
Module BaseNode.

(** Default methods. *)
Definition default_hooks : Hooks :=
  {| prep := fun _ w => (Normal VNull, w);
     exec := fun _ _ w => (Normal VNull, w);
     execFallback := fun _ _ exc w => (Abrupt exc, w);
     post := fun _ _ _ w => (Normal VNull, w);
     prepAsync := fun _ w => (Normal VNull, w);
     execAsync := fun _ _ w => (Normal VNull, w);
     execFallbackAsync := fun _ _ exc w => (Abrupt exc, w);
     postAsync := fun _ _ _ w => (Normal VNull, w) |}.

Definition default_fields : Fields :=
  {| params := ∅; successors := ∅; maxRetries := 1; wait := 0;
     curRetry := 0; start := None |}.

(** [new BaseNode()], with the methods a subclass overrides. *)
Definition new (realm : nat) (h : Hooks) : M Ref :=
  alloc realm (mkObj CBaseNode default_fields h).

(** [setParams(params) { this.params = { ...params }; }] *)
Definition setParams (this : Ref) (p : Params) : M unit :=
  modify_fields this (with_params p).

(** [addSuccessor(node, action = "default")]: the test
    [this.successors[action]] also finds what the table inherits. *)
Definition addSuccessor (this : Ref) (node : NodeId) (action : string) : M NodeId :=
  o ← get_obj this;
  (if bool_decide (is_Some (read_successor this.1 (successors (fields o)) action))
   then warn (OverwritingSuccessor action)
   else mret tt);;
  modify_fields this (fun f => with_successors (<[action := node]> (successors f)) f);;
  mret node.

(** [then(node)] *)
Definition then_ (this : Ref) (node : NodeId) : M NodeId :=
  addSuccessor this node "default".

(** [_exec(prepRes) { return this.exec(prepRes); }] *)
Definition _exec (this : Ref) (prepRes : any) : M any :=
  o ← get_obj this;
  call (exec (hooks o) (fields o) prepRes).

(** [_run(shared)], given the [_exec] the class of [this] dispatches to. *)
Definition _run (exec_ : Ref -> any -> M any) (this : Ref) : M any :=
  o ← get_obj this;
  p ← call (prep (hooks o) (fields o));
  e ← exec_ this p;
  o' ← get_obj this;
  call (post (hooks o') (fields o') p e).

End BaseNode.

(** ** class ConditionalTransition *)
Module ConditionalTransition.

(** What [src.withAction(action)] returns: the source and the action. *)
Definition new (src : Ref) (action : string) : Ref * string := (src, action).

(** [then(target) { return this.src.addSuccessor(target, this.action); }] *)
Definition then_ (this : Ref * string) (target : NodeId) : M NodeId :=
  BaseNode.addSuccessor this.1 target this.2.

End ConditionalTransition.

(** [withAction(action)] of [BaseNode]: a [ConditionalTransition] for a
    string, a [TypeError] for anything else. *)
Definition withAction (this : Ref) (action : any) : M (Ref * string) :=
  match action with
  | VStr s => mret (ConditionalTransition.new this s)
  | _ => throw (TypeError "Action must be a string")
  end.

(** [curr.setParams(p)]: the method of [BaseNode], which all the classes
    inherit and a plain object does not have. *)
Definition call_setParams (curr : Ref) (p : Params) : M unit :=
  o ← get_obj curr;
  match cls o with
  | CObject => throw (TypeError "curr.setParams is not a function")
  | _ => BaseNode.setParams curr p
  end.

(** ** class Node extends BaseNode *)
Module Node.

(** [constructor(maxRetries = 1, wait = 0)] *)
Definition new (realm : nat) (maxRetries wait : Z) (h : Hooks) : M Ref :=
  alloc realm
    (mkObj CNode
       {| params := ∅; successors := ∅; maxRetries := maxRetries;
          wait := wait; curRetry := 0; start := None |} h).

(** The [for] loop of [_exec], entered after [this.curRetry = 0]. *)
Fixpoint retry_loop (fuel : nat) (this : Ref) (prepRes : any) : M any :=
  o ← get_obj this;
  let f := fields o in
  if (curRetry f <? maxRetries f)%Z then
    match fuel with
    | O => diverge
    | S fuel' =>
        try_catch
          (emit (ExecCall this (curRetry f) prepRes);;
           call (exec (hooks o) f prepRes))
          (fun e =>
             if (curRetry f =? maxRetries f - 1)%Z then
               emit (FallbackCall this prepRes e);;
               call (execFallback (hooks o) f prepRes e)
             else
               pause f;;
               modify_fields this (with_curRetry (curRetry f + 1));;
               retry_loop fuel' this prepRes)
    end
  else mret VNull.

(** [_exec(prepRes)] *)
Definition _exec (this : Ref) (prepRes : any) : M any :=
  modify_fields this (with_curRetry 0);;
  o ← get_obj this;
  retry_loop (Z.to_nat (maxRetries (fields o))) this prepRes.

End Node.

(** ** class BatchNode extends Node *)
Module BatchNode.

Definition new (realm : nat) (maxRetries wait : Z) (h : Hooks) : M Ref :=
  alloc realm
    (mkObj CBatchNode
       {| params := ∅; successors := ∅; maxRetries := maxRetries;
          wait := wait; curRetry := 0; start := None |} h).

(** [items.map((item) => super._exec(item))] *)
Fixpoint map_exec (this : Ref) (items : list any) : M (list any) :=
  match items with
  | [] => mret []
  | item :: rest =>
      r ← Node._exec this item;
      rs ← map_exec this rest;
      mret (r :: rs)
  end.

(** [_exec(items) { return (items || []).map(...); }] *)
Definition _exec (this : Ref) (items : any) : M any :=
  match (if truthy items then items else VArr []) with
  | VArr l => rs ← map_exec this l; mret (VArr rs)
  | _ => throw (TypeError "(items || []).map is not a function")
  end.

End BatchNode.

(** ** class Flow extends BaseNode *)
Module Flow.

(** [exec(prepRes) { throw new Error("Flow can't exec."); }] *)
Definition default_hooks : Hooks :=
  {| prep := prep BaseNode.default_hooks;
     exec := fun _ _ w => (Abrupt (Error "Flow can't exec."), w);
     execFallback := execFallback BaseNode.default_hooks;
     post := post BaseNode.default_hooks;
     prepAsync := prepAsync BaseNode.default_hooks;
     execAsync := execAsync BaseNode.default_hooks;
     execFallbackAsync := execFallbackAsync BaseNode.default_hooks;
     postAsync := postAsync BaseNode.default_hooks |}.

(** [constructor(start)] *)
Definition new (realm : nat) (start : NodeId) (h : Hooks) : M Ref :=
  alloc realm
    (mkObj CFlow
       {| params := ∅; successors := ∅; maxRetries := 1; wait := 0;
          curRetry := 0; start := Some start |} h).

(** The key of [curr.successors[action || "default"]]; [None] when the
    conversion of [action] to a key fails. *)
Definition action_key (action : any) : option string :=
  ToString (if truthy action then action else VStr "default").

(** [getNextNode(curr, action)] *)
Definition getNextNode (curr : Ref) (action : any) : M (option Next) :=
  o ← get_obj curr;
  let succ := successors (fields o) in
  match action_key action with
  | None => throw (TypeError "Cannot convert object to primitive value")
  | Some k =>
      let nxt := read_successor curr.1 succ k in
      (if negb (bool_decide (is_Some nxt)) && has_keys succ
       then warn (FlowEnds action (dom succ))
       else mret tt);;
      mret nxt
  end.

(** [structuredClone(nxt)] for what [getNextNode] has returned: a unit is
    copied with its realm; of the inherited values the functions cannot
    be cloned and [Object.prototype], which has no data of its own, is
    copied as an empty object. *)
Definition clone_next (nxt : Next) : M Ref :=
  match nxt with
  | NextUnit c => structuredClone c
  | NextInherited k =>
      if String.eqb k "__proto__" then
        fun st =>
          (Return (length (heap st), 0),
           set_heap (heap st ++ [[mkObj CObject BaseNode.default_fields Object_hooks]]) st)
      else
        let name := if String.eqb k "constructor" then "Object" else k in
        throw (DataCloneError
                 ("function " +:+ name +:+ "() { [native code] } could not be cloned."))
  end.

(** [if (curr) { curr = structuredClone(curr); }] *)
Definition clone_if (curr : option Next) : M (option Ref) :=
  match curr with
  | Some c => c' ← clone_next c; mret (Some c')
  | None => mret None
  end.

(** The [while (curr)] loop of [_orch]; [run] is [curr._run]. *)
Fixpoint orch_loop (run : Ref -> M any) (fuel : nat)
    (curr : option Ref) (p : Params) : M unit :=
  match curr with
  | None => mret tt
  | Some c =>
      match fuel with
      | O => diverge
      | S fuel' =>
          call_setParams c p;;
          emit (NodeRun c p);;
          a ← run c;
          nxt ← getNextNode c a;
          nxt' ← clone_if nxt;
          orch_loop run fuel' nxt' p
      end
  end.

(** [_orch(shared, params?)] *)
Definition _orch (run : Ref -> M any) (fuel : nat)
    (this : Ref) (override : option Params) : M unit :=
  o ← get_obj this;
  curr ← clone_if (match start (fields o) with
                   | Some s => Some (NextUnit (this.1, s))
                   | None => None
                   end);
  let p := match override with
           | Some p => p
           | None => params (fields o)
           end in
  orch_loop run fuel curr p.

(** [_run(shared)] *)
Definition _run (run : Ref -> M any) (fuel : nat) (this : Ref) : M any :=
  o ← get_obj this;
  pr ← call (prep (hooks o) (fields o));
  _orch run fuel this None;;
  o' ← get_obj this;
  call (post (hooks o') (fields o') pr VNull).

End Flow.

(** ** class BatchFlow extends Flow *)
Module BatchFlow.

Definition new (realm : nat) (start : NodeId) (h : Hooks) : M Ref :=
  alloc realm
    (mkObj CBatchFlow
       {| params := ∅; successors := ∅; maxRetries := 1; wait := 0;
          curRetry := 0; start := Some start |} h).

(** [pr.forEach((bp) => { this._orch(shared, { ...this.params, ...bp }); })] *)
Fixpoint forEach (run : Ref -> M any) (fuel : nat) (this : Ref)
    (pr : list any) : M unit :=
  match pr with
  | [] => mret tt
  | bp :: rest =>
      o ← get_obj this;
      Flow._orch run fuel this
        (Some (merge_params (params (fields o)) (spread bp)));;
      forEach run fuel this rest
  end.

(** [_run(shared)] *)
Definition _run (run : Ref -> M any) (fuel : nat) (this : Ref) : M any :=
  o ← get_obj this;
  pr0 ← call (prep (hooks o) (fields o));
  let pr := if truthy pr0 then pr0 else VArr [] in
  match pr with
  | VArr l => forEach run fuel this l
  | _ => throw (TypeError "pr.forEach is not a function")
  end;;
  o' ← get_obj this;
  call (post (hooks o') (fields o') pr VNull).

End BatchFlow.

(** ** Method dispatch of the blocking API *)

(** [this._run(shared)], resolved on the class of [this].  [AsyncNode]
    overrides [_run] to throw; [AsyncFlow] inherits [Flow._run]; a plain
    object has no [_run]. *)
Fixpoint _run (fuel : nat) (this : Ref) : M any :=
  o ← get_obj this;
  match cls o with
  | CBaseNode => BaseNode._run BaseNode._exec this
  | CNode => BaseNode._run Node._exec this
  | CBatchNode => BaseNode._run BatchNode._exec this
  | CAsyncNode | CAsyncBatchNode | CAsyncParallelBatchNode =>
      throw (Error "Use runAsync.")
  | CFlow | CAsyncFlow | CAsyncBatchFlow =>
      match fuel with
      | O => diverge
      | S fuel' => Flow._run (_run fuel') fuel' this
      end
  | CBatchFlow =>
      match fuel with
      | O => diverge
      | S fuel' => BatchFlow._run (_run fuel') fuel' this
      end
  | CObject => throw (TypeError "curr._run is not a function")
  end.

(** [run(shared)]; [AsyncFlow] overrides it to throw. *)
Definition run (fuel : nat) (this : Ref) : M any :=
  o ← get_obj this;
  match cls o with
  | CAsyncFlow | CAsyncBatchFlow => throw (Error "Use runAsync.")
  | CObject => throw (TypeError "this.run is not a function")
  | _ =>
      (if has_keys (successors (fields o))
       then warn (WontRunSuccessors "Flow")
       else mret tt);;
      _run fuel this
  end.

(** The state before any object exists: one empty realm. *)
Definition init (w : World) : State :=
  {| world := w; heap := [[]]; console := []; trace := []; settle_order := [] |}.

(** ** class AsyncNode extends Node *)
Module AsyncNode.

(** The blocking methods are overridden to throw. *)
Definition default_hooks : Hooks :=
  {| prep := fun _ w => (Abrupt (Error "Use prepAsync."), w);
     exec := fun _ _ w => (Abrupt (Error "Use execAsync."), w);
     execFallback := fun _ _ _ w => (Abrupt (Error "Use execFallbackAsync."), w);
     post := fun _ _ _ w => (Abrupt (Error "Use postAsync."), w);
     prepAsync := fun _ w => (Normal VNull, w);
     execAsync := fun _ _ w => (Normal VNull, w);
     execFallbackAsync := fun _ _ exc w => (Abrupt exc, w);
     postAsync := fun _ _ _ w => (Normal VNull, w) |}.

Definition new (realm : nat) (maxRetries wait : Z) (h : Hooks) : M Ref :=
  alloc realm
    (mkObj CAsyncNode
       {| params := ∅; successors := ∅; maxRetries := maxRetries;
          wait := wait; curRetry := 0; start := None |} h).

(** The [for (let i = 0; ...)] loop of [async _exec], when nothing else
    runs between its awaits. *)
Fixpoint retry_loop (fuel : nat) (this : Ref) (prepRes : any) (i : Z) : M any :=
  o ← get_obj this;
  let f := fields o in
  if (i <? maxRetries f)%Z then
    match fuel with
    | O => diverge
    | S fuel' =>
        try_catch
          (emit (ExecCall this i prepRes);;
           call (execAsync (hooks o) f prepRes))
          (fun e =>
             if (i =? maxRetries f - 1)%Z then
               emit (FallbackCall this prepRes e);;
               call (execFallbackAsync (hooks o) f prepRes e)
             else
               pause f;;
               retry_loop fuel' this prepRes (i + 1)%Z)
    end
  else mret VNull.

(** [async _exec(prepRes)] *)
Definition _exec (this : Ref) (prepRes : any) : M any :=
  o ← get_obj this;
  retry_loop (Z.to_nat (maxRetries (fields o))) this prepRes 0%Z.

(** [async _runAsync(shared)], given the [_exec] of the class of [this]. *)
Definition _runAsync (exec_ : Ref -> any -> M any) (this : Ref) : M any :=
  o ← get_obj this;
  p ← call (prepAsync (hooks o) (fields o));
  e ← exec_ this p;
  o' ← get_obj this;
  call (postAsync (hooks o') (fields o') p e).

(** *** [_exec] as a task that other tasks interleave with

    Between two awaits the body runs without interruption; at an await
    the task is suspended until the host settles the awaited promise. *)
Inductive Task : Type :=
  (** [await this.execAsync(prepRes)] of attempt [i]; the call has been
      made and its promise will settle with [c] *)
  | Attempting (i : Z) (c : Completion any)
  (** [await new Promise((resolve) => setTimeout(resolve, this.wait))] *)
  | Waiting (i : Z)
  (** the promise that decides the task is about to settle with [c] *)
  | Finishing (c : Completion any)
  (** the promise returned by [_exec] has settled *)
  | Settled (c : Completion any).

(** Calling an async method: what it throws is kept in its promise. *)
Definition capture {A : Type} (f : Effect A) : M (Completion A) := fun st =>
  let '(c, w) := f (world st) in
  (Return c, mkState w (heap st) (console st) (trace st) (settle_order st)).

(** Loop test and body up to the first await, for attempt [i]. *)
Definition attempt (this : Ref) (prepRes : any) (i : Z) : M Task :=
  o ← get_obj this;
  let f := fields o in
  if (i <? maxRetries f)%Z then
    emit (ExecCall this i prepRes);;
    c ← capture (execAsync (hooks o) f prepRes);
    mret (Attempting i c)
  else mret (Finishing (Normal VNull)).

(** The task continues after the promise it waits for has settled. *)
Definition resume (this : Ref) (prepRes : any) (t : Task) : M Task :=
  match t with
  | Attempting i (Normal v) => mret (Settled (Normal v))
  | Attempting i (Abrupt e) =>
      o ← get_obj this;
      let f := fields o in
      if (i =? maxRetries f - 1)%Z then
        emit (FallbackCall this prepRes e);;
        c ← capture (execFallbackAsync (hooks o) f prepRes e);
        mret (Finishing c)
      else if (0 <? wait f)%Z then
        emit (Waited (wait f));;
        mret (Waiting i)
      else attempt this prepRes (i + 1)%Z
  | Waiting i => attempt this prepRes (i + 1)%Z
  | Finishing c => mret (Settled c)
  | Settled c => mret (Settled c)
  end.

Definition is_settled (t : Task) : bool :=
  match t with
  | Settled _ => true
  | _ => false
  end.

(** The task when nothing else runs: every await resumes at once. *)
Fixpoint await_task (fuel : nat) (this : Ref) (prepRes : any) (t : Task) : M any :=
  match t with
  | Settled (Normal v) => mret v
  | Settled (Abrupt e) => throw e
  | _ =>
      match fuel with
      | O => diverge
      | S fuel' =>
          t' ← resume this prepRes t;
          await_task fuel' this prepRes t'
      end
  end.

End AsyncNode.

(** ** [Promise.all] over the tasks of a batch *)
Module PromiseAll.
Import AsyncNode.

(** [items.map((item) => super._exec(item))]: every task runs up to its
    first await, in index order. *)
Fixpoint spawn (this : Ref) (items : list any) : M (list Task) :=
  match items with
  | [] => mret []
  | item :: rest =>
      t ← attempt this item 0%Z;
      ts ← spawn this rest;
      mret (t :: ts)
  end.

(** The schedule of this call: the indices of the tasks in the order in
    which the host lets them continue. *)
Definition next_schedule : M (list nat) := fun st =>
  match settle_order st with
  | [] => (Return [], st)
  | s :: rest =>
      (Return s, mkState (world st) (heap st) (console st) (trace st) rest)
  end.

(** [Promise.all]: element [k] of [values] is written when task [k]
    fulfils; the result is delivered when no element remains; the first
    rejection rejects the whole (what the other tasks do after that is
    not followed).  A schedule that ends before that leaves the promise
    pending. *)
Fixpoint drive (sched : list nat) (this : Ref) (items : list any)
    (tasks : list Task) (values : list any) (remaining : nat) : M (list any) :=
  match remaining with
  | O => mret values
  | S remaining' =>
      match sched with
      | [] => diverge
      | k :: sched' =>
          match tasks !! k, items !! k with
          | Some t, Some item =>
              if is_settled t then
                drive sched' this items tasks values remaining
              else
                t' ← resume this item t;
                match t' with
                | Settled (Normal v) =>
                    drive sched' this items (<[k := t']> tasks)
                      (<[k := v]> values) remaining'
                | Settled (Abrupt e) => throw e
                | _ =>
                    drive sched' this items (<[k := t']> tasks)
                      values remaining
                end
          | _, _ => drive sched' this items tasks values remaining
          end
      end
  end.

(** [Promise.all(items.map((item) => super._exec(item)))] *)
Definition all (this : Ref) (items : list any) : M (list any) :=
  tasks ← spawn this items;
  sched ← next_schedule;
  drive sched this items tasks
    (replicate (length items) VUndefined) (length items).

End PromiseAll.

(** ** class AsyncBatchNode extends AsyncNode *)
Module AsyncBatchNode.

Definition new (realm : nat) (maxRetries wait : Z) (h : Hooks) : M Ref :=
  alloc realm
    (mkObj CAsyncBatchNode
       {| params := ∅; successors := ∅; maxRetries := maxRetries;
          wait := wait; curRetry := 0; start := None |} h).

(** [async _exec(items)] *)
Definition _exec (this : Ref) (items : any) : M any :=
  match (if truthy items then items else VArr []) with
  | VArr l => rs ← PromiseAll.all this l; mret (VArr rs)
  | _ => throw (TypeError "(items || []).map is not a function")
  end.

End AsyncBatchNode.

(** ** class AsyncParallelBatchNode extends AsyncNode *)
Module AsyncParallelBatchNode.

Definition new (realm : nat) (maxRetries wait : Z) (h : Hooks) : M Ref :=
  alloc realm
    (mkObj CAsyncParallelBatchNode
       {| params := ∅; successors := ∅; maxRetries := maxRetries;
          wait := wait; curRetry := 0; start := None |} h).

(** [async _exec(items)] *)
Definition _exec (this : Ref) (items : any) : M any :=
  match (if truthy items then items else VArr []) with
  | VArr l => rs ← PromiseAll.all this l; mret (VArr rs)
  | _ => throw (TypeError "(items || []).map is not a function")
  end.

End AsyncParallelBatchNode.

(** [this._runAsync(shared)] for the classes below [AsyncNode]. *)
Definition node_runAsync (this : Ref) : M any :=
  o ← get_obj this;
  match cls o with
  | CAsyncNode => AsyncNode._runAsync AsyncNode._exec this
  | CAsyncBatchNode => AsyncNode._runAsync AsyncBatchNode._exec this
  | CAsyncParallelBatchNode =>
      AsyncNode._runAsync AsyncParallelBatchNode._exec this
  | _ => throw (TypeError "curr._runAsync is not a function")
  end.

(** ** class AsyncFlow extends Flow *)
Module AsyncFlow.

Definition new (realm : nat) (start : NodeId) (h : Hooks) : M Ref :=
  alloc realm
    (mkObj CAsyncFlow
       {| params := ∅; successors := ∅; maxRetries := 1; wait := 0;
          curRetry := 0; start := Some start |} h).

(** The [while (curr)] loop of [_orchAsync]; [run] is [curr._run]. *)
Fixpoint orch_loop (run : Ref -> M any) (fuel : nat)
    (curr : option Ref) (p : Params) : M unit :=
  match curr with
  | None => mret tt
  | Some c =>
      match fuel with
      | O => diverge
      | S fuel' =>
          call_setParams c p;;
          emit (NodeRun c p);;
          o ← get_obj c;
          a ← (if is_async_node (cls o) then node_runAsync c else run c);
          nxt ← Flow.getNextNode c a;
          nxt' ← Flow.clone_if nxt;
          orch_loop run fuel' nxt' p
      end
  end.

(** [async _orchAsync(shared, params?)] *)
Definition _orchAsync (fuel : nat) (this : Ref) (override : option Params) : M unit :=
  o ← get_obj this;
  curr ← Flow.clone_if (match start (fields o) with
                        | Some s => Some (NextUnit (this.1, s))
                        | None => None
                        end);
  let p := match override with
           | Some p => p
           | None => params (fields o)
           end in
  orch_loop (_run fuel) fuel curr p.

(** [async _runAsync(shared)] *)
Definition _runAsync (fuel : nat) (this : Ref) : M any :=
  o ← get_obj this;
  p ← call (prepAsync (hooks o) (fields o));
  _orchAsync fuel this None;;
  o' ← get_obj this;
  call (postAsync (hooks o') (fields o') p VNull).

End AsyncFlow.

(** ** class AsyncBatchFlow extends AsyncFlow *)
Module AsyncBatchFlow.

Definition new (realm : nat) (start : NodeId) (h : Hooks) : M Ref :=
  alloc realm
    (mkObj CAsyncBatchFlow
       {| params := ∅; successors := ∅; maxRetries := 1; wait := 0;
          curRetry := 0; start := Some start |} h).

(** [for (const bp of pr) { await this._orchAsync(shared, {...}); }] *)
Fixpoint for_of (fuel : nat) (this : Ref) (pr : list any) : M unit :=
  match pr with
  | [] => mret tt
  | bp :: rest =>
      o ← get_obj this;
      AsyncFlow._orchAsync fuel this
        (Some (merge_params (params (fields o)) (spread bp)));;
      for_of fuel this rest
  end.

(** What [for ... of] iterates over. *)
Definition iterate (v : any) : option (list any) :=
  match v with
  | VArr l => Some l
  | VStr s =>
      Some ((fun c => VStr (String c EmptyString)) <$> String.list_ascii_of_string s)
  | _ => None
  end.

(** [async _runAsync(shared)] *)
Definition _runAsync (fuel : nat) (this : Ref) : M any :=
  o ← get_obj this;
  pr0 ← call (prepAsync (hooks o) (fields o));
  let pr := if truthy pr0 then pr0 else VArr [] in
  match iterate pr with
  | Some l => for_of fuel this l
  | None => throw (TypeError "pr is not iterable")
  end;;
  o' ← get_obj this;
  call (postAsync (hooks o') (fields o') pr VNull).

End AsyncBatchFlow.


(** ** class AsyncParallelBatchFlow extends AsyncFlow

    The class adds no field and overrides [_runAsync] only.  Its
    orchestrations, one per item, are started one after the other, each
    running up to its first await, and are then resumed in an order the
    host chooses. *)
Module AsyncParallelBatchFlow.
Import AsyncNode.

(** [this._exec(prepRes)] of a promise-based unit that has been called
    and not yet settled: the retry loop of an [AsyncNode], or the tasks of
    the items of a batch node under [Promise.all], with the order in which
    the host lets them continue. *)
Inductive Exec : Type :=
  | Single (t : Task)
  | Batch (items : list any) (tasks : list Task) (values : list any)
      (remaining : nat) (sched : list nat).

(** Where an orchestration [_orchAsync(shared, p)] stands: at one of the
    awaits of [curr._runAsync(shared)] for its current unit [c], or at its
    end. *)
Inductive Phase : Type :=
  (** [await this.prepAsync(shared)], which will settle with [r] *)
  | AwaitPrep (c : Ref) (r : Completion any)
  (** [await this._exec(p)] *)
  | AwaitExec (c : Ref) (prepRes : any) (x : Exec)
  (** [await this.postAsync(shared, p, e)], which will settle with [r] *)
  | AwaitPost (c : Ref) (r : Completion any)
  (** the promise of [_orchAsync] is about to settle with [r] *)
  | Ending (r : Completion unit)
  (** it has settled *)
  | Ended (r : Completion unit).

(** What an [async] function throws rejects its promise. *)
Definition settle (m : M Phase) : M Phase :=
  try_catch m (fun e => mret (Ended (Abrupt e))).

(** [this._exec(p)] is called: it runs up to its first await. *)
Definition start_exec (c : Ref) (p : any) : M Exec :=
  o ← get_obj c;
  match cls o with
  | CAsyncBatchNode | CAsyncParallelBatchNode =>
      match (if truthy p then p else VArr []) with
      | VArr l =>
          ts ← PromiseAll.spawn c l;
          sched ← PromiseAll.next_schedule;
          mret (Batch l ts (replicate (length l) VUndefined) (length l) sched)
      | _ =>
          mret (Single
                  (Finishing (Abrupt (TypeError "(items || []).map is not a function"))))
      end
  | _ => t ← attempt c p 0%Z; mret (Single t)
  end.

(** [_exec] continues: it is still suspended afterwards, or has settled. *)
Definition step_exec (c : Ref) (p : any) (x : Exec) : M (Exec + Completion any) :=
  match x with
  | Single t =>
      t' ← resume c p t;
      match t' with
      | Settled r => mret (inr r)
      | _ => mret (inl (Single t'))
      end
  | Batch items tasks values remaining sched =>
      match remaining with
      | O => mret (inr (Normal (VArr values)))
      | S remaining' =>
          match sched with
          | [] => mret (inl x)
          | i :: sched' =>
              match tasks !! i, items !! i with
              | Some t, Some item =>
                  if is_settled t then
                    mret (inl (Batch items tasks values remaining sched'))
                  else
                    t' ← resume c item t;
                    match t' with
                    | Settled (Normal v) =>
                        match remaining' with
                        | O => mret (inr (Normal (VArr (<[i := v]> values))))
                        | S _ =>
                            mret (inl (Batch items (<[i := t']> tasks)
                                         (<[i := v]> values) remaining' sched'))
                        end
                    | Settled (Abrupt e) => mret (inr (Abrupt e))
                    | _ =>
                        mret (inl (Batch items (<[i := t']> tasks) values
                                     remaining sched'))
                    end
              | _, _ => mret (inl (Batch items tasks values remaining sched'))
              end
          end
      end
  end.

(** The [while (curr)] loop of [_orchAsync] up to its next await: the
    blocking units are run, the first promise-based unit has its
    [prepAsync] called; [run] is [curr._run]. *)
Fixpoint advance (run : Ref -> M any) (fuel : nat) (curr : option Ref)
    (p : Params) : M Phase :=
  match curr with
  | None => mret (Ended (Normal tt))
  | Some c =>
      match fuel with
      | O => diverge
      | S fuel' =>
          call_setParams c p;;
          emit (NodeRun c p);;
          o ← get_obj c;
          if is_async_node (cls o) then
            r ← capture (prepAsync (hooks o) (fields o));
            mret (AwaitPrep c r)
          else
            a ← run c;
            nxt ← Flow.getNextNode c a;
            nxt' ← Flow.clone_if nxt;
            advance run fuel' nxt' p
      end
  end.

(** The orchestration continues after the promise it waits for has
    settled. *)
Definition resume_orch (fuel : nat) (p : Params) (ph : Phase) : M Phase :=
  match ph with
  | AwaitPrep c (Normal q) =>
      settle (x ← start_exec c q; mret (AwaitExec c q x))
  | AwaitPrep c (Abrupt e) => mret (Ended (Abrupt e))
  | AwaitExec c q x =>
      settle
        (r ← step_exec c q x;
         match r with
         | inl x' => mret (AwaitExec c q x')
         | inr (Normal e) =>
             o ← get_obj c;
             r' ← capture (postAsync (hooks o) (fields o) q e);
             mret (AwaitPost c r')
         | inr (Abrupt e) => mret (Ended (Abrupt e))
         end)
  | AwaitPost c (Normal a) =>
      settle (nxt ← Flow.getNextNode c a;
              nxt' ← Flow.clone_if nxt;
              advance (_run fuel) fuel nxt' p)
  | AwaitPost c (Abrupt e) => mret (Ended (Abrupt e))
  | Ending r => mret (Ended r)
  | Ended r => mret (Ended r)
  end.

Definition has_ended (ph : Phase) : bool :=
  match ph with
  | Ended _ => true
  | _ => false
  end.

(** [pr.map((bp) => this._orchAsync(shared, { ...this.params, ...bp }))]:
    every orchestration runs up to its first await, in the order of the
    items. *)
Fixpoint spawn (fuel : nat) (this : Ref) (pr : list any) : M (list (Params * Phase)) :=
  match pr with
  | [] => mret []
  | bp :: rest =>
      o ← get_obj this;
      let p := merge_params (params (fields o)) (spread bp) in
      ph ← settle (o' ← get_obj this;
                   curr ← Flow.clone_if (match start (fields o') with
                                         | Some s => Some (NextUnit (this.1, s))
                                         | None => None
                                         end);
                   advance (_run fuel) fuel curr p);
      ts ← spawn fuel this rest;
      mret ((p, match ph with Ended r => Ending r | _ => ph end) :: ts)
  end.

(** [Promise.all] over the orchestrations: the result is delivered when
    none remains, the first rejection rejects the whole. *)
Fixpoint drive (sched : list nat) (fuel : nat) (tasks : list (Params * Phase))
    (remaining : nat) : M unit :=
  match remaining with
  | O => mret tt
  | S remaining' =>
      match sched with
      | [] => diverge
      | k :: sched' =>
          match tasks !! k with
          | Some (p, ph) =>
              if has_ended ph then drive sched' fuel tasks remaining
              else
                ph' ← resume_orch fuel p ph;
                match ph' with
                | Ended (Normal _) =>
                    drive sched' fuel (<[k := (p, ph')]> tasks) remaining'
                | Ended (Abrupt e) => throw e
                | _ => drive sched' fuel (<[k := (p, ph')]> tasks) remaining
                end
          | None => drive sched' fuel tasks remaining
          end
      end
  end.

(** [async _runAsync(shared)] *)
Definition _runAsync (fuel : nat) (this : Ref) : M any :=
  o ← get_obj this;
  pr0 ← call (prepAsync (hooks o) (fields o));
  let pr := if truthy pr0 then pr0 else VArr [] in
  match pr with
  | VArr l =>
      tasks ← spawn fuel this l;
      sched ← PromiseAll.next_schedule;
      drive sched fuel tasks (length l)
  | _ => throw (TypeError "pr.map is not a function")
  end;;
  o' ← get_obj this;
  call (postAsync (hooks o') (fields o') pr VNull).

End AsyncParallelBatchFlow.

(** [runAsync(shared)] *)
Definition runAsync (fuel : nat) (this : Ref) : M any :=
  o ← get_obj this;
  match cls o with
  | CAsyncNode | CAsyncBatchNode | CAsyncParallelBatchNode =>
      (if has_keys (successors (fields o))
       then warn (WontRunSuccessors "AsyncFlow")
       else mret tt);;
      node_runAsync this
  | CAsyncFlow => AsyncFlow._runAsync fuel this
  | CAsyncBatchFlow => AsyncBatchFlow._runAsync fuel this
  | _ => throw (TypeError "this.runAsync is not a function")
  end.

(** ** Reading the trace *)

Definition exec_calls (tr : list Event) : list (Ref * Z * any) :=
  omap (fun ev => match ev with
                  | ExecCall r i p => Some (r, i, p)
                  | _ => None
                  end) tr.

Definition fallback_calls (tr : list Event) : list (Ref * any * Exn) :=
  omap (fun ev => match ev with
                  | FallbackCall r p e => Some (r, p, e)
                  | _ => None
                  end) tr.

Definition node_runs (tr : list Event) : list (Ref * Params) :=
  omap (fun ev => match ev with
                  | NodeRun r p => Some (r, p)
                  | _ => None
                  end) tr.

(** The delays of a trace. *)
Definition waits (tr : list Event) : list Z :=
  omap (fun ev => match ev with
                  | Waited ms => Some ms
                  | _ => None
                  end) tr.

(** The invocations of compute for [n] attempts in a row, from attempt [i]. *)
Fixpoint attempts (this : Ref) (p : any) (i : Z) (n : nat) : list (Ref * Z * any) :=
  match n with
  | O => []
  | S n' => (this, i, p) :: attempts this p (i + 1) n'
  end.

(** The delays taken around [k] failed attempts that are followed by
    another attempt. *)
Definition delays (f : Fields) (k : nat) : list Z :=
  if (0 <? wait f)%Z then replicate k (wait f) else [].

(** The outcome of a call whose completion is [c]. *)
Definition outcome_of {A : Type} (c : Completion A) : Outcome A :=
  match c with
  | Normal a => Return a
  | Abrupt e => Throw e
  end.

(** ** Behaviours of a compute phase *)

(** [fails_then_succeeds o p i k w v w']: invoked for attempt [i] in world
    [w], compute raises; so it does on the next invocations, [k] times in
    all; the invocation after those returns [v] and leaves world [w']. *)
Inductive fails_then_succeeds (o : Obj) (p : any) :
    Z -> nat -> World -> any -> World -> Prop :=
  | fts_succeeds i w v w' :
      exec (hooks o) (with_curRetry i (fields o)) p w = (Normal v, w') ->
      fails_then_succeeds o p i 0 w v w'
  | fts_fails i k w e w1 v w' :
      exec (hooks o) (with_curRetry i (fields o)) p w = (Abrupt e, w1) ->
      fails_then_succeeds o p (i + 1) k w1 v w' ->
      fails_then_succeeds o p i (S k) w v w'.

(** [always_fails o p i k w e w']: compute raises on [k >= 1] invocations
    in a row, starting with attempt [i] in world [w]; the last of them
    raises [e] and leaves world [w']. *)
Inductive always_fails (o : Obj) (p : any) :
    Z -> nat -> World -> Exn -> World -> Prop :=
  | af_last i w e w' :
      exec (hooks o) (with_curRetry i (fields o)) p w = (Abrupt e, w') ->
      always_fails o p i 1 w e w'
  | af_more i k w e1 w1 e w' :
      exec (hooks o) (with_curRetry i (fields o)) p w = (Abrupt e1, w1) ->
      always_fails o p (i + 1) (S k) w1 e w' ->
      always_fails o p i (S (S k)) w e w'.

(** The promise-based compute of [o], invoked in world [w], rejects; so
    it does on the next invocations, [k] times in all; the invocation
    after those fulfils with [v] and leaves world [w']. *)
Inductive rejects_then_fulfils (o : Obj) (p : any) :
    nat -> World -> any -> World -> Prop :=
  | rtf_fulfils w v w' :
      execAsync (hooks o) (fields o) p w = (Normal v, w') ->
      rejects_then_fulfils o p 0 w v w'
  | rtf_rejects k w e w1 v w' :
      execAsync (hooks o) (fields o) p w = (Abrupt e, w1) ->
      rejects_then_fulfils o p k w1 v w' ->
      rejects_then_fulfils o p (S k) w v w'.

(** The promise-based compute rejects on [k >= 1] invocations in a row,
    the last of them with [e]. *)
Inductive always_rejects (o : Obj) (p : any) :
    nat -> World -> Exn -> World -> Prop :=
  | ar_last w e w' :
      execAsync (hooks o) (fields o) p w = (Abrupt e, w') ->
      always_rejects o p 1 w e w'
  | ar_more k w e1 w1 e w' :
      execAsync (hooks o) (fields o) p w = (Abrupt e1, w1) ->
      always_rejects o p (S k) w1 e w' ->
      always_rejects o p (S (S k)) w e w'.

(** A unit of class [Node] whose prepare and compute phases never raise and
    whose finalize phase always returns [a]. *)
Record finalizes (o : Obj) (a : any) : Prop := {
  fin_class : cls o = CNode;
  fin_prep : forall f w, exists p w', prep (hooks o) f w = (Normal p, w');
  fin_exec : forall f p w, exists v w', exec (hooks o) f p w = (Normal v, w');
  fin_post : forall f p v w, exists w', post (hooks o) f p v w = (Normal a, w')
}.


(** The object [o] with its retry counter at [i]. *)
Definition at_retry (i : Z) (o : Obj) : Obj :=
  mkObj (cls o) (with_curRetry i (fields o)) (hooks o).

(** The object of the batch node between two items: the retry counter
    is the only field that has changed. *)
Definition same_unit (o o' : Obj) : Prop :=
  cls o' = cls o /\ hooks o' = hooks o /\
  maxRetries (fields o') = maxRetries (fields o) /\
  wait (fields o') = wait (fields o).

(** What a stretch of the trace contains. *)
Record quiet_but (evs : list Event) (ex : list (Ref * Z * any))
    (fb : list (Ref * any * Exn)) : Prop := {
  qb_exec : exec_calls evs = ex;
  qb_fallback : fallback_calls evs = fb;
  qb_runs : node_runs evs = []
}.

(** [curr instanceof AsyncNode ? await curr._runAsync(shared) : curr._run(shared)] *)
Definition run_or_await (run : Ref -> M any) (c : Ref) : M any :=
  o ← get_obj c;
  if is_async_node (cls o) then node_runAsync c else run c.

(** The realms below [L] are those of [h0]. *)
Definition keeps (h0 : list Realm) (L : nat) (st : State) : Prop :=
  L <= length (heap st) /\ forall k, k < L -> heap st !! k = h0 !! k.

(** [m] maintains [keeps h0 L], whatever its outcome, and what it returns
    satisfies [Q]. *)
Definition maintains {A : Type} (h0 : list Realm) (L : nat)
    (m : M A) (Q : A -> Prop) : Prop :=
  forall st r st',
    keeps h0 L st -> m st = (r, st') ->
    keeps h0 L st' /\ forall a, r = Return a -> Q a.

Definition anything {A : Type} : A -> Prop := fun _ => True.

(** A reference, if any, into a realm at or above [L]. *)
Definition above (L : nat) (nxt : option Ref) : Prop :=
  forall n, nxt = Some n -> L <= n.1.

(** The same for what [getNextNode] returns. *)
Definition above_next (L : nat) (nxt : option Next) : Prop :=
  forall n, nxt = Some (NextUnit n) -> L <= n.1.

(** The tasks that have not settled. *)
Fixpoint pending (tasks : list AsyncNode.Task) : nat :=
  match tasks with
  | [] => 0
  | t :: rest => (if AsyncNode.is_settled t then 0 else 1) + pending rest
  end.

(** What holds of the tasks of a batch over [items] whose compute is [f],
    and of the values [Promise.all] has collected so far. *)
Record collecting (f : any -> any) (items : list any)
    (tasks : list AsyncNode.Task) (values : list any) (remaining : nat) : Prop := {
  col_tasks : length tasks = length items;
  col_values : length values = length items;
  col_each : forall k x, items !! k = Some x ->
    tasks !! k = Some (AsyncNode.Attempting 0 (Normal (f x))) \/
    (tasks !! k = Some (AsyncNode.Settled (Normal (f x))) /\ values !! k = Some (f x));
  col_remaining : remaining = pending tasks
}.

(** The tasks of a batch whose compute fulfils with [f x] for the items
    that [is_bad] does not mark, and for the marked ones rejects with [e]
    as their fallback does with [e']. *)
Record rejecting (f : any -> any) (is_bad : any -> bool) (e e' : Exn)
    (items : list any) (tasks : list AsyncNode.Task) (remaining : nat) : Prop := {
  rej_tasks : length tasks = length items;
  rej_each : forall k x, items !! k = Some x ->
    if is_bad x
    then tasks !! k = Some (AsyncNode.Attempting 0 (Abrupt e)) \/
         tasks !! k = Some (AsyncNode.Finishing (Abrupt e'))
    else tasks !! k = Some (AsyncNode.Attempting 0 (Normal (f x))) \/
         tasks !! k = Some (AsyncNode.Settled (Normal (f x)));
  rej_remaining : remaining = pending tasks
}.

(** The resumptions a task needs before it rejects. *)
Definition resumes_left (t : option AsyncNode.Task) : nat :=
  match t with
  | Some (AsyncNode.Attempting _ _) => 2
  | Some (AsyncNode.Finishing _) => 1
  | _ => 0
  end.

(** ** Sample graphs *)
Module Examples.

(** The number of compute invocations so far, kept in the world. *)
Definition calls (w : World) : Z :=
  match w !! "calls" with
  | Some (VNum n) => n
  | _ => 0%Z
  end.

(** A compute that raises until its [n]-th invocation, which returns ["ok"]. *)
Definition flaky (n : Z) : Fields -> any -> Effect any := fun _ _ w =>
  let k := (calls w + 1)%Z in
  let w' := <["calls" := VNum k]> w in
  if (k <? n)%Z then (Abrupt (Error ("attempt " +:+ pretty k)), w')
  else (Normal (VStr "ok"), w').

(** A compute that always raises, naming the invocation. *)
Definition failing : Fields -> any -> Effect any := fun _ _ w =>
  let k := (calls w + 1)%Z in
  (Abrupt (Error ("attempt " +:+ pretty k)), <["calls" := VNum k]> w).

(** Methods of a [Node] subclass: the given compute and fallback, and a
    finalize that hands on the compute result. *)
Definition unit_hooks (compute : Fields -> any -> Effect any)
    (fallback : Fields -> any -> Exn -> Effect any) : Hooks :=
  {| prep := prep BaseNode.default_hooks;
     exec := compute;
     execFallback := fallback;
     post := fun _ _ e w => (Normal e, w);
     prepAsync := prepAsync BaseNode.default_hooks;
     execAsync := execAsync BaseNode.default_hooks;
     execFallbackAsync := execFallbackAsync BaseNode.default_hooks;
     postAsync := postAsync BaseNode.default_hooks |}.

(** Methods of a [Node] subclass whose finalize returns the outcome [k]
    and whose prepare records [this.params] in the world. *)
Definition step_hooks (k : string) : Hooks :=
  {| prep := fun f w => (Normal VNull, <["seen" := VObj (params f)]> w);
     exec := exec BaseNode.default_hooks;
     execFallback := execFallback BaseNode.default_hooks;
     post := fun _ _ _ w => (Normal (VStr k), w);
     prepAsync := prepAsync BaseNode.default_hooks;
     execAsync := execAsync BaseNode.default_hooks;
     execFallbackAsync := execFallbackAsync BaseNode.default_hooks;
     postAsync := postAsync BaseNode.default_hooks |}.

(** Methods of a flow subclass whose prepare returns [items]. *)
Definition batch_hooks (items : any) : Hooks :=
  {| prep := fun _ w => (Normal items, w);
     exec := exec Flow.default_hooks;
     execFallback := execFallback Flow.default_hooks;
     post := post Flow.default_hooks;
     prepAsync := fun _ w => (Normal items, w);
     execAsync := execAsync Flow.default_hooks;
     execFallbackAsync := execFallbackAsync Flow.default_hooks;
     postAsync := postAsync Flow.default_hooks |}.

(** Methods of an [AsyncNode] subclass whose compute wraps its item. *)
Definition wrap_hooks : Hooks :=
  {| prep := prep AsyncNode.default_hooks;
     exec := exec AsyncNode.default_hooks;
     execFallback := execFallback AsyncNode.default_hooks;
     post := post AsyncNode.default_hooks;
     prepAsync := prepAsync AsyncNode.default_hooks;
     execAsync := fun _ x w => (Normal (VArr [x]), w);
     execFallbackAsync := execFallbackAsync AsyncNode.default_hooks;
     postAsync := postAsync AsyncNode.default_hooks |}.

(** [new Node(maxRetries)] as it is allocated. *)
Definition node_obj (maxRetries : Z) (h : Hooks) : Obj :=
  mkObj CNode
    {| params := ∅; successors := ∅; maxRetries := maxRetries; wait := 0;
       curRetry := 0; start := None |} h.

(** A unit with the edge [success -> 1], and a flow object that starts at
    unit 0. *)
Definition start_unit : Obj :=
  mkObj CNode
    {| params := ∅; successors := {["success" := 1]}; maxRetries := 1;
       wait := 0; curRetry := 0; start := None |} (step_hooks "success").

Definition flow_obj (c : Class) (p : Params) (h : Hooks) : Obj :=
  mkObj c
    {| params := p; successors := ∅; maxRetries := 1; wait := 0;
       curRetry := 0; start := Some 0 |} h.

(** The state an [M] program leaves when run from the empty state. *)
Definition built {A : Type} (m : M A) : State := (m (init ∅)).2.

(** [new Node(3)] with a compute that succeeds on its third invocation. *)
Definition flaky_unit : State :=
  built (Node.new 0 3 0 (unit_hooks (flaky 3) (execFallback BaseNode.default_hooks))).

(** [new Node(2)] with a compute that always raises and a fallback that
    returns ["recovered"]. *)
Definition failing_unit : State :=
  built (Node.new 0 2 0
           (unit_hooks failing (fun _ _ _ w => (Normal (VStr "recovered"), w)))).

(** [new Node(0)]. *)
Definition idle_unit : State :=
  built (Node.new 0 0 0 (unit_hooks (flaky 1) (execFallback BaseNode.default_hooks))).

(** [a.withAction("success").then(b); new Flow(a)]: units 0 and 1, flow 2. *)
Definition two_node_flow : State :=
  built (a ← Node.new 0 1 0 (step_hooks "success");
         b ← Node.new 0 1 0 (step_hooks "done");
         BaseNode.addSuccessor a b.2 "success";;
         Flow.new 0 a.2 Flow.default_hooks).



(** The items of the batches. *)
Definition item (n : Z) : any := VObj {["id" := VNum n]}.

(** A batch flow and an async batch flow over the two units, flows 2
    and 3. *)
Definition batch_flows : State :=
  built (a ← Node.new 0 1 0 (step_hooks "success");
         b ← Node.new 0 1 0 (step_hooks "done");
         BaseNode.addSuccessor a b.2 "success";;
         BatchFlow.new 0 a.2 (batch_hooks (VArr [item 1; item 2; item 3]));;
         AsyncBatchFlow.new 0 a.2 (batch_hooks (VArr [item 1; item 2; item 3]))).

(** [new AsyncParallelBatchNode()], the host letting the second item
    complete first. *)
Definition parallel_unit : State :=
  let st := built (AsyncParallelBatchNode.new 0 1 0 wrap_hooks) in
  mkState (world st) (heap st) (console st) (trace st) [[1; 0; 2]].

(** [new Node(3, 50)] with a compute that succeeds on its third
    invocation, and with one that never does. *)
Definition slow_flaky_unit : State :=
  built (Node.new 0 3 50 (unit_hooks (flaky 3) (execFallback BaseNode.default_hooks))).

Definition slow_failing_unit : State :=
  built (Node.new 0 3 50
           (unit_hooks failing (fun _ _ _ w => (Normal (VStr "recovered"), w)))).

(** A compute that wraps its item and raises for the item [null]. *)
Definition picky : Fields -> any -> Effect any := fun _ x w =>
  match x with
  | VNull => (Abrupt (Error "bad item"), w)
  | _ => (Normal (VArr [x]), w)
  end.

(** The items that [picky] refuses. *)
Definition is_null (x : any) : bool :=
  match x with
  | VNull => true
  | _ => false
  end.

(** [new BatchNode(2)] as it is allocated. *)
Definition batch_obj (h : Hooks) : Obj :=
  mkObj CBatchNode
    {| params := ∅; successors := ∅; maxRetries := 2; wait := 0;
       curRetry := 0; start := None |} h.

(** A compute that wraps its item. *)
Definition wrap : Fields -> any -> Effect any := fun _ x w => (Normal (VArr [x]), w).

(** [new BatchNode(2)] with the compute [wrap], with the compute [picky],
    and with a compute that always raises and a fallback that returns the
    item. *)
Definition wrapping_batch : State :=
  built (BatchNode.new 0 2 0 (unit_hooks wrap (execFallback BaseNode.default_hooks))).

Definition picky_batch : State :=
  built (BatchNode.new 0 2 0 (unit_hooks picky (execFallback BaseNode.default_hooks))).

Definition failing_batch : State :=
  built (BatchNode.new 0 2 0 (unit_hooks failing (fun _ x _ w => (Normal x, w)))).

(** Methods of an [AsyncNode] subclass, like [unit_hooks] and
    [step_hooks]. *)
Definition async_unit_hooks (compute : Fields -> any -> Effect any)
    (fallback : Fields -> any -> Exn -> Effect any) : Hooks :=
  {| prep := prep AsyncNode.default_hooks;
     exec := exec AsyncNode.default_hooks;
     execFallback := execFallback AsyncNode.default_hooks;
     post := post AsyncNode.default_hooks;
     prepAsync := prepAsync AsyncNode.default_hooks;
     execAsync := compute;
     execFallbackAsync := fallback;
     postAsync := fun _ _ e w => (Normal e, w) |}.

Definition async_step_hooks (k : string) : Hooks :=
  {| prep := prep AsyncNode.default_hooks;
     exec := exec AsyncNode.default_hooks;
     execFallback := execFallback AsyncNode.default_hooks;
     post := post AsyncNode.default_hooks;
     prepAsync := fun f w => (Normal VNull, <["seen" := VObj (params f)]> w);
     execAsync := execAsync AsyncNode.default_hooks;
     execFallbackAsync := execFallbackAsync AsyncNode.default_hooks;
     postAsync := fun _ _ _ w => (Normal (VStr k), w) |}.

(** [new AsyncNode(maxRetries)] as it is allocated. *)
Definition async_obj (c : Class) (maxRetries : Z) (h : Hooks) : Obj :=
  mkObj c
    {| params := ∅; successors := ∅; maxRetries := maxRetries; wait := 0;
       curRetry := 0; start := None |} h.

(** A blocking unit followed by a promise-based one, with a [Flow] and an
    [AsyncFlow] over them: units 0 and 1, flows 2 and 3. *)
Definition mixed_flows : State :=
  built (a ← Node.new 0 1 0 (step_hooks "success");
         b ← AsyncNode.new 0 1 0 (async_step_hooks "done");
         BaseNode.addSuccessor a b.2 "success";;
         Flow.new 0 a.2 Flow.default_hooks;;
         AsyncFlow.new 0 a.2 Flow.default_hooks).

(** Batch flows whose prepare returns [null]: unit 0, flows 1 and 2. *)
Definition empty_batch_flows : State :=
  built (a ← Node.new 0 1 0 (step_hooks "done");
         BatchFlow.new 0 a.2 (batch_hooks VNull);;
         AsyncBatchFlow.new 0 a.2 (batch_hooks VNull)).

(** [new AsyncNode(3)] with a compute that fulfils at its third
    invocation, and [new AsyncNode(2)] with one that never does and a
    fallback that fulfils with ["recovered"]. *)
Definition async_flaky_unit : State :=
  built (AsyncNode.new 0 3 0
           (async_unit_hooks (flaky 3) (execFallbackAsync AsyncNode.default_hooks))).

Definition async_failing_unit : State :=
  built (AsyncNode.new 0 2 0
           (async_unit_hooks failing (fun _ _ _ w => (Normal (VStr "recovered"), w)))).

(** [new AsyncBatchNode()], the host letting the third item complete
    first. *)
Definition async_batch_unit : State :=
  let st := built (AsyncBatchNode.new 0 1 0 wrap_hooks) in
  mkState (world st) (heap st) (console st) (trace st) [[2; 0; 1]].

(** [new AsyncParallelBatchNode()] with the compute [picky]. *)
Definition picky_parallel_unit : State :=
  let st := built (AsyncParallelBatchNode.new 0 1 0
                     (async_unit_hooks picky
                        (execFallbackAsync AsyncNode.default_hooks))) in
  mkState (world st) (heap st) (console st) (trace st) [[1; 0; 1]].

(** [new BaseNode()] with a compute that raises. *)
Definition base_unit : State :=
  built (BaseNode.new 0 (unit_hooks failing (execFallback BaseNode.default_hooks))).

(** [new Node(2)] with a compute that always raises and no fallback of
    its own. *)
Definition helpless_unit : State :=
  built (Node.new 0 2 0 (unit_hooks failing (execFallback BaseNode.default_hooks))).

(** [new AsyncParallelBatchFlow(a)] over the two units, flow 2; the host
    notices the orchestration of the third item first. *)
Definition parallel_flows : State :=
  let st := built (a ← Node.new 0 1 0 (step_hooks "success");
                   b ← Node.new 0 1 0 (step_hooks "done");
                   BaseNode.addSuccessor a b.2 "success";;
                   AsyncFlow.new 0 a.2 (batch_hooks (VArr [item 1; item 2; item 3]))) in
  mkState (world st) (heap st) (console st) (trace st) [[2; 0; 1]].

End Examples.

(** * Properties *)

Import Examples.

(** ** The monad and the heap *)

Lemma bind_unfold {A B : Type} (m : M A) (k : A -> M B) (st : State) :
  (m ≫= k) st =
  match m st with
  | (Return a, st') => k a st'
  | (Throw e, st') => (Throw e, st')
  | (Diverge, st') => (Diverge, st')
  end.
Proof. reflexivity. Qed.

Lemma bind_return {A B : Type} (m : M A) (k : A -> M B) st a st' :
  m st = (Return a, st') -> (m ≫= k) st = k a st'.
Proof. intros H. rewrite bind_unfold, H. reflexivity. Qed.

Lemma bind_throw {A B : Type} (m : M A) (k : A -> M B) st e st' :
  m st = (Throw e, st') -> (m ≫= k) st = (Throw e, st').
Proof. intros H. rewrite bind_unfold, H. reflexivity. Qed.

Lemma ret_bind {A B} (a : A) (k : A -> M B) st : (mret a ≫= k) st = k a st.
Proof. reflexivity. Qed.

Lemma bind_ext {A B} (m : M A) (k k' : A -> M B) st :
  (forall a s, k a s = k' a s) -> (m ≫= k) st = (m ≫= k') st.
Proof. intros H. rewrite !bind_unfold. destruct (m st) as [[a|e|] s]; auto. Qed.

Lemma bind_assoc {A B C} (m : M A) (k : A -> M B) (k' : B -> M C) st :
  ((m ≫= k) ≫= k') st = (m ≫= fun a => k a ≫= k') st.
Proof. rewrite !bind_unfold. destruct (m st) as [[a|e|] s]; reflexivity. Qed.

Lemma get_obj_some r st o :
  lookup_obj (heap st) r = Some o -> get_obj r st = (Return o, st).
Proof. intros H. unfold get_obj. rewrite H. reflexivity. Qed.

Lemma modify_fields_some r f st o :
  lookup_obj (heap st) r = Some o ->
  modify_fields r f st =
  (Return tt,
   set_heap (update_obj (heap st) r
               (fun o => mkObj (cls o) (f (fields o)) (hooks o))) st).
Proof. intros H. unfold modify_fields. rewrite H. reflexivity. Qed.

Lemma lookup_obj_some h r o :
  lookup_obj h r = Some o <->
  exists rl, h !! r.1 = Some rl /\ rl !! r.2 = Some o.
Proof.
  unfold lookup_obj. split.
  - destruct (h !! r.1) as [rl|] eqn:E; simpl; [eauto | discriminate].
  - intros (rl & -> & H). exact H.
Qed.

Lemma lookup_update_obj_eq h r f o :
  lookup_obj h r = Some o -> lookup_obj (update_obj h r f) r = Some (f o).
Proof.
  intros H. apply lookup_obj_some in H as (rl & Hh & Hr).
  unfold update_obj, lookup_obj. rewrite Hh, Hr.
  rewrite list_lookup_insert_eq by (eapply lookup_lt_Some; eauto). simpl.
  apply list_lookup_insert_eq. eapply lookup_lt_Some; eauto.
Qed.

Lemma lookup_update_obj_ne h r r' f :
  r <> r' -> lookup_obj (update_obj h r f) r' = lookup_obj h r'.
Proof.
  intros Hne. unfold update_obj, lookup_obj.
  destruct (h !! r.1) as [rl|] eqn:Hh; [|reflexivity].
  destruct (rl !! r.2) as [o|] eqn:Hr; [|reflexivity].
  destruct (decide (r.1 = r'.1)) as [E|E].
  - rewrite <- E, list_lookup_insert_eq by (eapply lookup_lt_Some; eauto).
    rewrite Hh. simpl. apply list_lookup_insert_ne.
    intros E2. apply Hne. destruct r, r'; simpl in *; congruence.
  - rewrite list_lookup_insert_ne by exact E. reflexivity.
Qed.

Lemma at_retry_at_retry i j o : at_retry i (at_retry j o) = at_retry i o.
Proof. reflexivity. Qed.

Lemma emit_eq ev st :
  emit ev st =
  (Return tt, mkState (world st) (heap st) (console st) (trace st ++ [ev]) (settle_order st)).
Proof. reflexivity. Qed.

Lemma call_eq {A : Type} (f : Effect A) st :
  call f st =
  (outcome_of (f (world st)).1,
   mkState (f (world st)).2 (heap st) (console st) (trace st) (settle_order st)).
Proof. unfold call. destruct (f (world st)) as [[a|e] w]; reflexivity. Qed.

Lemma update_obj_twice h r f g :
  update_obj (update_obj h r f) r g = update_obj h r (fun x => g (f x)).
Proof.
  unfold update_obj.
  destruct (h !! r.1) as [rl|] eqn:Hh; [|by rewrite Hh].
  destruct (rl !! r.2) as [o|] eqn:Hr; [|by rewrite Hh, Hr].
  rewrite list_lookup_insert_eq by (eapply lookup_lt_Some; eauto).
  rewrite list_lookup_insert_eq by (eapply lookup_lt_Some; eauto).
  by rewrite !list_insert_insert_eq.
Qed.

Lemma update_obj_ext h r f g o :
  lookup_obj h r = Some o -> f o = g o -> update_obj h r f = update_obj h r g.
Proof.
  intros Hl Hfg. apply lookup_obj_some in Hl as (rl & Hh & Hr).
  unfold update_obj. by rewrite Hh, Hr, Hfg.
Qed.

Lemma update_obj_id h r f o :
  lookup_obj h r = Some o -> f o = o -> update_obj h r f = h.
Proof.
  intros Hl Hf. apply lookup_obj_some in Hl as (rl & Hh & Hr).
  unfold update_obj. rewrite Hh, Hr, Hf.
  rewrite (list_insert_id rl) by done. by apply list_insert_id.
Qed.

Lemma modify_fields_spec r f st o :
  lookup_obj (heap st) r = Some o ->
  exists st',
    modify_fields r f st = (Return tt, st') /\
    world st' = world st /\ console st' = console st /\
    trace st' = trace st /\ settle_order st' = settle_order st /\
    heap st' = update_obj (heap st) r
                 (fun o => mkObj (cls o) (f (fields o)) (hooks o)) /\
    lookup_obj (heap st') r = Some (mkObj (cls o) (f (fields o)) (hooks o)).
Proof.
  intros Hl. eexists. split; [apply (modify_fields_some _ _ _ _ Hl)|].
  simpl. repeat split. by rewrite (lookup_update_obj_eq _ _ _ _ Hl).
Qed.

Ltac step_get H :=
  match goal with |- context [(get_obj ?r ≫= ?k) ?s] =>
    rewrite (bind_return (get_obj r) k s _ s (get_obj_some r s _ H))
  end.

Ltac step_modify H :=
  match goal with |- context [(modify_fields ?r ?f ≫= ?k) ?s] =>
    rewrite (bind_return (modify_fields r f) k s tt _ (modify_fields_some r f s _ H))
  end.

Lemma quiet_nil : quiet_but [] [] [].
Proof. by split. Qed.

Lemma quiet_app evs1 evs2 ex1 ex2 fb1 fb2 :
  quiet_but evs1 ex1 fb1 -> quiet_but evs2 ex2 fb2 ->
  quiet_but (evs1 ++ evs2) (ex1 ++ ex2) (fb1 ++ fb2).
Proof.
  intros [H1 H2 H3] [H4 H5 H6].
  split; unfold exec_calls, fallback_calls, node_runs in *; rewrite omap_app;
    [rewrite H1, H4|rewrite H2, H5|rewrite H3, H6]; reflexivity.
Qed.

Lemma pause_spec f st :
  exists evs,
    pause f st =
      (Return tt,
       mkState (world st) (heap st) (console st) (trace st ++ evs) (settle_order st)) /\
    quiet_but evs [] [].
Proof.
  unfold pause. destruct (0 <? wait f)%Z.
  - eexists. split; [reflexivity|]. by split.
  - exists []. rewrite app_nil_r. split; [by destruct st|apply quiet_nil].
Qed.

Section RetryLoop.

Variables (this : Ref) (o : Obj) (p : any).

(** A run of the loop that ends in a successful attempt. *)
Lemma retry_loop_succeeds k :
  forall i st v w' fuel,
    lookup_obj (heap st) this = Some (at_retry i o) ->
    (i + Z.of_nat k < maxRetries (fields o))%Z ->
    fails_then_succeeds o p i k (world st) v w' ->
    k < fuel ->
    exists evs,
      Node.retry_loop fuel this p st =
        (Return v,
         mkState w' (update_obj (heap st) this (at_retry (i + Z.of_nat k)))
           (console st) (trace st ++ evs) (settle_order st)) /\
      quiet_but evs (attempts this p i (S k)) [].
Proof.
  induction k as [|k IH]; intros i st v w' fuel Hl Hmax Hf Hfuel;
    (destruct fuel as [|fuel]; [lia|]); cbn [Node.retry_loop];
    step_get Hl; cbn [fields hooks at_retry with_curRetry curRetry maxRetries wait];
    (assert ((i <? maxRetries (fields o))%Z = true) as -> by (apply Z.ltb_lt; lia)).
  - inversion Hf as [i' w0 v0 w0' Hex|]; subst.
    unfold try_catch. rewrite bind_unfold, emit_eq. unfold call. simpl. rewrite Hex.
    exists [ExecCall this i p]. split; [|by split].
    rewrite Z.add_0_r, (update_obj_id _ _ _ _ Hl); done.
  - inversion Hf as [|i' k' w0 e w1 v0 w0' Hex Hrest]; subst.
    assert ((i =? maxRetries (fields o) - 1)%Z = false) as ->
      by (apply Z.eqb_neq; lia).
    unfold try_catch at 1. rewrite bind_unfold, emit_eq. unfold call. simpl.
    rewrite Hex.
    match goal with |- context [(pause ?f ≫= ?k) ?s] =>
      destruct (pause_spec f s) as (evp & Hp & Hq) end.
    rewrite (bind_return _ _ _ _ _ Hp). cbn [world heap console trace settle_order] in *.
    step_modify Hl.
    match goal with |- context [Node.retry_loop fuel this p ?s] =>
      destruct (IH (i + 1)%Z s v w' fuel) as (evs & Hrun & Hqs) end.
    { simpl. rewrite (lookup_update_obj_eq _ _ _ _ Hl). reflexivity. }
    { lia. }
    { exact Hrest. }
    { lia. }
    exists ([ExecCall this i p] ++ evp ++ evs). split.
    + rewrite Hrun. cbn [world heap console trace settle_order set_heap].
      rewrite update_obj_twice, <- !app_assoc.
      rewrite (update_obj_ext _ _ _ (at_retry (i + Z.of_nat (S k))) _ Hl);
        [reflexivity|].
      unfold at_retry, with_curRetry. simpl.
      replace (i + 1 + Z.of_nat k)%Z with (i + Z.of_nat (S k))%Z by lia.
      reflexivity.
    + apply (quiet_app [ExecCall this i p] (evp ++ evs)
               [(this, i, p)] (attempts this p (i + 1) (S k)) [] []);
        [by split|].
      apply (quiet_app evp evs [] (attempts this p (i + 1) (S k)) [] []); done.
Qed.

(** A run of the loop in which every attempt fails, up to the call of
    the fallback. *)
Lemma retry_loop_exhausted k :
  forall i st e w' fuel,
    lookup_obj (heap st) this = Some (at_retry i o) ->
    maxRetries (fields o) = (i + Z.of_nat k + 1)%Z ->
    always_fails o p i (S k) (world st) e w' ->
    k < fuel ->
    exists evs,
      Node.retry_loop fuel this p st =
        call (execFallback (hooks o)
                (with_curRetry (i + Z.of_nat k) (fields o)) p e)
          (mkState w' (update_obj (heap st) this (at_retry (i + Z.of_nat k)))
             (console st) (trace st ++ evs) (settle_order st)) /\
      quiet_but evs (attempts this p i (S k)) [(this, p, e)].
Proof.
  induction k as [|k IH]; intros i st e w' fuel Hl Hmax Hf Hfuel;
    (destruct fuel as [|fuel]; [lia|]); cbn [Node.retry_loop];
    step_get Hl; cbn [fields hooks at_retry with_curRetry curRetry maxRetries wait];
    (assert ((i <? maxRetries (fields o))%Z = true) as -> by (apply Z.ltb_lt; lia)).
  - inversion Hf as [i' w0 e0 w0' Hex|]; subst.
    assert ((i =? maxRetries (fields o) - 1)%Z = true) as ->
      by (apply Z.eqb_eq; lia).
    unfold try_catch at 1. rewrite bind_unfold, emit_eq. unfold call at 1.
    cbn [world heap console trace settle_order]. rewrite Hex.
    rewrite bind_unfold, emit_eq.
    exists [ExecCall this i p; FallbackCall this p e]. split; [|by split].
    rewrite Z.add_0_r, (update_obj_id _ _ _ _ Hl) by done.
    cbn [world heap console trace settle_order]. by rewrite <- app_assoc.
  - inversion Hf as [|i' k' w0 e1 w1 e0 w0' Hex Hrest]; subst.
    assert ((i =? maxRetries (fields o) - 1)%Z = false) as ->
      by (apply Z.eqb_neq; lia).
    unfold try_catch at 1. rewrite bind_unfold, emit_eq. unfold call at 1.
    cbn [world heap console trace settle_order]. rewrite Hex.
    match goal with |- context [(pause ?f ≫= ?k) ?s] =>
      destruct (pause_spec f s) as (evp & Hp & Hq) end.
    rewrite (bind_return _ _ _ _ _ Hp). cbn [world heap console trace settle_order] in *.
    step_modify Hl.
    match goal with |- context [Node.retry_loop fuel this p ?s] =>
      destruct (IH (i + 1)%Z s e w' fuel) as (evs & Hrun & Hqs) end.
    { simpl. rewrite (lookup_update_obj_eq _ _ _ _ Hl). reflexivity. }
    { lia. }
    { exact Hrest. }
    { lia. }
    exists ([ExecCall this i p] ++ evp ++ evs). split.
    + rewrite Hrun. cbn [world heap console trace settle_order set_heap].
      rewrite update_obj_twice, <- !app_assoc.
      replace (i + 1 + Z.of_nat k)%Z with (i + Z.of_nat (S k))%Z by lia.
      rewrite (update_obj_ext _ _ _ (at_retry (i + Z.of_nat (S k))) _ Hl);
        reflexivity.
    + apply (quiet_app [ExecCall this i p] (evp ++ evs)
               [(this, i, p)] (attempts this p (i + 1) (S k)) [] [(this, p, e)]);
        [by split|].
      apply (quiet_app evp evs [] (attempts this p (i + 1) (S k))
               [] [(this, p, e)]); done.
Qed.

(** The fuel that [_exec] gives the loop is enough: the loop ends. *)
Lemma retry_loop_ends fuel :
  forall i st,
    lookup_obj (heap st) this = Some (at_retry i o) ->
    (maxRetries (fields o) - i <= Z.of_nat fuel)%Z ->
    (Node.retry_loop fuel this p st).1 <> Diverge.
Proof.
  induction fuel as [|fuel IH]; intros i st Hl Hle; cbn [Node.retry_loop];
    step_get Hl; cbn [fields hooks at_retry with_curRetry curRetry maxRetries wait];
    (destruct (i <? maxRetries (fields o))%Z eqn:Hi; [|discriminate]);
    apply Z.ltb_lt in Hi; [lia|].
  unfold try_catch at 1. rewrite bind_unfold, emit_eq, call_eq.
  cbn [world heap console trace settle_order].
  destruct (exec (hooks o) (with_curRetry i (fields o)) p (world st)) as [[v|e] w1];
    cbn [fst snd outcome_of]; [discriminate|].
  destruct (i =? maxRetries (fields o) - 1)%Z.
  - rewrite bind_unfold, emit_eq, call_eq. cbn [fst].
    by destruct (execFallback _ _ _ _ _).1.
  - match goal with |- context [(pause ?f ≫= ?k) ?s] =>
      destruct (pause_spec f s) as (evp & Hp & _) end.
    rewrite (bind_return _ _ _ _ _ Hp). step_modify Hl.
    apply (IH (i + 1)%Z); [|lia].
    cbn [heap set_heap]. by rewrite (lookup_update_obj_eq _ _ _ _ Hl).
Qed.

(** With no attempt left the loop is not entered. *)
Lemma retry_loop_skipped fuel i st :
  lookup_obj (heap st) this = Some (at_retry i o) ->
  (maxRetries (fields o) <= i)%Z ->
  Node.retry_loop fuel this p st = (Return VNull, st).
Proof.
  intros Hl Hle. destruct fuel; cbn [Node.retry_loop]; step_get Hl;
    cbn [fields hooks at_retry with_curRetry curRetry maxRetries wait];
    (assert ((i <? maxRetries (fields o))%Z = false) as -> by (apply Z.ltb_ge; lia));
    reflexivity.
Qed.

End RetryLoop.

(** [Node._exec] when attempt [k] succeeds. *)
Lemma Node_exec_succeeds this o p st k v w1 :
  lookup_obj (heap st) this = Some o ->
  (Z.of_nat k < maxRetries (fields o))%Z ->
  fails_then_succeeds o p 0 k (world st) v w1 ->
  exists evs,
    Node._exec this p st =
      (Return v,
       mkState w1 (update_obj (heap st) this (at_retry (Z.of_nat k)))
         (console st) (trace st ++ evs) (settle_order st)) /\
    quiet_but evs (attempts this p 0 (S k)) [].
Proof.
  intros Hl Hmax Hf. unfold Node._exec. step_modify Hl.
  pose proof (lookup_update_obj_eq _ _
     (fun o => mkObj (cls o) (with_curRetry 0 (fields o)) (hooks o)) _ Hl) as Hl0.
  match goal with |- context [(get_obj this ≫= _) ?s] => set (st0 := s) end.
  change (lookup_obj (heap st0) this = Some (at_retry 0 o)) in Hl0.
  step_get Hl0. cbn [fields at_retry maxRetries with_curRetry].
  destruct (retry_loop_succeeds this o p k 0 st0 v w1 (Z.to_nat (maxRetries (fields o))))
    as (evs & Hrun & Hq); try done; try lia.
  exists evs. split; [|exact Hq]. rewrite Hrun. subst st0.
  cbn [world heap console trace settle_order set_heap].
  rewrite update_obj_twice, Z.add_0_l.
  rewrite (update_obj_ext _ _ _ (at_retry (Z.of_nat k)) _ Hl); reflexivity.
Qed.

(** [Node._exec] when every attempt fails. *)
Lemma Node_exec_exhausted this o p st N e w1 :
  lookup_obj (heap st) this = Some o ->
  maxRetries (fields o) = Z.of_nat (S N) ->
  always_fails o p 0 (S N) (world st) e w1 ->
  exists evs,
    Node._exec this p st =
      call (execFallback (hooks o) (with_curRetry (Z.of_nat N) (fields o)) p e)
        (mkState w1 (update_obj (heap st) this (at_retry (Z.of_nat N)))
           (console st) (trace st ++ evs) (settle_order st)) /\
    quiet_but evs (attempts this p 0 (S N)) [(this, p, e)].
Proof.
  intros Hl Hmax Hf. unfold Node._exec. step_modify Hl.
  pose proof (lookup_update_obj_eq _ _
     (fun o => mkObj (cls o) (with_curRetry 0 (fields o)) (hooks o)) _ Hl) as Hl0.
  match goal with |- context [(get_obj this ≫= _) ?s] => set (st0 := s) end.
  change (lookup_obj (heap st0) this = Some (at_retry 0 o)) in Hl0.
  step_get Hl0. cbn [fields at_retry maxRetries with_curRetry].
  destruct (retry_loop_exhausted this o p N 0 st0 e w1 (Z.to_nat (maxRetries (fields o))))
    as (evs & Hrun & Hq); try done; try lia.
  exists evs. split; [|exact Hq]. rewrite Hrun. subst st0.
  cbn [world heap console trace settle_order set_heap].
  rewrite update_obj_twice, Z.add_0_l.
  rewrite (update_obj_ext _ _ _ (at_retry (Z.of_nat N)) _ Hl); reflexivity.
Qed.

(** [Node._exec] when [maxRetries] allows no attempt. *)
Lemma Node_exec_skipped this o p st :
  lookup_obj (heap st) this = Some o ->
  (maxRetries (fields o) <= 0)%Z ->
  Node._exec this p st =
    (Return VNull, set_heap (update_obj (heap st) this (at_retry 0)) st).
Proof.
  intros Hl Hle. unfold Node._exec. step_modify Hl.
  pose proof (lookup_update_obj_eq _ _
     (fun o => mkObj (cls o) (with_curRetry 0 (fields o)) (hooks o)) _ Hl) as Hl0.
  match goal with |- context [(get_obj this ≫= _) ?s] => set (st0 := s) end.
  change (lookup_obj (heap st0) this = Some (at_retry 0 o)) in Hl0.
  step_get Hl0.
  by rewrite (retry_loop_skipped this o p _ 0 st0 Hl0 Hle).
Qed.

(** [Node._exec] returns or throws. *)
Lemma Node_exec_ends this o p st :
  lookup_obj (heap st) this = Some o ->
  (Node._exec this p st).1 <> Diverge.
Proof.
  intros Hl. unfold Node._exec. step_modify Hl.
  pose proof (lookup_update_obj_eq _ _
     (fun o => mkObj (cls o) (with_curRetry 0 (fields o)) (hooks o)) _ Hl) as Hl0.
  match goal with |- context [(get_obj this ≫= _) ?s] => set (st0 := s) end.
  change (lookup_obj (heap st0) this = Some (at_retry 0 o)) in Hl0.
  step_get Hl0. apply (retry_loop_ends this o p _ 0 st0 Hl0).
  cbn [fields at_retry maxRetries with_curRetry]. lia.
Qed.

(** [this._run] of a [Node] is [BaseNode._run] over [Node._exec]. *)
Lemma run_Node fuel this st o :
  lookup_obj (heap st) this = Some o ->
  cls o = CNode ->
  _run fuel this st = BaseNode._run Node._exec this st.
Proof.
  intros Hl Hc. destruct fuel; cbn [_run]; step_get Hl; rewrite Hc; reflexivity.
Qed.

Lemma attempts_length this p i n : length (attempts this p i n) = n.
Proof. revert i. induction n as [|n IH]; intros i; simpl; [done|]. by rewrite IH. Qed.

Lemma exec_calls_app t1 t2 : exec_calls (t1 ++ t2) = exec_calls t1 ++ exec_calls t2.
Proof. apply omap_app. Qed.

Lemma fallback_calls_app t1 t2 :
  fallback_calls (t1 ++ t2) = fallback_calls t1 ++ fallback_calls t2.
Proof. apply omap_app. Qed.

Lemma node_runs_app t1 t2 : node_runs (t1 ++ t2) = node_runs t1 ++ node_runs t2.
Proof. apply omap_app. Qed.

(** ** Retry and fallback *)

(** C1. For a unit built with [maxRetries = N >= 1] whose compute raises on
    its first [N - 1] invocations and returns [v] on the [N]-th, a run
    invokes compute exactly [N] times (attempts [0 .. N-1]) and never the
    fallback, and the compute result handed to finalize is [v]: the run
    ends as [post(shared, p, v)] does. *)
Theorem c1_retry_until_success
    (this : Ref) (o : Obj) (st : State) (N : nat) (p v : any)
    (w0 w1 : World) (fuel : nat) :
  lookup_obj (heap st) this = Some o ->
  cls o = CNode ->
  maxRetries (fields o) = Z.of_nat N ->
  1 <= N ->
  prep (hooks o) (fields o) (world st) = (Normal p, w0) ->
  fails_then_succeeds o p 0 (N - 1) w0 v w1 ->
  let finalize :=
    post (hooks o) (with_curRetry (Z.of_nat N - 1) (fields o)) p v w1 in
  exists st',
    _run fuel this st = (outcome_of finalize.1, st') /\
    world st' = finalize.2 /\
    exec_calls (trace st') = exec_calls (trace st) ++ attempts this p 0 N /\
    length (exec_calls (trace st')) = length (exec_calls (trace st)) + N /\
    fallback_calls (trace st') = fallback_calls (trace st).
Proof.
  intros Hl Hcls Hmax HN Hprep Hf finalize.
  destruct N as [|N]; [lia|]. cbn [Nat.sub] in Hf. rewrite Nat.sub_0_r in Hf.
  subst finalize. replace (Z.of_nat (S N) - 1)%Z with (Z.of_nat N) by lia.
  rewrite (run_Node _ _ _ _ Hl Hcls). unfold BaseNode._run. step_get Hl.
  rewrite bind_unfold, call_eq, Hprep. cbn [fst snd outcome_of].
  match goal with |- context [(Node._exec this p ≫= _) ?s] =>
    destruct (Node_exec_succeeds this o p s N v w1 Hl) as (evs & Hex & [Hq1 Hq2 _]);
      [lia|exact Hf|] end.
  rewrite (bind_return _ _ _ _ _ Hex).
  pose proof (lookup_update_obj_eq _ _ (at_retry (Z.of_nat N)) _ Hl) as Hl1.
  step_get Hl1. rewrite call_eq.
  eexists. split; [reflexivity|]. cbn [world trace heap].
  rewrite exec_calls_app, fallback_calls_app, Hq1, Hq2, app_nil_r.
  repeat split. by rewrite length_app, attempts_length.
Qed.

Lemma c1_witness :
  exists st',
    _run 0 (0, 0) flaky_unit = (Return (VStr "ok"), st') /\
    length (exec_calls (trace st')) = 3 /\
    fallback_calls (trace st') = [].
Proof.
  destruct (c1_retry_until_success (0, 0)
              (node_obj 3 (unit_hooks (flaky 3) (execFallback BaseNode.default_hooks)))
              flaky_unit 3 VNull (VStr "ok") ∅
              (<["calls" := VNum 3]> (<["calls" := VNum 2]> (<["calls" := VNum 1]> ∅))) 0)
    as (st' & Hrun & _ & _ & Hlen & Hfb).
  - reflexivity.
  - reflexivity.
  - reflexivity.
  - lia.
  - reflexivity.
  - eapply fts_fails; [vm_compute; reflexivity|].
    eapply fts_fails; [vm_compute; reflexivity|].
    apply fts_succeeds. vm_compute. reflexivity.
  - exists st'. split; [exact Hrun|]. split; [exact Hlen|exact Hfb].
Defined.

(** C2. For a unit whose compute raises on all [maxRetries = N >= 1]
    attempts, the fallback is invoked exactly once, with the error of the
    last attempt; what it returns is the compute result handed to finalize;
    if it raises, that error leaves the run, finalize is not reached and
    no second fallback call is made. *)
Theorem c2_fallback_after_last_attempt
    (this : Ref) (o : Obj) (st : State) (N : nat) (p : any) (e : Exn)
    (w0 w1 : World) (fuel : nat) :
  lookup_obj (heap st) this = Some o ->
  cls o = CNode ->
  maxRetries (fields o) = Z.of_nat N ->
  1 <= N ->
  prep (hooks o) (fields o) (world st) = (Normal p, w0) ->
  always_fails o p 0 N w0 e w1 ->
  let f := with_curRetry (Z.of_nat N - 1) (fields o) in
  let fallback := execFallback (hooks o) f p e w1 in
  exists st',
    _run fuel this st =
      (match fallback.1 with
       | Normal v => outcome_of (post (hooks o) f p v fallback.2).1
       | Abrupt e' => Throw e'
       end, st') /\
    world st' =
      match fallback.1 with
      | Normal v => (post (hooks o) f p v fallback.2).2
      | Abrupt _ => fallback.2
      end /\
    fallback_calls (trace st') = fallback_calls (trace st) ++ [(this, p, e)] /\
    exec_calls (trace st') = exec_calls (trace st) ++ attempts this p 0 N.
Proof.
  intros Hl Hcls Hmax HN Hprep Hf f fallback.
  destruct N as [|N]; [lia|].
  subst fallback f. replace (Z.of_nat (S N) - 1)%Z with (Z.of_nat N) by lia.
  rewrite (run_Node _ _ _ _ Hl Hcls). unfold BaseNode._run. step_get Hl.
  rewrite bind_unfold, call_eq, Hprep. cbn [fst snd outcome_of].
  match goal with |- context [(Node._exec this p ≫= _) ?s] =>
    destruct (Node_exec_exhausted this o p s N e w1 Hl Hmax Hf)
      as (evs & Hex & [Hq1 Hq2 _]) end.
  rewrite bind_unfold, Hex, call_eq. cbn [world heap console trace settle_order].
  pose proof (lookup_update_obj_eq _ _ (at_retry (Z.of_nat N)) _ Hl) as Hl1.
  destruct (execFallback (hooks o) (with_curRetry (Z.of_nat N) (fields o)) p e w1)
    as [[v|e'] w2]; cbn [fst snd outcome_of].
  - step_get Hl1. rewrite call_eq.
    eexists. split; [reflexivity|]. cbn [world trace].
    by rewrite exec_calls_app, fallback_calls_app, Hq1, Hq2.
  - eexists. split; [reflexivity|]. cbn [world trace].
    by rewrite exec_calls_app, fallback_calls_app, Hq1, Hq2.
Qed.

Lemma c2_witness :
  exists st',
    _run 0 (0, 0) failing_unit = (Return (VStr "recovered"), st') /\
    fallback_calls (trace st') = [((0, 0), VNull, Error "attempt 2")].
Proof.
  destruct (c2_fallback_after_last_attempt (0, 0)
              (node_obj 2 (unit_hooks failing
                             (fun _ _ _ w => (Normal (VStr "recovered"), w))))
              failing_unit 2 VNull (Error "attempt 2") ∅
              (<["calls" := VNum 2]> (<["calls" := VNum 1]> ∅)) 0)
    as (st' & Hrun & _ & Hfb & _).
  - reflexivity.
  - reflexivity.
  - reflexivity.
  - lia.
  - reflexivity.
  - eapply af_more; [vm_compute; reflexivity|].
    apply af_last. vm_compute. reflexivity.
  - exists st'. split; [exact Hrun|exact Hfb].
Defined.

Lemma alloc_spec realm o st rl :
  heap st !! realm = Some rl ->
  alloc realm o st =
    (Return (realm, length rl), set_heap (<[realm := rl ++ [o]]> (heap st)) st) /\
  lookup_obj (<[realm := rl ++ [o]]> (heap st)) (realm, length rl) = Some o.
Proof.
  intros Hr. unfold alloc. rewrite Hr. split; [reflexivity|].
  unfold lookup_obj. cbn [fst snd].
  rewrite list_lookup_insert_eq by (eapply lookup_lt_Some; eauto).
  cbn [mbind option_bind]. rewrite lookup_app_r by lia. by rewrite Nat.sub_diag.
Qed.

(** C5, as the code has it.  [new Node(0, wait)] is accepted and yields a
    unit; a run of that unit invokes neither compute nor fallback and hands
    [null] to finalize as the compute result. *)
Theorem c5_zero_retries_accepted
    (realm : nat) (ms : Z) (h : Hooks) (st : State) (rl : Realm) (fuel : nat) :
  heap st !! realm = Some rl ->
  let f := {| params := ∅; successors := ∅; maxRetries := 0; wait := ms;
              curRetry := 0; start := None |} in
  exists this st0,
    Node.new realm 0 ms h st = (Return this, st0) /\
    lookup_obj (heap st0) this = Some (mkObj CNode f h) /\
    forall p w0,
      prep h f (world st0) = (Normal p, w0) ->
      exists st',
        _run fuel this st0 = (outcome_of (post h f p VNull w0).1, st') /\
        world st' = (post h f p VNull w0).2 /\
        trace st' = trace st0.
Proof.
  intros Hr f. unfold Node.new.
  destruct (alloc_spec realm (mkObj CNode f h) st rl Hr) as [Ha Hl].
  eexists _, _. split; [exact Ha|]. split; [exact Hl|].
  intros p w0 Hprep.
  match goal with |- context [_run fuel ?t ?s] =>
    change (lookup_obj (heap s) t = Some (mkObj CNode f h)) in Hl;
    rewrite (run_Node _ _ _ _ Hl eq_refl); set (st0 := s) in * end.
  unfold BaseNode._run. step_get Hl.
  rewrite bind_unfold, call_eq. cbn [hooks fields]. rewrite Hprep.
  cbn [fst snd outcome_of].
  match goal with |- context [(Node._exec ?t p ≫= _) ?s] =>
    rewrite (bind_return _ _ _ _ _ (Node_exec_skipped t (mkObj CNode f h) p s Hl
                                      ltac:(simpl; lia))) end.
  pose proof (lookup_update_obj_eq _ _ (at_retry 0) _ Hl) as Hl1.
  step_get Hl1. rewrite call_eq.
  eexists. split; [reflexivity|]. done.
Qed.

(** C5 as stated fails: [new Node(0)] is accepted, and a run of the unit
    returns normally without one invocation of compute. *)
Lemma c5_counterexample :
  (Node.new 0 0 0 (unit_hooks (flaky 1) (execFallback BaseNode.default_hooks))
     (init ∅)).1 = Return (0, 0) /\
  (_run 0 (0, 0) idle_unit).1 = Return VNull /\
  exec_calls (trace (_run 0 (0, 0) idle_unit).2) = [] /\
  world (_run 0 (0, 0) idle_unit).2 = ∅.
Proof. vm_compute. repeat split. Qed.

Lemma c5_witness :
  exists this st0,
    Node.new 0 0 0 (unit_hooks (flaky 1) (execFallback BaseNode.default_hooks))
      (init ∅) = (Return this, st0) /\
    exists st', _run 0 this st0 = (Return VNull, st') /\ trace st' = trace st0.
Proof.
  destruct (c5_zero_retries_accepted 0 0
              (unit_hooks (flaky 1) (execFallback BaseNode.default_hooks))
              (init ∅) [] 0 eq_refl)
    as (this & st0 & Hnew & _ & Hrun).
  exists this, st0. split; [exact Hnew|].
  destruct (Hrun VNull (world st0) eq_refl) as (st' & Hr & _ & Ht).
  exists st'. split; [exact Hr|exact Ht].
Defined.

(** ** Graph construction *)

Lemma read_successor_own realm (table : Successors) k n :
  table !! k = Some n -> read_successor realm table k = Some (NextUnit (realm, n)).
Proof. intros H. unfold read_successor. by rewrite H. Qed.


Lemma read_successor_none realm (table : Successors) k :
  table !! k = None -> inherited k = false -> read_successor realm table k = None.
Proof. intros H Hi. unfold read_successor. by rewrite H, Hi. Qed.

(** C6. Registering a successor twice under one outcome key is reported:
    the second [addSuccessor] writes the warning
    [Overwriting successor for action '...'] to the console as it
    replaces the entry made by the first. *)
Theorem c6_duplicate_successor_reported
    (this : Ref) (o : Obj) (n1 n2 : NodeId) (action : string) (st : State) :
  lookup_obj (heap st) this = Some o ->
  exists st1 st2 o2,
    BaseNode.addSuccessor this n1 action st = (Return n1, st1) /\
    BaseNode.addSuccessor this n2 action st1 = (Return n2, st2) /\
    console st2 = console st1 ++ [OverwritingSuccessor action] /\
    lookup_obj (heap st2) this = Some o2 /\
    successors (fields o2) !! action = Some n2.
Proof.
  intros Hl. unfold BaseNode.addSuccessor. step_get Hl.
  assert (exists st0,
            (if bool_decide (is_Some (read_successor this.1 (successors (fields o)) action))
             then warn (OverwritingSuccessor action) else mret ()) st
            = (Return tt, st0) /\ heap st0 = heap st)
    as (st0 & Hw0 & Hh0)
    by (destruct (bool_decide _); eexists; split; reflexivity).
  rewrite (bind_return _ _ _ _ _ Hw0).
  assert (lookup_obj (heap st0) this = Some o) as Hl0 by (by rewrite Hh0).
  destruct (modify_fields_spec this
              (fun f => with_successors (<[action := n1]> (successors f)) f) st0 o Hl0)
    as (st1 & Hm & _ & _ & _ & _ & _ & Hl1).
  rewrite (bind_return _ _ _ _ _ Hm).
  exists st1. step_get Hl1. cbn [fields successors with_successors].
  rewrite (read_successor_own _ _ _ n1) by apply lookup_insert_eq.
  rewrite bool_decide_eq_true_2 by eauto.
  rewrite bind_unfold. unfold warn at 1.
  match goal with |- context [(modify_fields this ?g ≫= _) ?s] =>
    destruct (modify_fields_spec this g s _ Hl1)
      as (st2 & Hm2 & _ & Hc2 & _ & _ & _ & Hl2) end.
  rewrite (bind_return _ _ _ _ _ Hm2).
  eexists st2, _. split; [reflexivity|]. split; [reflexivity|].
  split; [exact Hc2|]. split; [exact Hl2|]. apply lookup_insert_eq.
Qed.

Lemma c6_witness :
  exists st1 st2,
    BaseNode.addSuccessor (0, 0) 1 "success" two_node_flow = (Return 1, st1) /\
    BaseNode.addSuccessor (0, 0) 2 "success" st1 = (Return 2, st2) /\
    console st2 = console st1 ++ [OverwritingSuccessor "success"].
Proof.
  destruct (c6_duplicate_successor_reported (0, 0) start_unit
              1 2 "success" two_node_flow)
    as (st1 & st2 & o2 & H1 & H2 & Hc & _).
  - vm_compute. reflexivity.
  - exists st1, st2. split; [exact H1|]. split; [exact H2|exact Hc].
Defined.

(** ** Cloning and the realms it creates *)

Lemma structuredClone_spec r st rl :
  heap st !! r.1 = Some rl ->
  structuredClone r st =
    (Return (length (heap st), r.2), set_heap (heap st ++ [plain <$> rl]) st).
Proof. intros H. unfold structuredClone. by rewrite H. Qed.

Lemma lookup_obj_last h rl i :
  lookup_obj (h ++ [rl]) (length h, i) = rl !! i.
Proof.
  unfold lookup_obj. cbn [fst snd].
  rewrite lookup_app_r by lia. by rewrite Nat.sub_diag.
Qed.


(** A clone has no [setParams]. *)
Lemma call_setParams_plain c p st o :
  lookup_obj (heap st) c = Some o ->
  cls o = CObject ->
  call_setParams c p st =
    (Throw (TypeError "curr.setParams is not a function"), st).
Proof. intros Hl Hc. unfold call_setParams. step_get Hl. by rewrite Hc. Qed.


(** ** Routing *)

Lemma getNextNode_spec c a st o k :
  lookup_obj (heap st) c = Some o ->
  Flow.action_key a = Some k ->
  Flow.getNextNode c a st =
    match read_successor c.1 (successors (fields o)) k with
    | Some n => (Return (Some n), st)
    | None =>
        (Return None,
         if has_keys (successors (fields o))
         then mkState (world st) (heap st)
                (console st ++ [FlowEnds a (dom (successors (fields o)))])
                (trace st) (settle_order st)
         else st)
    end.
Proof.
  intros Hl Hk. unfold Flow.getNextNode. step_get Hl. cbv zeta. rewrite Hk.
  destruct (read_successor c.1 (successors (fields o)) k) as [n|] eqn:Hn.
  - rewrite bool_decide_eq_true_2 by eauto. reflexivity.
  - rewrite bool_decide_eq_false_2 by (intros [? ?]; discriminate).
    cbn [negb andb]. destruct (has_keys (successors (fields o))); reflexivity.
Qed.

Lemma action_key_string s : s <> "" -> Flow.action_key (VStr s) = Some s.
Proof.
  intros Hs. unfold Flow.action_key. cbn [truthy].
  destruct (String.eqb s "") eqn:E; [apply String.eqb_eq in E; done|reflexivity].
Qed.

Lemma action_key_falsy a : truthy a = false -> Flow.action_key a = Some "default".
Proof. intros H. unfold Flow.action_key. by rewrite H. Qed.

(** ** The orchestration of a flow with a start unit

    The loop of [_orch] and of [_orchAsync] begins with
    [curr.setParams(p)] on the clone of the start unit, a plain object:
    the call fails before any unit has run. *)

Lemma orch_loop_plain run fuel c p st o :
  lookup_obj (heap st) c = Some o ->
  cls o = CObject ->
  Flow.orch_loop run (S fuel) (Some c) p st =
    (Throw (TypeError "curr.setParams is not a function"), st).
Proof.
  intros Hl Hc. cbn [Flow.orch_loop].
  by rewrite bind_unfold, (call_setParams_plain _ _ _ _ Hl Hc).
Qed.

Lemma async_orch_loop_plain run fuel c p st o :
  lookup_obj (heap st) c = Some o ->
  cls o = CObject ->
  AsyncFlow.orch_loop run (S fuel) (Some c) p st =
    (Throw (TypeError "curr.setParams is not a function"), st).
Proof.
  intros Hl Hc. cbn [AsyncFlow.orch_loop].
  by rewrite bind_unfold, (call_setParams_plain _ _ _ _ Hl Hc).
Qed.

Section StartUnit.

Variables (this : Ref) (rl : Realm) (ofl os : Obj) (s : NodeId) (st : State).
Hypothesis Hrl : heap st !! this.1 = Some rl.
Hypothesis Hfl : rl !! this.2 = Some ofl.
Hypothesis Hstart : start (fields ofl) = Some s.
Hypothesis Hs : rl !! s = Some os.

Lemma this_lookup : lookup_obj (heap st) this = Some ofl.
Proof. unfold lookup_obj. by rewrite Hrl. Qed.

Lemma clone_lookup :
  lookup_obj (heap st ++ [plain <$> rl]) (length (heap st), s) = Some (plain os).
Proof. by rewrite lookup_obj_last, list_lookup_fmap, Hs. Qed.

Lemma orch_raises run fuel override :
  Flow._orch run (S fuel) this override st =
    (Throw (TypeError "curr.setParams is not a function"),
     set_heap (heap st ++ [plain <$> rl]) st).
Proof.
  unfold Flow._orch. pose proof this_lookup as Hl. step_get Hl. rewrite Hstart.
  cbn [Flow.clone_if Flow.clone_next]. rewrite bind_assoc.
  rewrite (bind_return _ _ _ _ _ (structuredClone_spec (this.1, s) _ _ Hrl)).
  rewrite ret_bind. cbn [fst snd].
  by apply (orch_loop_plain _ _ _ _ _ (plain os)); [apply clone_lookup|].
Qed.

Lemma orchAsync_raises fuel override :
  AsyncFlow._orchAsync (S fuel) this override st =
    (Throw (TypeError "curr.setParams is not a function"),
     set_heap (heap st ++ [plain <$> rl]) st).
Proof.
  unfold AsyncFlow._orchAsync. pose proof this_lookup as Hl. step_get Hl. rewrite Hstart.
  cbn [Flow.clone_if Flow.clone_next]. rewrite bind_assoc.
  rewrite (bind_return _ _ _ _ _ (structuredClone_spec (this.1, s) _ _ Hrl)).
  rewrite ret_bind. cbn [fst snd].
  by apply (async_orch_loop_plain _ _ _ _ _ (plain os)); [apply clone_lookup|].
Qed.

End StartUnit.

(** ** The blocking flows *)

Lemma run_unfold fuel this :
  _run (S fuel) this =
  (get_obj this ≫= fun o =>
   match cls o with
   | CBaseNode => BaseNode._run BaseNode._exec this
   | CNode => BaseNode._run Node._exec this
   | CBatchNode => BaseNode._run BatchNode._exec this
   | CAsyncNode | CAsyncBatchNode | CAsyncParallelBatchNode =>
       throw (Error "Use runAsync.")
   | CFlow | CAsyncFlow | CAsyncBatchFlow => Flow._run (_run fuel) fuel this
   | CBatchFlow => BatchFlow._run (_run fuel) fuel this
   | CObject => throw (TypeError "curr._run is not a function")
   end).
Proof. reflexivity. Qed.

Lemma run_Flow fuel this st o :
  lookup_obj (heap st) this = Some o ->
  cls o = CFlow ->
  _run (S fuel) this st = Flow._run (_run fuel) fuel this st.
Proof.
  intros Hl Hc.
  rewrite run_unfold.
  step_get Hl. by rewrite Hc.
Qed.

Lemma run_BatchFlow fuel this st o :
  lookup_obj (heap st) this = Some o ->
  cls o = CBatchFlow ->
  _run (S fuel) this st = BatchFlow._run (_run fuel) fuel this st.
Proof.
  intros Hl Hc.
  rewrite run_unfold.
  step_get Hl. by rewrite Hc.
Qed.

(** The state in which a flow leaves its caller when its orchestration
    has failed on the clone of the start unit: the realm of the flow has
    been copied, the world is as the flow's prepare left it, and nothing
    else has happened. *)
Lemma Flow_run_raises run fuel this rl ofl os s st pr w0 :
  heap st !! this.1 = Some rl ->
  rl !! this.2 = Some ofl ->
  start (fields ofl) = Some s ->
  rl !! s = Some os ->
  prep (hooks ofl) (fields ofl) (world st) = (Normal pr, w0) ->
  Flow._run run (S fuel) this st =
    (Throw (TypeError "curr.setParams is not a function"),
     mkState w0 (heap st ++ [plain <$> rl]) (console st) (trace st)
       (settle_order st)).
Proof.
  intros Hrl Hfl Hstart Hs Hprep.
  pose proof (this_lookup _ _ _ _ Hrl Hfl) as Hl.
  unfold Flow._run. step_get Hl. rewrite bind_unfold, call_eq, Hprep.
  cbn [fst snd outcome_of]. rewrite bind_unfold.
  by rewrite (orch_raises this rl ofl os s
                (mkState w0 (heap st) (console st) (trace st) (settle_order st))
                Hrl Hfl Hstart Hs).
Qed.

Lemma BatchFlow_run_raises run fuel this rl ofl os s st x rest w0 :
  heap st !! this.1 = Some rl ->
  rl !! this.2 = Some ofl ->
  start (fields ofl) = Some s ->
  rl !! s = Some os ->
  prep (hooks ofl) (fields ofl) (world st) = (Normal (VArr (x :: rest)), w0) ->
  BatchFlow._run run (S fuel) this st =
    (Throw (TypeError "curr.setParams is not a function"),
     mkState w0 (heap st ++ [plain <$> rl]) (console st) (trace st)
       (settle_order st)).
Proof.
  intros Hrl Hfl Hstart Hs Hprep.
  pose proof (this_lookup _ _ _ _ Hrl Hfl) as Hl.
  unfold BatchFlow._run. step_get Hl. rewrite bind_unfold, call_eq, Hprep.
  cbn [fst snd outcome_of truthy BatchFlow.forEach]. rewrite !bind_assoc.
  match goal with |- context [(get_obj this ≫= _) ?s0] =>
    assert (lookup_obj (heap s0) this = Some ofl) as Hl0 by exact Hl end.
  step_get Hl0. rewrite bind_assoc, bind_unfold.
  by rewrite (orch_raises this rl ofl os s
                (mkState w0 (heap st) (console st) (trace st) (settle_order st))
                Hrl Hfl Hstart Hs).
Qed.

(** C4.  The two-node flow of the claim, [new Flow(a)] with
    [a.addSuccessor(b, "success")], [a] finalizing with ["success"] and
    [b] with ["done"]: [run] raises the [TypeError] of
    [curr.setParams(p)] on the clone of the start node.  No node-run has
    been made, no compute has been invoked, and the shared context is
    empty as before: the prepare of the start node, which would have
    written to it, has not been called. *)
Theorem c4_two_node_flow_raises :
  exists st',
    run 3 (0, 2) two_node_flow =
      (Throw (TypeError "curr.setParams is not a function"), st') /\
    node_runs (trace st') = [] /\
    exec_calls (trace st') = [] /\
    world st' = ∅ /\
    length (heap st') = S (length (heap two_node_flow)).
Proof.
  eexists. split; [vm_compute; reflexivity|]. by vm_compute.
Qed.

(** ** What a run leaves untouched *)

Section Frame.

Variables (h0 : list Realm) (L : nat).

Lemma maintains_weaken {A} (m : M A) (Q Q' : A -> Prop) :
  maintains h0 L m Q -> (forall a, Q a -> Q' a) -> maintains h0 L m Q'.
Proof.
  intros Hm HQ st r st' Hk Hr. destruct (Hm st r st' Hk Hr) as [Hk' Ha].
  split; [exact Hk'|]. intros a ->. apply HQ, Ha. reflexivity.
Qed.

Lemma maintains_ret {A} (a : A) (Q : A -> Prop) :
  Q a -> maintains h0 L (mret a) Q.
Proof. intros Ha st r st' Hk [= <- <-]. split; [exact Hk|]. by intros ? [= <-]. Qed.

Lemma maintains_throw {A} e (Q : A -> Prop) : maintains h0 L (throw e) Q.
Proof. intros st r st' Hk [= <- <-]. split; [exact Hk|]. by intros ?. Qed.

Lemma maintains_diverge {A} (Q : A -> Prop) : maintains h0 L diverge Q.
Proof. intros st r st' Hk [= <- <-]. split; [exact Hk|]. by intros ?. Qed.

Lemma maintains_bind {A B} (m : M A) (k : A -> M B) Q Q' :
  maintains h0 L m Q ->
  (forall a, Q a -> maintains h0 L (k a) Q') ->
  maintains h0 L (m ≫= k) Q'.
Proof.
  intros Hm Hk st r st' Hi Hr. rewrite bind_unfold in Hr.
  destruct (m st) as [[a|e|] s1] eqn:Em;
    destruct (Hm st _ s1 Hi Em) as [Hi1 Ha].
  - exact (Hk a (Ha a eq_refl) s1 r st' Hi1 Hr).
  - injection Hr as <- <-. split; [exact Hi1|]. by intros ?.
  - injection Hr as <- <-. split; [exact Hi1|]. by intros ?.
Qed.

Lemma maintains_try_catch {A} (m : M A) (h : Exn -> M A) Q :
  maintains h0 L m Q ->
  (forall e, maintains h0 L (h e) Q) ->
  maintains h0 L (try_catch m h) Q.
Proof.
  intros Hm Hh st r st' Hi Hr. unfold try_catch in Hr.
  destruct (m st) as [[a|e|] s1] eqn:Em;
    destruct (Hm st _ s1 Hi Em) as [Hi1 Ha].
  - injection Hr as <- <-. split; [exact Hi1|exact Ha].
  - exact (Hh e s1 r st' Hi1 Hr).
  - injection Hr as <- <-. split; [exact Hi1|exact Ha].
Qed.

(** Steps that leave the heap alone. *)
Lemma maintains_heap_same {A} (m : M A) :
  (forall st r st', m st = (r, st') -> heap st' = heap st) ->
  maintains h0 L m anything.
Proof.
  intros Hm st r st' [Hlen Hk] Hr. rewrite <- (Hm _ _ _ Hr) in Hlen, Hk.
  split; [by split|done].
Qed.

Lemma maintains_call {A} (f : Effect A) : maintains h0 L (call f) anything.
Proof.
  apply maintains_heap_same. intros st r st'. rewrite call_eq. by intros [= _ <-].
Qed.

Lemma maintains_emit ev : maintains h0 L (emit ev) anything.
Proof. apply maintains_heap_same. by intros st r st' [= _ <-]. Qed.

Lemma maintains_warn w : maintains h0 L (warn w) anything.
Proof. apply maintains_heap_same. by intros st r st' [= _ <-]. Qed.

Lemma maintains_pause f : maintains h0 L (pause f) anything.
Proof.
  unfold pause. destruct (0 <? wait f)%Z;
    [apply maintains_emit|by apply maintains_ret].
Qed.

Lemma maintains_get_obj r : maintains h0 L (get_obj r) anything.
Proof.
  apply maintains_heap_same. intros st o st'. unfold get_obj.
  destruct (lookup_obj (heap st) r); by intros [= _ <-].
Qed.

(** Writing to an object of a realm at or above [L]. *)
Lemma maintains_modify_fields r f :
  L <= r.1 -> maintains h0 L (modify_fields r f) anything.
Proof.
  intros Hr st u st' [Hlen Hk]. unfold modify_fields.
  destruct (lookup_obj (heap st) r) as [o|] eqn:Hl; intros [= <- <-];
    [|by split].
  split; [|done]. apply lookup_obj_some in Hl as (rl & Hh & Ho).
  unfold keeps, update_obj, set_heap. cbn [heap]. rewrite Hh, Ho. split.
  - by rewrite length_insert.
  - intros k Hlt. rewrite list_lookup_insert_ne by lia. by apply Hk.
Qed.

(** A clone lives in a realm at or above [L]. *)
Lemma maintains_structuredClone r :
  maintains h0 L (structuredClone r) (fun c => L <= c.1).
Proof.
  intros st c st' [Hlen Hk]. unfold structuredClone.
  destruct (heap st !! r.1) as [rl|]; intros [= <- <-].
  - split.
    + unfold keeps, set_heap. cbn [heap]. split.
      * rewrite length_app. lia.
      * intros k Hlt. rewrite lookup_app_l by lia. by apply Hk.
    + intros a [= <-]. exact Hlen.
  - split; [by split|]. by intros ?.
Qed.

Lemma maintains_seq {A B} (m : M A) (k : A -> M B) Q :
  maintains h0 L m anything ->
  (forall a, maintains h0 L (k a) Q) ->
  maintains h0 L (m ≫= k) Q.
Proof. intros Hm Hk. apply (maintains_bind m k anything Q Hm). auto. Qed.

Lemma maintains_any {A} (m : M A) Q :
  maintains h0 L m Q -> maintains h0 L m anything.
Proof. intros Hm. apply (maintains_weaken m Q); [exact Hm|done]. Qed.

Ltac frame_step :=
  lazymatch goal with
  | |- maintains _ _ (get_obj _) _ => apply maintains_get_obj
  | |- maintains _ _ (call _) _ => apply maintains_call
  | |- maintains _ _ (emit _) _ => apply maintains_emit
  | |- maintains _ _ (warn _) _ => apply maintains_warn
  | |- maintains _ _ (pause _) _ => apply maintains_pause
  | |- maintains _ _ (throw _) _ => apply maintains_throw
  | |- maintains _ _ diverge _ => apply maintains_diverge
  | |- maintains _ _ (mret _) _ => apply maintains_ret; done
  | |- maintains _ _ (modify_fields _ _) _ =>
      apply maintains_modify_fields; assumption
  | |- maintains _ _ (_ ≫= _) _ => apply maintains_seq; [|intros ?]
  end.

(** *** Units *)

Lemma maintains_retry_loop fuel this p :
  L <= this.1 -> maintains h0 L (Node.retry_loop fuel this p) anything.
Proof.
  intros Hthis. induction fuel as [|fuel IH]; cbn [Node.retry_loop].
  - repeat frame_step. cbv zeta. destruct (_ <? _)%Z; repeat frame_step.
  - repeat frame_step. cbv zeta. destruct (_ <? _)%Z; [|repeat frame_step].
    apply maintains_try_catch; [repeat frame_step|].
    intros e. destruct (_ =? _)%Z; repeat frame_step. exact IH.
Qed.

Lemma maintains_Node_exec this p :
  L <= this.1 -> maintains h0 L (Node._exec this p) anything.
Proof.
  intros Hthis. unfold Node._exec. repeat frame_step.
  by apply maintains_retry_loop.
Qed.

Lemma maintains_map_exec this items :
  L <= this.1 -> maintains h0 L (BatchNode.map_exec this items) anything.
Proof.
  intros Hthis. induction items as [|item rest IH]; cbn [BatchNode.map_exec].
  - repeat frame_step.
  - repeat frame_step; [by apply maintains_Node_exec|exact IH].
Qed.

Lemma maintains_BatchNode_exec this items :
  L <= this.1 -> maintains h0 L (BatchNode._exec this items) anything.
Proof.
  intros Hthis. unfold BatchNode._exec.
  destruct (if truthy items then items else VArr []); repeat frame_step.
  by apply maintains_map_exec.
Qed.

Lemma maintains_BaseNode_exec this p :
  maintains h0 L (BaseNode._exec this p) anything.
Proof. unfold BaseNode._exec. repeat frame_step. Qed.

Lemma maintains_BaseNode_run exec_ this :
  (forall p, maintains h0 L (exec_ this p) anything) ->
  maintains h0 L (BaseNode._run exec_ this) anything.
Proof.
  intros Hex. unfold BaseNode._run. repeat frame_step. apply Hex.
Qed.

(** *** Flows *)

Lemma maintains_call_setParams c p :
  L <= c.1 -> maintains h0 L (call_setParams c p) anything.
Proof.
  intros Hc. unfold call_setParams, BaseNode.setParams.
  apply maintains_seq; [apply maintains_get_obj|intros o].
  destruct (cls o); repeat frame_step.
Qed.

Lemma maintains_getNextNode c a :
  L <= c.1 -> maintains h0 L (Flow.getNextNode c a) (above_next L).
Proof.
  intros Hc. unfold Flow.getNextNode.
  apply maintains_seq; [apply maintains_get_obj|intros o]. cbv zeta.
  destruct (Flow.action_key a) as [k|]; [|repeat frame_step].
  apply maintains_seq.
  - destruct (_ && _); repeat frame_step.
  - intros _. apply maintains_ret. unfold read_successor.
    destruct (successors (fields o) !! k); [by intros ? [= <-]|].
    by destruct (inherited k).
Qed.

Lemma maintains_clone_next nxt :
  maintains h0 L (Flow.clone_next nxt) (fun c => L <= c.1).
Proof.
  destruct nxt as [c|k]; cbn [Flow.clone_next];
    [apply maintains_structuredClone|].
  destruct (String.eqb k "__proto__"); [|repeat frame_step].
  intros st c st' [Hlen Hk] [= <- <-]. split.
  - unfold keeps, set_heap. cbn [heap]. split.
    + rewrite length_app. lia.
    + intros j Hlt. rewrite lookup_app_l by lia. by apply Hk.
  - intros a [= <-]. exact Hlen.
Qed.

Lemma maintains_clone_if curr : maintains h0 L (Flow.clone_if curr) (above L).
Proof.
  destruct curr as [c|]; cbn [Flow.clone_if].
  - apply (maintains_bind _ _ _ _ (maintains_clone_next c)).
    intros c' Hc'. apply maintains_ret. by intros n [= <-].
  - apply maintains_ret. by intros n.
Qed.

Section Orchestration.

Variable run : Ref -> M any.
Hypothesis Hrun : forall c, L <= c.1 -> maintains h0 L (run c) anything.

Lemma maintains_orch_loop fuel p :
  forall curr, above L curr ->
    maintains h0 L (Flow.orch_loop run fuel curr p) anything.
Proof.
  induction fuel as [|fuel IH]; intros [c|] Hc; cbn [Flow.orch_loop];
    try solve [repeat frame_step].
  pose proof (Hc c eq_refl) as Hc'.
  apply maintains_seq; [by apply maintains_call_setParams|intros ?].
  do 2 (apply maintains_seq; [repeat frame_step; by apply Hrun|intros ?]).
  apply (maintains_bind _ _ _ _ (maintains_getNextNode c a1 Hc')).
  intros nxt _.
  apply (maintains_bind _ _ _ _ (maintains_clone_if nxt)).
  intros nxt' Hn. by apply IH.
Qed.

Lemma maintains_orch fuel this override :
  maintains h0 L (Flow._orch run fuel this override) anything.
Proof.
  unfold Flow._orch. apply maintains_seq; [apply maintains_get_obj|intros o].
  eapply maintains_bind; [apply maintains_clone_if|].
  intros curr Hcurr. by apply maintains_orch_loop.
Qed.

Lemma maintains_Flow_run fuel this :
  maintains h0 L (Flow._run run fuel this) anything.
Proof.
  unfold Flow._run. repeat frame_step. apply maintains_orch.
Qed.

Lemma maintains_forEach fuel this pr :
  maintains h0 L (BatchFlow.forEach run fuel this pr) anything.
Proof.
  induction pr as [|bp rest IH]; cbn [BatchFlow.forEach]; repeat frame_step.
  - apply maintains_orch.
  - exact IH.
Qed.

Lemma maintains_BatchFlow_run fuel this :
  maintains h0 L (BatchFlow._run run fuel this) anything.
Proof.
  unfold BatchFlow._run.
  do 2 (apply maintains_seq; [repeat frame_step|intros ?]). cbv zeta.
  apply maintains_seq; [|intros _; repeat frame_step].
  destruct (if truthy a0 then a0 else VArr []); repeat frame_step.
  apply maintains_forEach.
Qed.

End Orchestration.

(** [this._run] writes only to the realm of [this] and to realms it
    creates. *)
Lemma maintains_run fuel :
  forall this, L <= this.1 -> maintains h0 L (_run fuel this) anything.
Proof.
  induction fuel as [|fuel IH]; intros this Hthis; cbn [_run];
    (apply maintains_seq; [apply maintains_get_obj|intros o]);
    destruct (cls o); repeat frame_step;
    try (apply maintains_BaseNode_run; intros p);
    try apply maintains_BaseNode_exec;
    try (by apply maintains_Node_exec);
    try (by apply maintains_BatchNode_exec);
    try (by apply maintains_Flow_run);
    try (by apply maintains_BatchFlow_run).
Qed.

End Frame.

Lemma keeps_refl st : keeps (heap st) (length (heap st)) st.
Proof. by split. Qed.

Lemma keeps_lookup st st' n on :
  keeps (heap st) (length (heap st)) st' ->
  lookup_obj (heap st) n = Some on ->
  lookup_obj (heap st') n = Some on.
Proof.
  intros [_ Hk] Hl. apply lookup_obj_some in Hl as (rl & Hh & Ho).
  apply lookup_obj_some. exists rl. split; [|exact Ho].
  rewrite Hk; [exact Hh|]. eapply lookup_lt_Some; eauto.
Qed.

(** [this._run] of a flow writes to no realm that existed before. *)
Lemma flow_run_keeps fuel this st ofl r st' :
  lookup_obj (heap st) this = Some ofl ->
  is_flow (cls ofl) = true ->
  _run fuel this st = (r, st') ->
  keeps (heap st) (length (heap st)) st'.
Proof.
  intros Hl Hflow Hrun.
  pose proof (keeps_refl st) as Hk.
  destruct fuel as [|fuel].
  - cbn [_run] in Hrun. revert Hrun. step_get Hl.
    destruct (cls ofl); try discriminate; by intros [= _ <-].
  - assert (forall c, length (heap st) <= c.1 ->
              maintains (heap st) (length (heap st)) (_run fuel c) anything) as Hsub
      by (intros c Hc; by apply maintains_run).
    rewrite run_unfold in Hrun. revert Hrun. step_get Hl.
    destruct (cls ofl) eqn:Hcls; try discriminate; intros Hrun.
    + by destruct (maintains_Flow_run _ _ _ Hsub fuel this st r st' Hk Hrun).
    + by destruct (maintains_BatchFlow_run _ _ _ Hsub fuel this st r st' Hk Hrun).
    + by destruct (maintains_Flow_run _ _ _ Hsub fuel this st r st' Hk Hrun).
    + by destruct (maintains_Flow_run _ _ _ Hsub fuel this st r st' Hk Hrun).
Qed.

(** The same of the public [run]. *)
Lemma flow_run_public_keeps fuel this st ofl r st' :
  lookup_obj (heap st) this = Some ofl ->
  is_flow (cls ofl) = true ->
  run fuel this st = (r, st') ->
  keeps (heap st) (length (heap st)) st'.
Proof.
  intros Hl Hflow. unfold run. step_get Hl.
  assert (forall s, (if has_keys (successors (fields ofl))
                     then warn (WontRunSuccessors "Flow") else mret ()) s
                    = (Return tt, (if has_keys (successors (fields ofl))
                                   then mkState (world s) (heap s)
                                          (console s ++ [WontRunSuccessors "Flow"])
                                          (trace s) (settle_order s)
                                   else s))) as Hw
    by (intros s; destruct (has_keys _); reflexivity).
  destruct (cls ofl) eqn:Hcls; try discriminate;
    try (intros [= _ <-]; apply keeps_refl);
    rewrite bind_unfold, Hw; intros Hrun;
    match type of Hrun with _run _ _ ?s = _ =>
      assert (heap s = heap st) as Hh by (by destruct (has_keys _));
      rewrite <- Hh;
      apply (flow_run_keeps fuel this s ofl r st');
        [by rewrite Hh|by rewrite Hcls|exact Hrun]
    end.
Qed.

Lemma has_keys_true {V} (m : gmap string V) : has_keys m = true <-> m <> ∅.
Proof.
  unfold has_keys. rewrite bool_decide_eq_true.
  split; intros H E; apply H; [by rewrite E, dom_empty_L|by apply dom_empty_iff_L].
Qed.








Import AsyncNode.

(** ** [Promise.all] over a batch *)

Section TaskAlone.
Import AsyncNode.

Lemma capture_eq {A} (f : Effect A) st :
  capture f st =
  (Return (f (world st)).1,
   mkState (f (world st)).2 (heap st) (console st) (trace st) (settle_order st)).
Proof. unfold capture. by destruct (f (world st)). Qed.

Lemma await_task_settled fuel this p c st :
  await_task fuel this p (Settled c) st = (outcome_of c, st).
Proof. destruct fuel, c; reflexivity. Qed.

(** The task of [_exec], resumed at once at each of its awaits, is the
    [for] loop of [async _exec]. *)
Lemma task_alone_is_retry_loop this o p f :
  forall i st fuel,
    lookup_obj (heap st) this = Some o ->
    (maxRetries (fields o) - i <= Z.of_nat f)%Z ->
    2 * f + 1 <= fuel ->
    (attempt this p i ≫= await_task fuel this p) st =
    AsyncNode.retry_loop f this p i st.
Proof.
  induction f as [|f IH]; intros i st fuel Hl Hmax Hfuel.
  - unfold attempt. cbn [AsyncNode.retry_loop]. rewrite bind_assoc. step_get Hl.
    step_get Hl. cbv zeta.
    assert ((i <? maxRetries (fields o))%Z = false) as -> by (apply Z.ltb_ge; lia).
    rewrite bind_unfold. unfold mret at 1, M_ret at 1.
    destruct fuel as [|fuel]; [lia|]. cbn [await_task resume].
    rewrite bind_unfold. unfold mret at 1, M_ret at 1.
    by rewrite await_task_settled.
  - unfold attempt. cbn [AsyncNode.retry_loop]. rewrite bind_assoc. step_get Hl.
    step_get Hl. cbv zeta.
    destruct (i <? maxRetries (fields o))%Z eqn:Hi.
    2: { rewrite bind_unfold. unfold mret at 1, M_ret at 1.
         destruct fuel as [|fuel]; [lia|]. cbn [await_task resume].
         rewrite bind_unfold. unfold mret at 1, M_ret at 1.
         by rewrite await_task_settled. }
    unfold try_catch.
    rewrite !bind_unfold, !emit_eq, !bind_unfold, capture_eq, call_eq.
    cbn [world heap console trace settle_order].
    destruct (execAsync (hooks o) (fields o) p (world st)) as [[v|e] w1];
      cbn [fst snd outcome_of]; unfold mret at 1, M_ret at 1.
    + destruct fuel as [|fuel]; [lia|]. cbn [await_task resume].
      rewrite bind_unfold. unfold mret at 1, M_ret at 1.
      by rewrite await_task_settled.
    + destruct fuel as [|[|fuel]]; try lia. cbn [await_task resume].
      set (st1 := mkState w1 (heap st) (console st)
                    (trace st ++ [ExecCall this i p]) (settle_order st)).
      assert (lookup_obj (heap st1) this = Some o) as Hl1 by exact Hl.
      rewrite bind_assoc. step_get Hl1. cbv zeta.
      destruct (i =? maxRetries (fields o) - 1)%Z.
      * rewrite !bind_unfold, !emit_eq, !bind_unfold, capture_eq, call_eq.
        cbn [world heap console trace settle_order].
        unfold mret at 1, M_ret at 1. cbn [await_task resume].
        rewrite bind_unfold. unfold mret at 1, M_ret at 1.
        by rewrite await_task_settled.
      * unfold pause. destruct (0 <? wait (fields o))%Z.
        -- rewrite !bind_unfold, !emit_eq. unfold mret at 1, M_ret at 1.
           cbn [await_task resume].
           rewrite <- IH with (fuel := fuel); [reflexivity|exact Hl|lia|lia].
        -- rewrite ret_bind.
           rewrite <- IH with (fuel := S fuel); [reflexivity|exact Hl|lia|lia].
Qed.

Lemma task_alone_is_exec this o p st fuel :
  lookup_obj (heap st) this = Some o ->
  2 * Z.to_nat (maxRetries (fields o)) + 1 <= fuel ->
  (attempt this p 0 ≫= await_task fuel this p) st = AsyncNode._exec this p st.
Proof.
  intros Hl Hfuel. unfold AsyncNode._exec. step_get Hl.
  apply (task_alone_is_retry_loop this o p); [exact Hl|lia|exact Hfuel].
Qed.

End TaskAlone.

Lemma pending_settle tasks k t c :
  tasks !! k = Some t -> is_settled t = false ->
  S (pending (<[k := Settled c]> tasks)) = pending tasks.
Proof.
  revert k. induction tasks as [|t0 rest IH]; intros [|k] Hk Ht; try done.
  - injection Hk as ->. cbn [pending list_insert insert is_settled]. by rewrite Ht.
  - cbn [lookup list_lookup] in Hk. simpl. rewrite <- (IH k Hk Ht). lia.
Qed.

Lemma pending_zero tasks k t :
  pending tasks = 0 -> tasks !! k = Some t -> is_settled t = true.
Proof.
  revert k. induction tasks as [|t0 rest IH]; intros [|k] H0 Hk; try done.
  - injection Hk as ->. simpl in H0. destruct (is_settled t); [done|lia].
  - simpl in H0. apply (IH k); [lia|exact Hk].
Qed.

Lemma pending_pos tasks :
  0 < pending tasks -> exists k t, tasks !! k = Some t /\ is_settled t = false.
Proof.
  induction tasks as [|t0 rest IH]; simpl; [lia|].
  destruct (is_settled t0) eqn:E.
  - intros H. destruct IH as (k & t & Hk & Ht); [lia|]. by exists (S k), t.
  - intros _. by exists 0, t0.
Qed.

Lemma pending_fresh {A} (g : A -> Completion any) (l : list A) :
  pending ((fun x => Attempting 0 (g x)) <$> l) = length l.
Proof.
  induction l as [|x l IH]; [done|].
  rewrite fmap_cons. cbn [pending is_settled length]. by rewrite IH.
Qed.

Section ParallelBatch.

Variables (this : Ref) (o : Obj) (f : any -> any) (items : list any).

(** Compute returns [f item] on its first invocation. *)
Hypothesis Hcompute :
  forall fl x w, exists w', execAsync (hooks o) fl x w = (Normal (f x), w').
Hypothesis Hretries : (1 <= maxRetries (fields o))%Z.

Lemma attempt_first x st :
  lookup_obj (heap st) this = Some o ->
  exists st',
    attempt this x 0 st = (Return (Attempting 0 (Normal (f x))), st') /\
    heap st' = heap st /\ settle_order st' = settle_order st.
Proof.
  intros Hl. unfold attempt. step_get Hl. cbv zeta.
  assert ((0 <? maxRetries (fields o))%Z = true) as -> by (apply Z.ltb_lt; lia).
  rewrite bind_unfold, emit_eq, bind_unfold. unfold capture.
  cbn [world heap console trace settle_order].
  destruct (Hcompute (fields o) x (world st)) as (w' & ->).
  eexists. split; [reflexivity|]. done.
Qed.

Lemma spawn_first l :
  forall st,
    lookup_obj (heap st) this = Some o ->
    exists st',
      PromiseAll.spawn this l st =
        (Return ((fun x => Attempting 0 (Normal (f x))) <$> l), st') /\
      heap st' = heap st /\ settle_order st' = settle_order st.
Proof.
  induction l as [|x l IH]; intros st Hl; cbn [PromiseAll.spawn].
  - by exists st.
  - destruct (attempt_first x st Hl) as (st1 & Ha & Hh1 & Hs1).
    rewrite (bind_return _ _ _ _ _ Ha).
    destruct (IH st1) as (st2 & Hsp & Hh2 & Hs2); [by rewrite Hh1|].
    rewrite (bind_return _ _ _ _ _ Hsp).
    exists st2. split; [reflexivity|]. split; congruence.
Qed.

Lemma collecting_done tasks values :
  collecting f items tasks values 0 -> values = f <$> items.
Proof.
  intros [Ht Hv He Hr]. apply list_eq. intros k. rewrite list_lookup_fmap.
  destruct (items !! k) as [x|] eqn:Hx; cbn [fmap option_fmap option_map].
  - destruct (He k x Hx) as [Hk|[_ Hk]]; [|exact Hk].
    by pose proof (pending_zero tasks k _ (eq_sym Hr) Hk).
  - apply lookup_ge_None. apply lookup_ge_None in Hx. lia.
Qed.

Lemma drive_collects sched :
  forall tasks values remaining st,
    collecting f items tasks values remaining ->
    (forall k t, tasks !! k = Some t -> is_settled t = false -> k ∈ sched) ->
    PromiseAll.drive sched this items tasks values remaining st =
      (Return (f <$> items), st).
Proof.
  induction sched as [|j sched IH]; intros tasks values remaining st Hc Hs.
  - destruct remaining as [|r].
    + cbn [PromiseAll.drive]. by rewrite (collecting_done _ _ Hc).
    + destruct (pending_pos tasks) as (k & t & Hk & Ht).
      { rewrite <- (col_remaining _ _ _ _ _ Hc). lia. }
      pose proof (Hs k t Hk Ht) as Hin. by apply elem_of_nil in Hin.
  - destruct remaining as [|r].
    { cbn [PromiseAll.drive]. by rewrite (collecting_done _ _ Hc). }
    cbn [PromiseAll.drive].
    destruct (tasks !! j) as [t|] eqn:Hj.
    2: { apply IH; [exact Hc|]. intros k t Hk Ht.
         pose proof (Hs k t Hk Ht) as Hin.
         apply elem_of_cons in Hin as [->|Hin]; [congruence|done]. }
    destruct (items !! j) as [x|] eqn:Hx.
    2: { apply lookup_ge_None in Hx. apply lookup_lt_Some in Hj.
         rewrite (col_tasks _ _ _ _ _ Hc) in Hj. lia. }
    destruct (is_settled t) eqn:Ht.
    { apply IH; [exact Hc|]. intros k t' Hk Ht'.
      pose proof (Hs k t' Hk Ht') as Hin.
      apply elem_of_cons in Hin as [->|Hin]; [congruence|done]. }
    destruct (col_each _ _ _ _ _ Hc j x Hx) as [Hk|[Hk _]];
      rewrite Hj in Hk; injection Hk as ->; [|discriminate].
    cbn [resume]. rewrite bind_unfold. unfold mret at 1, M_ret at 1.
    apply IH.
    + destruct Hc as [Hlt Hlv He Hr]. split.
      * by rewrite length_insert.
      * by rewrite length_insert.
      * intros k y Hy. destruct (decide (k = j)) as [->|Hne].
        -- right. rewrite Hx in Hy. injection Hy as <-.
           rewrite !list_lookup_insert_eq; [done| |].
           ++ rewrite Hlv. eapply lookup_lt_Some; eauto.
           ++ rewrite Hlt. eapply lookup_lt_Some; eauto.
        -- rewrite !list_lookup_insert_ne by done. by apply He.
      * pose proof (pending_settle tasks j _ (Normal (f x)) Hj Ht). lia.
    + intros k t' Hk Ht'. destruct (decide (k = j)) as [->|Hne].
      * rewrite list_lookup_insert_eq in Hk by (eapply lookup_lt_Some; eauto).
        by injection Hk as <-.
      * rewrite list_lookup_insert_ne in Hk by done.
        pose proof (Hs k t' Hk Ht') as Hin.
        apply elem_of_cons in Hin as [->|Hin]; done.
Qed.

Lemma all_collects st sched rest :
  lookup_obj (heap st) this = Some o ->
  settle_order st = sched :: rest ->
  (forall k, k < length items -> k ∈ sched) ->
  exists st',
    PromiseAll.all this items st = (Return (f <$> items), st') /\
    heap st' = heap st /\ settle_order st' = rest.
Proof.
  intros Hl Hso Hsched. unfold PromiseAll.all.
  destruct (spawn_first items st Hl) as (st1 & Hsp & Hh1 & Hs1).
  rewrite (bind_return _ _ _ _ _ Hsp).
  rewrite bind_unfold. unfold PromiseAll.next_schedule at 1. rewrite Hs1, Hso.
  rewrite drive_collects.
  - eexists. split; [reflexivity|]. done.
  - split.
    + by rewrite length_fmap.
    + by rewrite length_replicate.
    + intros k x Hx. left. by rewrite list_lookup_fmap, Hx.
    + by rewrite pending_fresh.
  - intros k t Hk _. apply Hsched. apply lookup_lt_Some in Hk.
    by rewrite length_fmap in Hk.
Qed.

End ParallelBatch.

(** C9. A parallel batch-of-unit over [items] returns [f item] for every
    item, at the index of the item, in whatever order the host lets the
    items complete: for every schedule that lets each of them complete. *)
Theorem c9_parallel_results_by_input_index
    (this : Ref) (o : Obj) (f : any -> any) (x y z : any)
    (sched : list nat) (rest : list (list nat)) (st : State) :
  lookup_obj (heap st) this = Some o ->
  (1 <= maxRetries (fields o))%Z ->
  (forall fl item w, exists w',
      execAsync (hooks o) fl item w = (Normal (f item), w')) ->
  settle_order st = sched :: rest ->
  0 ∈ sched -> 1 ∈ sched -> 2 ∈ sched ->
  exists st',
    AsyncParallelBatchNode._exec this (VArr [x; y; z]) st =
      (Return (VArr [f x; f y; f z]), st').
Proof.
  intros Hl Hmax Hf Hso H0 H1 H2. unfold AsyncParallelBatchNode._exec.
  cbn [truthy].
  destruct (all_collects this o f [x; y; z] Hf Hmax st sched rest Hl Hso)
    as (st' & Hall & _).
  { intros [|[|[|k]]] Hk; simpl in Hk; try done; lia. }
  rewrite (bind_return _ _ _ _ _ Hall). by eexists.
Qed.

Lemma c9_witness :
  exists st',
    AsyncParallelBatchNode._exec (0, 0) (VArr [VNum 1; VNum 2; VNum 3])
      parallel_unit =
    (Return (VArr [VArr [VNum 1]; VArr [VNum 2]; VArr [VNum 3]]), st').
Proof.
  apply (c9_parallel_results_by_input_index (0, 0)
           (mkObj CAsyncParallelBatchNode
              {| params := ∅; successors := ∅; maxRetries := 1; wait := 0;
                 curRetry := 0; start := None |} wrap_hooks)
           (fun x => VArr [x]) (VNum 1) (VNum 2) (VNum 3) [1; 0; 2] []).
  - reflexivity.
  - simpl. lia.
  - intros. eexists. reflexivity.
  - reflexivity.
  - set_solver.
  - set_solver.
  - set_solver.
Defined.

(** ** The promise-based flow *)

Lemma async_orch_loop_eq run fuel :
  forall curr p st,
    AsyncFlow.orch_loop run fuel curr p st =
    Flow.orch_loop (run_or_await run) fuel curr p st.
Proof.
  induction fuel as [|fuel IH]; intros [c|] p st; try reflexivity.
  cbn [AsyncFlow.orch_loop Flow.orch_loop].
  apply bind_ext; intros _ s1. apply bind_ext; intros _ s2.
  unfold run_or_await. rewrite bind_assoc.
  apply bind_ext; intros o s3. apply bind_ext; intros a s4.
  apply bind_ext; intros nxt s5. apply bind_ext; intros nxt' s6. apply IH.
Qed.

Lemma orchAsync_eq fuel this override st :
  AsyncFlow._orchAsync fuel this override st =
  Flow._orch (run_or_await (_run fuel)) fuel this override st.
Proof.
  unfold AsyncFlow._orchAsync, Flow._orch.
  apply bind_ext; intros o s1. apply bind_ext; intros curr s2.
  apply async_orch_loop_eq.
Qed.

Lemma for_of_eq fuel this pr :
  forall st,
    AsyncBatchFlow.for_of fuel this pr st =
    BatchFlow.forEach (run_or_await (_run fuel)) fuel this pr st.
Proof.
  induction pr as [|bp rest IH]; intros st; [reflexivity|].
  cbn [AsyncBatchFlow.for_of BatchFlow.forEach].
  apply bind_ext; intros o s1. rewrite !bind_unfold, orchAsync_eq.
  destruct (Flow._orch _ _ _ _ s1) as [[[]|e|] s2]; auto.
Qed.

Ltac frame_step_closed :=
  lazymatch goal with
  | |- maintains _ _ (get_obj _) _ => apply maintains_get_obj
  | |- maintains _ _ (call _) _ => apply maintains_call
  | |- maintains _ _ (emit _) _ => apply maintains_emit
  | |- maintains _ _ (warn _) _ => apply maintains_warn
  | |- maintains _ _ (pause _) _ => apply maintains_pause
  | |- maintains _ _ (throw _) _ => apply maintains_throw
  | |- maintains _ _ diverge _ => apply maintains_diverge
  | |- maintains _ _ (mret _) _ => apply maintains_ret; done
  | |- maintains _ _ (modify_fields _ _) _ =>
      apply maintains_modify_fields; assumption
  | |- maintains _ _ (_ ≫= _) _ => apply maintains_seq; [|intros ?]
  end.

Section FrameAsync.

Variables (h0 : list Realm) (L : nat).

Lemma maintains_ext {A} (m m' : M A) Q :
  (forall st, m st = m' st) -> maintains h0 L m' Q -> maintains h0 L m Q.
Proof. intros E Hm st r st' Hk Hr. rewrite E in Hr. by apply (Hm st). Qed.

Lemma maintains_capture {A} (f : Effect A) :
  maintains h0 L (AsyncNode.capture f) anything.
Proof.
  apply maintains_heap_same. intros st r st'. unfold AsyncNode.capture.
  destruct (f (world st)). by intros [= _ <-].
Qed.

Lemma maintains_async_retry_loop fuel this p :
  forall i, maintains h0 L (AsyncNode.retry_loop fuel this p i) anything.
Proof.
  induction fuel as [|fuel IH]; intros i; cbn [AsyncNode.retry_loop].
  - repeat frame_step_closed. cbv zeta. destruct (_ <? _)%Z; repeat frame_step_closed.
  - repeat frame_step_closed. cbv zeta. destruct (_ <? _)%Z; [|repeat frame_step_closed].
    apply maintains_try_catch; [repeat frame_step_closed|].
    intros e. destruct (_ =? _)%Z; repeat frame_step_closed. apply IH.
Qed.

Lemma maintains_AsyncNode_exec this p :
  maintains h0 L (AsyncNode._exec this p) anything.
Proof.
  unfold AsyncNode._exec. repeat frame_step_closed. apply maintains_async_retry_loop.
Qed.

Lemma maintains_attempt this p i :
  maintains h0 L (AsyncNode.attempt this p i) anything.
Proof.
  unfold AsyncNode.attempt. repeat frame_step_closed. cbv zeta.
  destruct (_ <? _)%Z; repeat frame_step_closed. apply maintains_capture.
Qed.

Lemma maintains_resume this p t :
  maintains h0 L (AsyncNode.resume this p t) anything.
Proof.
  destruct t as [i [v|e]|i|c|c]; cbn [AsyncNode.resume]; repeat frame_step_closed;
    try apply maintains_attempt.
  cbv zeta. destruct (_ =? _)%Z; [repeat frame_step_closed; apply maintains_capture|].
  destruct (_ <? _)%Z; repeat frame_step_closed. apply maintains_attempt.
Qed.

Lemma maintains_spawn this items :
  maintains h0 L (PromiseAll.spawn this items) anything.
Proof.
  induction items as [|x l IH]; cbn [PromiseAll.spawn]; repeat frame_step_closed;
    [apply maintains_attempt|exact IH].
Qed.

Lemma maintains_drive sched this items :
  forall tasks values remaining,
    maintains h0 L (PromiseAll.drive sched this items tasks values remaining)
      anything.
Proof.
  induction sched as [|k sched IH]; intros tasks values [|r];
    cbn [PromiseAll.drive]; repeat frame_step_closed.
  destruct (tasks !! k) as [t|]; [|apply IH].
  destruct (items !! k) as [x|]; [|apply IH].
  destruct (AsyncNode.is_settled t); [apply IH|].
  apply maintains_seq; [apply maintains_resume|intros t'].
  destruct t' as [| | |[v|e]]; repeat frame_step_closed; apply IH.
Qed.

Lemma maintains_all this items :
  maintains h0 L (PromiseAll.all this items) anything.
Proof.
  unfold PromiseAll.all.
  apply maintains_seq; [apply maintains_spawn|intros tasks].
  apply maintains_seq; [|intros sched; apply maintains_drive].
  apply maintains_heap_same. intros st r st'. unfold PromiseAll.next_schedule.
  destruct (settle_order st); by intros [= _ <-].
Qed.

Lemma maintains_node_runAsync this :
  maintains h0 L (node_runAsync this) anything.
Proof.
  unfold node_runAsync. apply maintains_seq; [apply maintains_get_obj|intros o].
  destruct (cls o); repeat frame_step_closed; unfold AsyncNode._runAsync;
    repeat frame_step_closed.
  - apply maintains_AsyncNode_exec.
  - unfold AsyncBatchNode._exec.
    destruct (if truthy a0 then a0 else VArr []); repeat frame_step_closed.
    apply maintains_all.
  - unfold AsyncParallelBatchNode._exec.
    destruct (if truthy a0 then a0 else VArr []); repeat frame_step_closed.
    apply maintains_all.
Qed.

Lemma maintains_run_or_await run c :
  maintains h0 L (run c) anything ->
  maintains h0 L (run_or_await run c) anything.
Proof.
  intros Hrun. unfold run_or_await. repeat frame_step_closed.
  destruct (is_async_node _); [apply maintains_node_runAsync|exact Hrun].
Qed.

Lemma maintains_orchAsync fuel this override :
  maintains h0 L (AsyncFlow._orchAsync fuel this override) anything.
Proof.
  apply (maintains_ext _ _ _ (orchAsync_eq fuel this override)).
  apply maintains_orch. intros c Hc. apply maintains_run_or_await.
  by apply maintains_run.
Qed.

Lemma maintains_AsyncFlow_runAsync fuel this :
  maintains h0 L (AsyncFlow._runAsync fuel this) anything.
Proof.
  unfold AsyncFlow._runAsync. repeat frame_step_closed. apply maintains_orchAsync.
Qed.

Lemma maintains_for_of fuel this pr :
  maintains h0 L (AsyncBatchFlow.for_of fuel this pr) anything.
Proof.
  induction pr as [|bp rest IH]; cbn [AsyncBatchFlow.for_of]; repeat frame_step_closed;
    [apply maintains_orchAsync|exact IH].
Qed.

Lemma maintains_AsyncBatchFlow_runAsync fuel this :
  maintains h0 L (AsyncBatchFlow._runAsync fuel this) anything.
Proof.
  unfold AsyncBatchFlow._runAsync.
  do 2 (apply maintains_seq; [repeat frame_step_closed|intros ?]). cbv zeta.
  apply maintains_seq; [|intros _; repeat frame_step_closed].
  destruct (AsyncBatchFlow.iterate _); repeat frame_step_closed.
  apply maintains_for_of.
Qed.

End FrameAsync.

Lemma flow_runAsync_keeps fuel this st ofl r st' :
  lookup_obj (heap st) this = Some ofl ->
  is_flow (cls ofl) = true ->
  runAsync fuel this st = (r, st') ->
  keeps (heap st) (length (heap st)) st'.
Proof.
  intros Hl Hflow. unfold runAsync. step_get Hl.
  pose proof (keeps_refl st) as Hk.
  destruct (cls ofl) eqn:Hcls; try discriminate; intros Hrun.
  - by injection Hrun as _ <-.
  - by injection Hrun as _ <-.
  - by destruct (maintains_AsyncFlow_runAsync _ _ fuel this st r st' Hk Hrun).
  - by destruct (maintains_AsyncBatchFlow_runAsync _ _ fuel this st r st' Hk Hrun).
Qed.

(** ** Batches of flows, and what a run leaves untouched *)

(** C8.  The sequential batch of the claim, a two-node flow over the
    items [[x; y; z]]: the blocking [BatchFlow] and the promise-based
    [AsyncBatchFlow] both raise the [TypeError] of [curr.setParams(p)] on
    the clone made for the first item.  No node-run has been made and no
    unit has been called; one clone has been made, so the items after
    the first have not been started. *)
Theorem c8_batch_of_flow_raises_at_first_item :
  (exists st',
     run 3 (0, 2) batch_flows =
       (Throw (TypeError "curr.setParams is not a function"), st') /\
     node_runs (trace st') = [] /\ exec_calls (trace st') = [] /\
     world st' = ∅ /\
     length (heap st') = S (length (heap batch_flows))) /\
  (exists st',
     runAsync 3 (0, 3) batch_flows =
       (Throw (TypeError "curr.setParams is not a function"), st') /\
     node_runs (trace st') = [] /\ exec_calls (trace st') = [] /\
     world st' = ∅ /\
     length (heap st') = S (length (heap batch_flows))).
Proof.
  split; (eexists; split; [vm_compute; reflexivity|by vm_compute]).
Qed.


(** C10. Running a flow leaves the registered graph as it was: every
    object that existed before the run, the start node and every node
    reachable from it among them, has the same params and the same
    successor table after the run, whatever the outcome of the run.  The
    orchestration writes to clones only.  This holds of [run] and of
    [runAsync]. *)
Theorem c10_run_keeps_registered_graph
    (fuel : nat) (this : Ref) (st : State) (ofl : Obj)
    (r : Outcome any) (st' : State) :
  lookup_obj (heap st) this = Some ofl ->
  is_flow (cls ofl) = true ->
  run fuel this st = (r, st') \/ runAsync fuel this st = (r, st') ->
  forall n on,
    lookup_obj (heap st) n = Some on ->
    lookup_obj (heap st') n = Some on /\
    (forall o', lookup_obj (heap st') n = Some o' ->
       params (fields o') = params (fields on) /\
       successors (fields o') = successors (fields on)).
Proof.
  intros Hl Hflow Hrun n on Hn.
  assert (lookup_obj (heap st') n = Some on) as Hn'.
  { eapply keeps_lookup; [|exact Hn]. destruct Hrun as [Hrun|Hrun].
    - by apply (flow_run_public_keeps fuel this st ofl r st').
    - by apply (flow_runAsync_keeps fuel this st ofl r st'). }
  split; [exact Hn'|]. intros o' Ho'. rewrite Hn' in Ho'. by injection Ho' as <-.
Qed.

Lemma c10_witness :
  lookup_obj (heap (run 3 (0, 2) two_node_flow).2) (0, 0) = Some start_unit /\
  lookup_obj (heap (run 3 (0, 2) two_node_flow).2) (0, 1) =
    Some (node_obj 1 (step_hooks "done")).
Proof.
  assert (lookup_obj (heap two_node_flow) (0, 2) =
            Some (flow_obj CFlow ∅ Flow.default_hooks)) as Hl
    by (vm_compute; reflexivity).
  pose proof (c10_run_keeps_registered_graph 3 (0, 2) two_node_flow _
                (run 3 (0, 2) two_node_flow).1 (run 3 (0, 2) two_node_flow).2
                Hl eq_refl (or_introl (surjective_pairing _))) as Hkeep.
  split.
  - apply (Hkeep (0, 0)). vm_compute. reflexivity.
  - apply (Hkeep (0, 1)). vm_compute. reflexivity.
Defined.

(** * Further properties of the engine *)

(** ** Graph construction *)

Lemma warn_eq w st :
  warn w st =
  (Return tt, mkState (world st) (heap st) (console st ++ [w]) (trace st) (settle_order st)).
Proof. reflexivity. Qed.

Lemma addSuccessor_spec this o node k st :
  lookup_obj (heap st) this = Some o ->
  BaseNode.addSuccessor this node k st =
    (Return node,
     mkState (world st)
       (update_obj (heap st) this
          (fun o => mkObj (cls o)
                      (with_successors (<[k := node]> (successors (fields o))) (fields o))
                      (hooks o)))
       (console st ++
        (if bool_decide (is_Some (read_successor this.1 (successors (fields o)) k))
         then [OverwritingSuccessor k] else []))
       (trace st) (settle_order st)).
Proof.
  intros Hl. unfold BaseNode.addSuccessor. step_get Hl.
  destruct (bool_decide (is_Some (read_successor this.1 (successors (fields o)) k))).
  - rewrite (bind_return _ _ _ _ _ (warn_eq _ _)).
    match goal with |- context [(modify_fields ?r ?f ≫= ?k) ?s] =>
      assert (lookup_obj (heap s) r = Some o) as Hl' by exact Hl end.
    step_modify Hl'. reflexivity.
  - rewrite ret_bind. step_modify Hl.
    unfold set_heap. by rewrite app_nil_r.
Qed.

(** X1.  An edge registered with [then] is the one taken when the finalize
    result is falsy or ["default"]. *)
Theorem then_edge_taken_by_default
    (this : Ref) (o : Obj) (node : NodeId) (a : any) (st : State) :
  lookup_obj (heap st) this = Some o ->
  truthy a = false \/ a = VStr "default" ->
  exists st1 o1,
    BaseNode.then_ this node st = (Return node, st1) /\
    lookup_obj (heap st1) this = Some o1 /\
    successors (fields o1) = <["default" := node]> (successors (fields o)) /\
    params (fields o1) = params (fields o) /\
    Flow.getNextNode this a st1 = (Return (Some (NextUnit (this.1, node))), st1).
Proof.
  intros Hl Ha. unfold BaseNode.then_.
  rewrite (addSuccessor_spec _ _ _ _ _ Hl).
  eexists _, _. split; [reflexivity|].
  cbn [heap].
  pose proof (lookup_update_obj_eq (heap st) this
    (fun o => mkObj (cls o)
       (with_successors (<["default" := node]> (successors (fields o))) (fields o))
       (hooks o)) o Hl) as Hl1.
  split; [exact Hl1|]. split; [reflexivity|]. split; [reflexivity|].
  assert (Flow.action_key a = Some "default") as Hk.
  { destruct Ha as [Ha| ->]; [by apply action_key_falsy|reflexivity]. }
  match goal with |- Flow.getNextNode _ _ ?s = _ =>
    rewrite (getNextNode_spec this a s _ _ Hl1 Hk) end.
  cbn [fields successors with_successors].
  by rewrite (read_successor_own _ _ _ node) by apply lookup_insert_eq.
Qed.

Lemma then_edge_taken_by_default_witness :
  exists st1,
    BaseNode.then_ (0, 0) 1 two_node_flow = (Return 1, st1) /\
    Flow.getNextNode (0, 0) VNull st1 = (Return (Some (NextUnit (0, 1))), st1).
Proof.
  destruct (then_edge_taken_by_default (0, 0) start_unit 1 VNull two_node_flow)
    as (st1 & o1 & H1 & _ & _ & _ & H2).
  - vm_compute. reflexivity.
  - left. reflexivity.
  - exists st1. split; [exact H1|exact H2].
Defined.

(** X2.  [a.withAction(k).then(node)] registers [node] under the key [k]
    beside the entries the table has, and a finalize result [k] then
    selects [node].  The registration is silent when [k] is neither a
    key of the table nor a name that every object inherits
    ([constructor], [toString], ...); otherwise it is reported as an
    overwriting.  Anything but a string is refused with a [TypeError] and
    nothing is registered. *)
Theorem withAction_then_registers_edge
    (this : Ref) (o : Obj) (node : NodeId) (action : any) (st : State) :
  lookup_obj (heap st) this = Some o ->
  let chain := t ← withAction this action; ConditionalTransition.then_ t node in
  match action with
  | VStr k =>
      exists st1 o1,
        chain st = (Return node, st1) /\
        lookup_obj (heap st1) this = Some o1 /\
        successors (fields o1) = <[k := node]> (successors (fields o)) /\
        (successors (fields o) !! k = None -> inherited k = false ->
         console st1 = console st) /\
        (is_Some (successors (fields o) !! k) \/ inherited k = true ->
         console st1 = console st ++ [OverwritingSuccessor k]) /\
        (k <> "" ->
         Flow.getNextNode this (VStr k) st1 =
           (Return (Some (NextUnit (this.1, node))), st1))
  | _ => chain st = (Throw (TypeError "Action must be a string"), st)
  end.
Proof.
  intros Hl chain. subst chain. destruct action as [| |b|n|k|l|m]; try reflexivity.
  unfold withAction. rewrite ret_bind.
  unfold ConditionalTransition.then_, ConditionalTransition.new. cbn [fst snd].
  rewrite (addSuccessor_spec _ _ _ _ _ Hl).
  pose proof (lookup_update_obj_eq (heap st) this
    (fun o => mkObj (cls o)
       (with_successors (<[k := node]> (successors (fields o))) (fields o))
       (hooks o)) o Hl) as Hl1.
  eexists _, _. split; [reflexivity|]. cbn [heap console].
  split; [exact Hl1|]. split; [reflexivity|]. split; [|split].
  - intros Hk Hi. rewrite (read_successor_none _ _ _ Hk Hi).
    rewrite bool_decide_eq_false_2 by (intros [? ?]; discriminate).
    by rewrite app_nil_r.
  - intros Hk. rewrite bool_decide_eq_true_2; [done|].
    unfold read_successor.
    destruct (successors (fields o) !! k) as [n|] eqn:E; [by eexists|].
    destruct Hk as [[? ?]|Hi]; [discriminate|]. rewrite Hi. by eexists.
  - intros Hne.
    match goal with |- Flow.getNextNode _ _ ?s = _ =>
      rewrite (getNextNode_spec this (VStr k) s _ _ Hl1 (action_key_string k Hne)) end.
    cbn [fields successors with_successors].
    by rewrite (read_successor_own _ _ _ node) by apply lookup_insert_eq.
Qed.

Lemma withAction_then_registers_edge_witness :
  (exists st1,
     (t ← withAction (0, 1) (VStr "again"); ConditionalTransition.then_ t 0)
       two_node_flow = (Return 0, st1) /\
     console st1 = [] /\
     Flow.getNextNode (0, 1) (VStr "again") st1 =
       (Return (Some (NextUnit (0, 0))), st1)) /\
  (exists st1,
     (t ← withAction (0, 1) (VStr "constructor"); ConditionalTransition.then_ t 0)
       two_node_flow = (Return 0, st1) /\
     console st1 = [OverwritingSuccessor "constructor"]) /\
  (t ← withAction (0, 1) (VNum 7); ConditionalTransition.then_ t 0) two_node_flow =
    (Throw (TypeError "Action must be a string"), two_node_flow).
Proof.
  assert (lookup_obj (heap two_node_flow) (0, 1) =
            Some (node_obj 1 (step_hooks "done"))) as Hl by (vm_compute; reflexivity).
  split; [|split].
  - destruct (withAction_then_registers_edge (0, 1) _ 0 (VStr "again") two_node_flow Hl)
      as (st1 & o1 & H1 & _ & _ & Hc & _ & Hn).
    exists st1. split; [exact H1|]. split.
    + rewrite Hc; reflexivity.
    + apply Hn. discriminate.
  - destruct (withAction_then_registers_edge (0, 1) _ 0 (VStr "constructor")
                two_node_flow Hl)
      as (st1 & o1 & H1 & _ & _ & _ & Hc & _).
    exists st1. split; [exact H1|]. rewrite Hc; [reflexivity|]. right. reflexivity.
  - exact (withAction_then_registers_edge (0, 1) _ 0 (VNum 7) two_node_flow Hl).
Defined.

(** X3.  [run] of a unit that has successors reports that they will not be
    run and runs the unit alone: the result is the unit's own finalize
    result, compute is invoked on this unit only, no orchestration step
    and no clone is made. *)
Theorem run_of_unit_leaves_successors
    (this : Ref) (o : Obj) (k : any) (st : State) (fuel : nat) :
  lookup_obj (heap st) this = Some o ->
  finalizes o k ->
  successors (fields o) <> ∅ ->
  exists st',
    run fuel this st = (Return k, st') /\
    console st' = console st ++ [WontRunSuccessors "Flow"] /\
    node_runs (trace st') = node_runs (trace st) /\
    length (heap st') = length (heap st) /\
    (forall c, c ∈ exec_calls (trace st') ->
       c ∈ exec_calls (trace st) \/ c.1.1 = this).
Proof.
  intros Hl Hf Hne. pose proof (fin_class _ _ Hf) as Hcls.
  destruct Hf as [_ Hprep Hexec Hpost].
  unfold run. step_get Hl. rewrite Hcls.
  apply has_keys_true in Hne. rewrite Hne.
  rewrite (bind_return _ _ _ _ _ (warn_eq _ _)).
  match goal with |- context [_run fuel this ?s] => set (s0 := s) end.
  assert (lookup_obj (heap s0) this = Some o) as Hl0 by exact Hl.
  rewrite (run_Node _ _ _ _ Hl0 Hcls). unfold BaseNode._run. step_get Hl0.
  destruct (Hprep (fields o) (world s0)) as (p & w0 & Hp).
  rewrite bind_unfold, call_eq, Hp. cbn [fst snd outcome_of].
  match goal with |- context [(Node._exec this p ≫= _) ?s] => set (s1 := s) end.
  assert (lookup_obj (heap s1) this = Some o) as Hl1 by exact Hl.
  assert (exists evs v w1,
            Node._exec this p s1 =
              (Return v,
               mkState w1 (update_obj (heap st) this (at_retry 0))
                 (console st ++ [WontRunSuccessors "Flow"])
                 (trace st ++ evs) (settle_order st)) /\
            node_runs evs = [] /\
            (forall c, c ∈ exec_calls evs -> c.1.1 = this))
    as (evs & v & w1 & Hex & Hq & Hc).
  { destruct (0 <? maxRetries (fields o))%Z eqn:Hm.
    - apply Z.ltb_lt in Hm.
      destruct (Hexec (with_curRetry 0 (fields o)) p w0) as (v & w1 & Hv).
      destruct (Node_exec_succeeds this o p s1 0 v w1 Hl1) as (evs & Hex & [Hq1 _ Hq]).
      { exact Hm. }
      { apply fts_succeeds. exact Hv. }
      exists evs, v, w1. split; [exact Hex|]. split; [exact Hq|].
      intros c Hin. rewrite Hq1 in Hin. cbn [attempts] in Hin.
      apply list_elem_of_singleton in Hin. by subst c.
    - apply Z.ltb_ge in Hm. exists [], VNull, w0. split; [|split; [done|]].
      + rewrite (Node_exec_skipped this o p s1 Hl1 Hm).
        unfold set_heap, s1, s0. cbn [world heap console trace settle_order].
        by rewrite app_nil_r.
      + intros c Hin. by apply elem_of_nil in Hin. }
  rewrite (bind_return _ _ _ _ _ Hex).
  pose proof (lookup_update_obj_eq _ _ (at_retry 0) _ Hl) as Hl2.
  step_get Hl2. rewrite call_eq. cbn [world heap console trace settle_order].
  cbn [hooks fields at_retry].
  match goal with |- context [post (hooks o) ?f ?p ?v ?w] =>
    destruct (Hpost f p v w) as (w2 & Hw2); rewrite Hw2 end.
  cbn [fst snd outcome_of].
  eexists. split; [reflexivity|]. cbn [console trace heap].
  split; [done|]. split; [by rewrite node_runs_app, Hq, app_nil_r|].
  split.
  - apply lookup_obj_some in Hl as (rl & Hh & Hr). unfold update_obj.
    rewrite Hh, Hr. by rewrite length_insert.
  - intros c Hin. rewrite exec_calls_app in Hin.
    apply elem_of_app in Hin as [Hin|Hin]; [by left|right; by apply Hc].
Qed.

Lemma run_of_unit_leaves_successors_witness :
  exists st',
    run 0 (0, 0) two_node_flow = (Return (VStr "success"), st') /\
    console st' = [WontRunSuccessors "Flow"] /\
    node_runs (trace st') = [].
Proof.
  destruct (run_of_unit_leaves_successors (0, 0) start_unit (VStr "success")
              two_node_flow 0) as (st' & Hr & Hc & Hn & _).
  - vm_compute. reflexivity.
  - split; [reflexivity|intros; eexists _, _; reflexivity..|intros; eexists; reflexivity].
  - cbn [start_unit fields successors]. intros H.
    apply (f_equal (fun m => m !! "success")) in H.
    rewrite lookup_singleton_eq, lookup_empty in H. discriminate.
  - exists st'. split; [exact Hr|]. split; [exact Hc|exact Hn].
Defined.

(** ** Units: delays, missing fallback, the base class *)

Lemma waits_app t1 t2 : waits (t1 ++ t2) = waits t1 ++ waits t2.
Proof. apply omap_app. Qed.

Lemma pause_waits f st :
  exists evs,
    pause f st =
      (Return tt,
       mkState (world st) (heap st) (console st) (trace st ++ evs) (settle_order st)) /\
    waits evs = delays f 1.
Proof.
  unfold pause, delays. destruct (0 <? wait f)%Z.
  - eexists. split; [reflexivity|]. done.
  - exists []. rewrite app_nil_r. split; [by destruct st|done].
Qed.

Lemma delays_S f k : delays f 1 ++ delays f k = delays f (S k).
Proof. unfold delays. by destruct (0 <? wait f)%Z. Qed.

Section RetryLoopDelays.

Variables (this : Ref) (o : Obj) (p : any).

Lemma retry_loop_succeeds_waits k :
  forall i st v w' fuel,
    lookup_obj (heap st) this = Some (at_retry i o) ->
    (i + Z.of_nat k < maxRetries (fields o))%Z ->
    fails_then_succeeds o p i k (world st) v w' ->
    k < fuel ->
    waits (trace (Node.retry_loop fuel this p st).2) =
      waits (trace st) ++ delays (fields o) k.
Proof.
  induction k as [|k IH]; intros i st v w' fuel Hl Hmax Hf Hfuel;
    (destruct fuel as [|fuel]; [lia|]); cbn [Node.retry_loop];
    step_get Hl; cbn [fields hooks at_retry with_curRetry curRetry maxRetries wait];
    (assert ((i <? maxRetries (fields o))%Z = true) as -> by (apply Z.ltb_lt; lia)).
  - inversion Hf as [i' w0 v0 w0' Hex|]; subst.
    unfold try_catch. rewrite bind_unfold, emit_eq, call_eq.
    cbn [world heap console trace settle_order]. rewrite Hex.
    cbn [fst snd outcome_of trace]. rewrite waits_app. unfold delays.
    by destruct (0 <? wait (fields o))%Z.
  - inversion Hf as [|i' k' w0 e w1 v0 w0' Hex Hrest]; subst.
    assert ((i =? maxRetries (fields o) - 1)%Z = false) as ->
      by (apply Z.eqb_neq; lia).
    unfold try_catch at 1. rewrite bind_unfold, emit_eq, call_eq.
    cbn [world heap console trace settle_order]. rewrite Hex.
    cbn [fst snd outcome_of].
    match goal with |- context [(pause ?f ≫= ?k) ?s] =>
      destruct (pause_waits f s) as (evp & Hp & Hq) end.
    rewrite (bind_return _ _ _ _ _ Hp). cbn [world heap console trace settle_order] in *.
    step_modify Hl.
    match goal with |- context [Node.retry_loop fuel this p ?s] =>
      rewrite (IH (i + 1)%Z s v w' fuel) end.
    + cbn [trace set_heap]. rewrite !waits_app, <- app_assoc. cbn [waits omap app].
      change (delays (with_curRetry i (fields o)) 1) with (delays (fields o) 1) in Hq.
      change (waits [ExecCall this i p]) with (@nil Z).
      by rewrite app_nil_r, Hq, <- (delays_S (fields o) k).
    + simpl. rewrite (lookup_update_obj_eq _ _ _ _ Hl). reflexivity.
    + lia.
    + exact Hrest.
    + lia.
Qed.

Lemma call_trace {A} (f : Effect A) st : trace (call f st).2 = trace st.
Proof. by rewrite call_eq. Qed.

Lemma retry_loop_exhausted_waits k :
  forall i st e w' fuel,
    lookup_obj (heap st) this = Some (at_retry i o) ->
    maxRetries (fields o) = (i + Z.of_nat k + 1)%Z ->
    always_fails o p i (S k) (world st) e w' ->
    k < fuel ->
    waits (trace (Node.retry_loop fuel this p st).2) =
      waits (trace st) ++ delays (fields o) k.
Proof.
  induction k as [|k IH]; intros i st e w' fuel Hl Hmax Hf Hfuel;
    (destruct fuel as [|fuel]; [lia|]); cbn [Node.retry_loop];
    step_get Hl; cbn [fields hooks at_retry with_curRetry curRetry maxRetries wait];
    (assert ((i <? maxRetries (fields o))%Z = true) as -> by (apply Z.ltb_lt; lia)).
  - inversion Hf as [i' w0 e0 w0' Hex|]; subst.
    assert ((i =? maxRetries (fields o) - 1)%Z = true) as ->
      by (apply Z.eqb_eq; lia).
    unfold try_catch at 1. rewrite bind_unfold, emit_eq, call_eq.
    cbn [world heap console trace settle_order]. rewrite Hex.
    cbn [fst snd outcome_of].
    rewrite bind_unfold, emit_eq, call_trace. cbn [trace].
    rewrite !waits_app. cbn [waits omap]. unfold delays.
    destruct (0 <? wait (fields o))%Z; by rewrite !app_nil_r.
  - inversion Hf as [|i' k' w0 e1 w1 e0 w0' Hex Hrest]; subst.
    assert ((i =? maxRetries (fields o) - 1)%Z = false) as ->
      by (apply Z.eqb_neq; lia).
    unfold try_catch at 1. rewrite bind_unfold, emit_eq, call_eq.
    cbn [world heap console trace settle_order]. rewrite Hex.
    cbn [fst snd outcome_of].
    match goal with |- context [(pause ?f ≫= ?k) ?s] =>
      destruct (pause_waits f s) as (evp & Hp & Hq) end.
    rewrite (bind_return _ _ _ _ _ Hp). cbn [world heap console trace settle_order] in *.
    step_modify Hl.
    match goal with |- context [Node.retry_loop fuel this p ?s] =>
      rewrite (IH (i + 1)%Z s e w' fuel) end.
    + cbn [trace set_heap]. rewrite !waits_app, <- app_assoc. cbn [waits omap app].
      change (delays (with_curRetry i (fields o)) 1) with (delays (fields o) 1) in Hq.
      change (waits [ExecCall this i p]) with (@nil Z).
      by rewrite app_nil_r, Hq, <- (delays_S (fields o) k).
    + simpl. rewrite (lookup_update_obj_eq _ _ _ _ Hl). reflexivity.
    + lia.
    + exact Hrest.
    + lia.
Qed.

End RetryLoopDelays.

Lemma Node_exec_waits this o p st k :
  lookup_obj (heap st) this = Some o ->
  ((exists v w1, (Z.of_nat k < maxRetries (fields o))%Z /\
                 fails_then_succeeds o p 0 k (world st) v w1) \/
   (exists e w1, maxRetries (fields o) = Z.of_nat (S k) /\
                 always_fails o p 0 (S k) (world st) e w1)) ->
  waits (trace (Node._exec this p st).2) = waits (trace st) ++ delays (fields o) k.
Proof.
  intros Hl Hcase. unfold Node._exec. step_modify Hl.
  pose proof (lookup_update_obj_eq _ _
     (fun o => mkObj (cls o) (with_curRetry 0 (fields o)) (hooks o)) _ Hl) as Hl0.
  match goal with |- context [(get_obj this ≫= _) ?s] => set (st0 := s) end.
  change (lookup_obj (heap st0) this = Some (at_retry 0 o)) in Hl0.
  step_get Hl0. cbn [fields at_retry maxRetries with_curRetry].
  destruct Hcase as [(v & w1 & Hmax & Hf)|(e & w1 & Hmax & Hf)].
  - rewrite (retry_loop_succeeds_waits this o p k 0 st0 v w1); try done; lia.
  - rewrite (retry_loop_exhausted_waits this o p k 0 st0 e w1); try done; lia.
Qed.

(** X6.  The delay of [this.wait] milliseconds is taken after a failed attempt
    that another attempt follows, and nowhere else: [k] times when the
    attempt after [k] failures succeeds, [N - 1] times when all [N]
    attempts fail (there is none before the fallback), and never
    when [wait] is not positive. *)
Theorem delays_between_attempts_only
    (this : Ref) (o : Obj) (st : State) (N : nat) (p : any) (w0 : World)
    (fuel : nat) :
  lookup_obj (heap st) this = Some o ->
  cls o = CNode ->
  maxRetries (fields o) = Z.of_nat N ->
  prep (hooks o) (fields o) (world st) = (Normal p, w0) ->
  let st' := (_run fuel this st).2 in
  let d := wait (fields o) in
  (forall k v w1,
     k < N -> fails_then_succeeds o p 0 k w0 v w1 ->
     waits (trace st') =
       waits (trace st) ++ (if (0 <? d)%Z then replicate k d else [])) /\
  (forall e w1,
     1 <= N -> always_fails o p 0 N w0 e w1 ->
     waits (trace st') =
       waits (trace st) ++ (if (0 <? d)%Z then replicate (N - 1) d else [])).
Proof.
  intros Hl Hcls Hmax Hprep st' d. subst st'.
  rewrite (run_Node _ _ _ _ Hl Hcls). unfold BaseNode._run. step_get Hl.
  rewrite bind_unfold, call_eq, Hprep. cbn [fst snd outcome_of].
  set (s0 := mkState w0 (heap st) (console st) (trace st) (settle_order st)).
  assert (lookup_obj (heap s0) this = Some o) as Hl0 by exact Hl.
  assert (forall k, waits (trace (Node._exec this p s0).2) =
                      waits (trace st) ++ delays (fields o) k ->
          waits (trace ((Node._exec this p ≫= fun e =>
                         get_obj this ≫= fun o' =>
                         call (post (hooks o') (fields o') p e)) s0).2) =
            waits (trace st) ++ delays (fields o) k) as Hpost.
  { intros k Hw. rewrite bind_unfold.
    destruct (Node._exec this p s0) as [[v|e|] s1]; try exact Hw.
    rewrite bind_unfold. unfold get_obj at 1.
    destruct (lookup_obj (heap s1) this) as [o'|]; [|exact Hw].
    by rewrite call_trace. }
  split.
  - intros k v w1 Hk Hf. apply Hpost.
    apply (Node_exec_waits this o p s0 k Hl0). left. exists v, w1. split; [lia|exact Hf].
  - intros e w1 HN Hf. destruct N as [|N]; [lia|].
    cbn [Nat.sub]. rewrite Nat.sub_0_r. apply Hpost.
    apply (Node_exec_waits this o p s0 N Hl0). right. by exists e, w1.
Qed.

Lemma delays_between_attempts_only_witness :
  waits (trace (_run 0 (0, 0) slow_flaky_unit).2) = [50; 50]%Z /\
  waits (trace (_run 0 (0, 0) slow_failing_unit).2) = [50; 50]%Z.
Proof.
  split.
  - refine (proj1 (delays_between_attempts_only (0, 0)
              (mkObj CNode
                 {| params := ∅; successors := ∅; maxRetries := 3; wait := 50;
                    curRetry := 0; start := None |}
                 (unit_hooks (flaky 3) (execFallback BaseNode.default_hooks)))
              slow_flaky_unit 3 VNull ∅ 0 _ _ _ _) 2 (VStr "ok")
              {["calls" := VNum 3]} _ _).
    + vm_compute. reflexivity.
    + reflexivity.
    + reflexivity.
    + reflexivity.
    + lia.
    + apply (fts_fails _ _ 0%Z 1 _ (Error "attempt 1") {["calls" := VNum 1]});
        [vm_compute; reflexivity|].
      apply (fts_fails _ _ 1%Z 0 _ (Error "attempt 2") {["calls" := VNum 2]});
        [vm_compute; reflexivity|].
      apply fts_succeeds. vm_compute. reflexivity.
  - refine (proj2 (delays_between_attempts_only (0, 0)
              (mkObj CNode
                 {| params := ∅; successors := ∅; maxRetries := 3; wait := 50;
                    curRetry := 0; start := None |}
                 (unit_hooks failing (fun _ _ _ w => (Normal (VStr "recovered"), w))))
              slow_failing_unit 3 VNull ∅ 0 _ _ _ _) (Error "attempt 3")
              {["calls" := VNum 3]} _ _).
    + vm_compute. reflexivity.
    + reflexivity.
    + reflexivity.
    + reflexivity.
    + lia.
    + apply (af_more _ _ 0%Z 1 _ (Error "attempt 1") {["calls" := VNum 1]});
        [vm_compute; reflexivity|].
      apply (af_more _ _ 1%Z 0 _ (Error "attempt 2") {["calls" := VNum 2]});
        [vm_compute; reflexivity|].
      apply af_last. vm_compute. reflexivity.
Defined.

(** X5.  A unit that does not override [execFallback] fails when its attempts
    are used up: after [N] invocations of compute the run raises the error
    of the last of them (not of the first), and finalize is not
    reached. *)
Theorem unit_without_fallback_raises_last_error
    (this : Ref) (o : Obj) (st : State) (N : nat) (p : any) (e : Exn)
    (w0 w1 : World) (fuel : nat) :
  lookup_obj (heap st) this = Some o ->
  cls o = CNode ->
  execFallback (hooks o) = execFallback BaseNode.default_hooks ->
  maxRetries (fields o) = Z.of_nat N ->
  1 <= N ->
  prep (hooks o) (fields o) (world st) = (Normal p, w0) ->
  always_fails o p 0 N w0 e w1 ->
  exists st',
    _run fuel this st = (Throw e, st') /\
    world st' = w1 /\
    exec_calls (trace st') = exec_calls (trace st) ++ attempts this p 0 N.
Proof.
  intros Hl Hcls Hdef Hmax HN Hprep Hf.
  destruct N as [|N]; [lia|].
  rewrite (run_Node _ _ _ _ Hl Hcls). unfold BaseNode._run. step_get Hl.
  rewrite bind_unfold, call_eq, Hprep. cbn [fst snd outcome_of].
  match goal with |- context [(Node._exec this p ≫= _) ?s] =>
    destruct (Node_exec_exhausted this o p s N e w1 Hl Hmax Hf)
      as (evs & Hex & [Hq1 _ _]) end.
  rewrite bind_unfold, Hex, call_eq, Hdef. cbn [world heap console trace settle_order].
  cbn [fst snd outcome_of BaseNode.default_hooks execFallback].
  eexists. split; [reflexivity|]. cbn [world trace].
  by rewrite exec_calls_app, Hq1.
Qed.

Lemma unit_without_fallback_raises_last_error_witness :
  exists st',
    _run 0 (0, 0) helpless_unit = (Throw (Error "attempt 2"), st') /\
    length (exec_calls (trace st')) = 2.
Proof.
  destruct (unit_without_fallback_raises_last_error (0, 0)
              (node_obj 2 (unit_hooks failing (execFallback BaseNode.default_hooks)))
              helpless_unit 2 VNull (Error "attempt 2") ∅ {["calls" := VNum 2]} 0)
    as (st' & Hr & _ & He).
  - vm_compute. reflexivity.
  - reflexivity.
  - reflexivity.
  - reflexivity.
  - lia.
  - reflexivity.
  - apply (af_more _ _ 0%Z 0 _ (Error "attempt 1") {["calls" := VNum 1]});
      [vm_compute; reflexivity|].
    apply af_last. vm_compute. reflexivity.
  - exists st'. split; [exact Hr|]. by rewrite He.
Defined.

(** X4.  A unit of class [BaseNode] has neither retry nor fallback: compute is
    invoked once, with the result of prepare; when it raises, the run
    raises that error at once and finalize is not reached; when it
    returns, finalize receives what it returned. *)
Theorem base_unit_computes_once
    (this : Ref) (o : Obj) (st : State) (p : any) (w0 : World) (fuel : nat) :
  lookup_obj (heap st) this = Some o ->
  cls o = CBaseNode ->
  prep (hooks o) (fields o) (world st) = (Normal p, w0) ->
  let compute := exec (hooks o) (fields o) p w0 in
  exists st',
    _run fuel this st =
      (match compute.1 with
       | Normal v => outcome_of (post (hooks o) (fields o) p v compute.2).1
       | Abrupt e => Throw e
       end, st') /\
    world st' =
      match compute.1 with
      | Normal v => (post (hooks o) (fields o) p v compute.2).2
      | Abrupt _ => compute.2
      end /\
    heap st' = heap st /\ trace st' = trace st.
Proof.
  intros Hl Hcls Hprep compute. subst compute.
  assert (_run fuel this st = BaseNode._run BaseNode._exec this st) as ->
    by (destruct fuel; cbn [_run]; step_get Hl; by rewrite Hcls).
  unfold BaseNode._run. step_get Hl.
  rewrite bind_unfold, call_eq, Hprep. cbn [fst snd outcome_of].
  unfold BaseNode._exec. rewrite bind_assoc.
  match goal with |- context [(get_obj this ≫= ?k) ?s] =>
    assert (lookup_obj (heap s) this = Some o) as Hl1 by exact Hl end.
  step_get Hl1. rewrite bind_unfold, call_eq. cbn [world heap console trace settle_order].
  destruct (exec (hooks o) (fields o) p w0) as [[v|e] w1]; cbn [fst snd outcome_of].
  - match goal with |- context [(get_obj this ≫= ?k) ?s] =>
      assert (lookup_obj (heap s) this = Some o) as Hl2 by exact Hl end.
    step_get Hl2. rewrite call_eq. eexists. split; [reflexivity|]. done.
  - eexists. split; [reflexivity|]. done.
Qed.

Lemma base_unit_computes_once_witness :
  exists st',
    _run 0 (0, 0) base_unit = (Throw (Error "attempt 1"), st') /\
    world st' = {["calls" := VNum 1]}.
Proof.
  destruct (base_unit_computes_once (0, 0)
              (mkObj CBaseNode BaseNode.default_fields
                 (unit_hooks failing (execFallback BaseNode.default_hooks)))
              base_unit VNull ∅ 0)
    as (st' & Hr & Hw & _).
  - vm_compute. reflexivity.
  - reflexivity.
  - reflexivity.
  - exists st'. split; [exact Hr|exact Hw].
Defined.

(** ** Batches of a unit *)

(** A compute that raises at every invocation for [p] raises on any
    number of attempts in a row. *)
Lemma always_fails_build (P : Exn -> Prop) o p :
  (forall fl w, exists e w', exec (hooks o) fl p w = (Abrupt e, w') /\ P e) ->
  forall N i w, exists e w', always_fails o p i (S N) w e w' /\ P e.
Proof.
  intros H N. induction N as [|N IH]; intros i w.
  - destruct (H (with_curRetry i (fields o)) w) as (e & w' & He & HP).
    exists e, w'. split; [by apply af_last|exact HP].
  - destruct (H (with_curRetry i (fields o)) w) as (e1 & w1 & He & _).
    destruct (IH (i + 1)%Z w1) as (e & w' & Hf & HP).
    exists e, w'. split; [|exact HP]. eapply af_more; eauto.
Qed.

Section BatchOfUnit.

Variables (this : Ref) (h : Hooks).

Lemma same_unit_refl o : same_unit o o.
Proof. by repeat split. Qed.

Lemma same_unit_at_retry o o' i : same_unit o o' -> same_unit o (at_retry i o').
Proof. intros (?&?&?&?). by repeat split. Qed.

(** Every item of [l] is computed at the first attempt. *)
Lemma map_exec_computes (f : any -> any) l :
  forall o st,
    lookup_obj (heap st) this = Some o ->
    hooks o = h ->
    (1 <= maxRetries (fields o))%Z ->
    (forall fl x w, x ∈ l -> exists w', exec h fl x w = (Normal (f x), w')) ->
    exists st' o',
      BatchNode.map_exec this l st = (Return (f <$> l), st') /\
      lookup_obj (heap st') this = Some o' /\ same_unit o o' /\
      exec_calls (trace st') =
        exec_calls (trace st) ++ ((fun x => (this, 0%Z, x)) <$> l) /\
      fallback_calls (trace st') = fallback_calls (trace st).
Proof.
  induction l as [|x l IH]; intros o st Hl Hh Hmax Hf.
  - exists st, o. rewrite app_nil_r. repeat split; try done.
  - cbn [BatchNode.map_exec].
    destruct (Hf (with_curRetry 0 (fields o)) x (world st)) as (w1 & Hx);
      [apply elem_of_cons; by left|].
    destruct (Node_exec_succeeds this o x st 0 (f x) w1 Hl) as (evs & Hex & [Hq1 Hq2 _]).
    { simpl. lia. }
    { apply fts_succeeds. by rewrite Hh. }
    rewrite (bind_return _ _ _ _ _ Hex).
    match goal with |- context [(BatchNode.map_exec this l ≫= _) ?s] =>
      destruct (IH (at_retry 0 o) s) as (st' & o' & Hrun & Hl' & Hsame & He & Hfb) end.
    { cbn [heap]. apply (lookup_update_obj_eq _ _ _ _ Hl). }
    { exact Hh. }
    { exact Hmax. }
    { intros fl y w Hy. apply Hf. apply elem_of_cons. by right. }
    rewrite (bind_return _ _ _ _ _ Hrun).
    exists st', o'. split; [reflexivity|]. split; [exact Hl'|]. split.
    { destruct Hsame as (?&?&?&?). by repeat split. }
    cbn [trace] in He, Hfb. rewrite exec_calls_app, Hq1 in He.
    rewrite fallback_calls_app, Hq2, app_nil_r in Hfb.
    split; [|exact Hfb]. rewrite He, <- app_assoc. reflexivity.
Qed.

(** Every item of [l] goes through all its attempts and the fallback. *)
Lemma map_exec_falls_back (g : any -> any) (N : nat) l :
  forall o st,
    lookup_obj (heap st) this = Some o ->
    hooks o = h ->
    maxRetries (fields o) = Z.of_nat (S N) ->
    (forall fl x w, exists e w', exec h fl x w = (Abrupt e, w')) ->
    (forall fl x e w, exists w', execFallback h fl x e w = (Normal (g x), w')) ->
    exists st',
      BatchNode.map_exec this l st = (Return (g <$> l), st') /\
      exec_calls (trace st') =
        exec_calls (trace st) ++ concat ((fun x => attempts this x 0 (S N)) <$> l) /\
      length (fallback_calls (trace st')) =
        length (fallback_calls (trace st)) + length l.
Proof.
  induction l as [|x l IH]; intros o st Hl Hh Hmax Hf Hg.
  - exists st. rewrite app_nil_r. repeat split; try done; simpl; lia.
  - cbn [BatchNode.map_exec].
    destruct (always_fails_build (fun _ => True) o x) with (N := N) (i := 0%Z) (w := world st)
      as (e & w1 & Haf & _).
    { intros fl w. rewrite Hh. destruct (Hf fl x w) as (e & w' & He). by exists e, w'. }
    destruct (Node_exec_exhausted this o x st N e w1 Hl Hmax Haf)
      as (evs & Hex & [Hq1 Hq2 _]).
    rewrite Hh in Hex.
    destruct (Hg (with_curRetry (Z.of_nat N) (fields o)) x e w1) as (w2 & Hfb).
    rewrite call_eq in Hex. cbn [world heap console trace settle_order] in Hex.
    rewrite Hfb in Hex. cbn [fst snd outcome_of] in Hex.
    rewrite (bind_return _ _ _ _ _ Hex).
    match goal with |- context [(BatchNode.map_exec this l ≫= _) ?s] =>
      destruct (IH (at_retry (Z.of_nat N) o) s) as (st' & Hrun & He & Hlen) end.
    { cbn [heap]. apply (lookup_update_obj_eq _ _ _ _ Hl). }
    { exact Hh. }
    { exact Hmax. }
    { exact Hf. }
    { exact Hg. }
    rewrite (bind_return _ _ _ _ _ Hrun).
    exists st'. split; [reflexivity|].
    cbn [trace] in He, Hlen. rewrite exec_calls_app, Hq1 in He.
    rewrite fallback_calls_app, Hq2, length_app in Hlen.
    split.
    + rewrite He, <- app_assoc. reflexivity.
    + rewrite Hlen. cbn [length]. lia.
Qed.

End BatchOfUnit.

(** X7.  A batch node computes its items one after the other, each at its
    first attempt when compute returns, and returns the results in the
    order of the items; a falsy prepare result stands for the empty
    list. *)
Theorem batch_node_results_by_index
    (this : Ref) (o : Obj) (f : any -> any) (items : any) (l : list any)
    (st : State) :
  lookup_obj (heap st) this = Some o ->
  (1 <= maxRetries (fields o))%Z ->
  (forall fl x w, exists w', exec (hooks o) fl x w = (Normal (f x), w')) ->
  items = VArr l \/ (truthy items = false /\ l = []) ->
  exists st',
    BatchNode._exec this items st = (Return (VArr (f <$> l)), st') /\
    exec_calls (trace st') =
      exec_calls (trace st) ++ ((fun x => (this, 0%Z, x)) <$> l) /\
    fallback_calls (trace st') = fallback_calls (trace st).
Proof.
  intros Hl Hmax Hf Hitems. unfold BatchNode._exec.
  assert ((if truthy items then items else VArr []) = VArr l) as ->.
  { destruct Hitems as [->|[-> ->]]; reflexivity. }
  destruct (map_exec_computes this (hooks o) f l o st Hl eq_refl Hmax)
    as (st' & o' & Hrun & _ & _ & He & Hfb).
  { intros fl x w _. apply Hf. }
  rewrite (bind_return _ _ _ _ _ Hrun). by exists st'.
Qed.

Lemma batch_node_results_by_index_witness :
  exists st',
    BatchNode._exec (0, 0) (VArr [VNum 1; VNum 2]) wrapping_batch =
      (Return (VArr [VArr [VNum 1]; VArr [VNum 2]]), st') /\
    exec_calls (trace st') = [((0, 0), 0%Z, VNum 1); ((0, 0), 0%Z, VNum 2)].
Proof.
  destruct (batch_node_results_by_index (0, 0)
              (batch_obj (unit_hooks wrap (execFallback BaseNode.default_hooks)))
              (fun x => VArr [x]) (VArr [VNum 1; VNum 2]) [VNum 1; VNum 2]
              wrapping_batch)
    as (st' & Hr & He & _).
  - vm_compute. reflexivity.
  - simpl. lia.
  - intros. eexists. reflexivity.
  - left. reflexivity.
  - exists st'. split; [exact Hr|exact He].
Defined.

(** X8.  Every item of a batch has the whole retry budget: when compute
    raises at every invocation, each item is attempted [maxRetries] times,
    the attempts of an item being numbered from 0, and the fallback is
    called once per item. *)
Theorem batch_node_retries_each_item
    (this : Ref) (o : Obj) (g : any -> any) (l : list any) (N : nat)
    (st : State) :
  lookup_obj (heap st) this = Some o ->
  maxRetries (fields o) = Z.of_nat N ->
  1 <= N ->
  (forall fl x w, exists e w', exec (hooks o) fl x w = (Abrupt e, w')) ->
  (forall fl x e w, exists w',
      execFallback (hooks o) fl x e w = (Normal (g x), w')) ->
  exists st',
    BatchNode._exec this (VArr l) st = (Return (VArr (g <$> l)), st') /\
    exec_calls (trace st') =
      exec_calls (trace st) ++ concat ((fun x => attempts this x 0 N) <$> l) /\
    length (exec_calls (trace st')) =
      length (exec_calls (trace st)) + N * length l /\
    length (fallback_calls (trace st')) =
      length (fallback_calls (trace st)) + length l.
Proof.
  intros Hl Hmax HN Hf Hg. destruct N as [|N]; [lia|].
  unfold BatchNode._exec. cbn [truthy].
  destruct (map_exec_falls_back this (hooks o) g N l o st Hl eq_refl Hmax Hf Hg)
    as (st' & Hrun & He & Hlen).
  rewrite (bind_return _ _ _ _ _ Hrun). exists st'.
  split; [reflexivity|]. split; [exact He|]. split; [|exact Hlen].
  rewrite He, length_app. f_equal.
  clear. induction l as [|x l IH]; [by rewrite Nat.mul_0_r|].
  rewrite fmap_cons. cbn [concat]. rewrite length_app, attempts_length, IH.
  cbn [length]. rewrite (Nat.mul_succ_r (S N)). lia.
Qed.

Lemma batch_node_retries_each_item_witness :
  exists st',
    BatchNode._exec (0, 0) (VArr [VNum 1; VNum 2]) failing_batch =
      (Return (VArr [VNum 1; VNum 2]), st') /\
    length (exec_calls (trace st')) = 4 /\
    length (fallback_calls (trace st')) = 2.
Proof.
  destruct (batch_node_retries_each_item (0, 0)
              (batch_obj (unit_hooks failing (fun _ x _ w => (Normal x, w))))
              (fun x => x) [VNum 1; VNum 2] 2 failing_batch)
    as (st' & Hr & _ & He & Hf).
  - vm_compute. reflexivity.
  - reflexivity.
  - lia.
  - intros. eexists _, _. reflexivity.
  - intros. eexists. reflexivity.
  - exists st'. split; [exact Hr|]. split; [exact He|exact Hf].
Defined.

(** X9.  An item whose attempts all fail and whose fallback raises ends the
    batch with the error of the fallback: the items before it have been
    computed, the items after it are not attempted. *)
Theorem batch_node_failure_ends_batch
    (this : Ref) (o : Obj) (f : any -> any) (pre rest : list any) (bad : any)
    (N : nat) (e e' : Exn) (st : State) :
  lookup_obj (heap st) this = Some o ->
  maxRetries (fields o) = Z.of_nat N ->
  1 <= N ->
  (forall fl x w, x ∈ pre -> exists w', exec (hooks o) fl x w = (Normal (f x), w')) ->
  (forall fl w, exists w', exec (hooks o) fl bad w = (Abrupt e, w')) ->
  (forall fl w, exists w', execFallback (hooks o) fl bad e w = (Abrupt e', w')) ->
  exists st',
    BatchNode._exec this (VArr (pre ++ bad :: rest)) st = (Throw e', st') /\
    exec_calls (trace st') =
      exec_calls (trace st) ++ ((fun x => (this, 0%Z, x)) <$> pre) ++
      attempts this bad 0 N.
Proof.
  intros Hl Hmax HN Hf Hbad Hfb. destruct N as [|N]; [lia|].
  unfold BatchNode._exec. cbn [truthy].
  assert (forall l1 l2 s,
            BatchNode.map_exec this (l1 ++ l2) s =
            (r1 ← BatchNode.map_exec this l1;
             r2 ← BatchNode.map_exec this l2; mret (r1 ++ r2)) s) as Happ.
  { induction l1 as [|x l1 IH]; intros l2 s.
    - cbn [app BatchNode.map_exec]. rewrite ret_bind, bind_unfold.
      by destruct (BatchNode.map_exec this l2 s) as [[r| |] s'].
    - cbn [app BatchNode.map_exec]. rewrite !bind_assoc.
      apply bind_ext; intros r s1. rewrite !bind_assoc, bind_unfold, IH.
      rewrite !bind_unfold.
      destruct (BatchNode.map_exec this l1 s1) as [[r1| |] s2]; try reflexivity.
      rewrite ret_bind, !bind_unfold.
      by destruct (BatchNode.map_exec this l2 s2) as [[r2| |] s3]. }
  rewrite bind_unfold, Happ.
  destruct (map_exec_computes this (hooks o) f pre o st Hl eq_refl)
    as (st1 & o1 & Hrun & Hl1 & (Hc1 & Hh1 & Hm1 & _) & He1 & _).
  { lia. }
  { exact Hf. }
  rewrite (bind_return _ _ _ _ _ Hrun). cbn [BatchNode.map_exec].
  destruct (always_fails_build (fun x => x = e) o1 bad) with (N := N) (i := 0%Z)
    (w := world st1) as (e0 & w1 & Haf & ->).
  { intros fl w. rewrite Hh1. destruct (Hbad fl w) as (w' & He). by exists e, w'. }
  destruct (Node_exec_exhausted this o1 bad st1 N e w1 Hl1) as (evs & Hex & [Hq1 _ _]).
  { congruence. }
  { exact Haf. }
  rewrite Hh1 in Hex.
  destruct (Hfb (with_curRetry (Z.of_nat N) (fields o1)) w1) as (w2 & Hw2).
  rewrite call_eq in Hex. cbn [world heap console trace settle_order] in Hex.
  rewrite Hw2 in Hex. cbn [fst snd outcome_of] in Hex.
  rewrite !bind_unfold, Hex.
  eexists. split; [reflexivity|]. cbn [trace].
  by rewrite exec_calls_app, Hq1, He1, <- app_assoc.
Qed.

Lemma batch_node_failure_ends_batch_witness :
  exists st',
    BatchNode._exec (0, 0) (VArr [VNum 1; VNull; VNum 3]) picky_batch =
      (Throw (Error "bad item"), st') /\
    exec_calls (trace st') =
      [((0, 0), 0%Z, VNum 1); ((0, 0), 0%Z, VNull); ((0, 0), 1%Z, VNull)].
Proof.
  destruct (batch_node_failure_ends_batch (0, 0)
              (batch_obj (unit_hooks picky (execFallback BaseNode.default_hooks)))
              (fun x => VArr [x]) [VNum 1] [VNum 3] VNull 2
              (Error "bad item") (Error "bad item") picky_batch)
    as (st' & Hr & He).
  - vm_compute. reflexivity.
  - reflexivity.
  - lia.
  - intros fl x w Hx. apply list_elem_of_singleton in Hx as ->. eexists. reflexivity.
  - intros. eexists. reflexivity.
  - intros. eexists. reflexivity.
  - exists st'. split; [exact Hr|exact He].
Defined.

(** ** The blocking API of the promise-based classes *)

(** X15.  The blocking [run] of every promise-based class raises
    [Error("Use runAsync.")] before any method of the object is invoked:
    the shared context, the objects and the trace are as they were. *)
Theorem blocking_run_of_async_class_raises
    (this : Ref) (o : Obj) (st : State) (fuel : nat) :
  lookup_obj (heap st) this = Some o ->
  is_async_node (cls o) = true \/ cls o = CAsyncFlow \/ cls o = CAsyncBatchFlow ->
  exists st',
    run fuel this st = (Throw (Error "Use runAsync."), st') /\
    world st' = world st /\ heap st' = heap st /\ trace st' = trace st /\
    (is_async_node (cls o) = false -> st' = st).
Proof.
  intros Hl Ha. unfold run. step_get Hl.
  destruct (cls o) eqn:Hc; try (by destruct Ha as [?|[?|?]]).
  1-3: (assert (exists st0,
            (if has_keys (successors (fields o))
             then warn (WontRunSuccessors "Flow") else mret ()) st = (Return tt, st0) /\
            heap st0 = heap st /\ world st0 = world st /\ trace st0 = trace st)
      as (st0 & Hw & Hh0 & Hw0 & Ht0)
      by (destruct (has_keys _); eexists; (split; [reflexivity|done]));
    rewrite (bind_return _ _ _ _ _ Hw);
    assert (lookup_obj (heap st0) this = Some o) as Hl0 by (by rewrite Hh0);
    exists st0; split; [|by repeat split];
    destruct fuel; cbn [_run]; step_get Hl0; rewrite Hc; reflexivity).
  all: exists st; by repeat split.
Qed.

Lemma blocking_run_of_async_class_raises_witness :
  exists st',
    run 3 (0, 0) parallel_unit = (Throw (Error "Use runAsync."), st') /\
    world st' = world parallel_unit.
Proof.
  destruct (blocking_run_of_async_class_raises (0, 0)
              (async_obj CAsyncParallelBatchNode 1 wrap_hooks) parallel_unit 3)
    as (st' & Hr & Hw & _).
  - vm_compute. reflexivity.
  - left. reflexivity.
  - exists st'. split; [exact Hr|exact Hw].
Defined.

(** The warning of [run], if any, leaves everything but the console. *)
Lemma run_warning (o : Obj) use st :
  exists st0,
    (if has_keys (successors (fields o))
     then warn (WontRunSuccessors use) else mret ()) st = (Return tt, st0) /\
    heap st0 = heap st /\ world st0 = world st /\ trace st0 = trace st /\
    settle_order st0 = settle_order st.
Proof. destruct (has_keys _); eexists; (split; [reflexivity|done]). Qed.

(** ** Flows with a start unit *)

Lemma AsyncFlow_runAsync_raises fuel this rl ofl os s st pr w0 :
  heap st !! this.1 = Some rl ->
  rl !! this.2 = Some ofl ->
  start (fields ofl) = Some s ->
  rl !! s = Some os ->
  prepAsync (hooks ofl) (fields ofl) (world st) = (Normal pr, w0) ->
  AsyncFlow._runAsync (S fuel) this st =
    (Throw (TypeError "curr.setParams is not a function"),
     mkState w0 (heap st ++ [plain <$> rl]) (console st) (trace st)
       (settle_order st)).
Proof.
  intros Hrl Hfl Hstart Hs Hprep.
  pose proof (this_lookup _ _ _ _ Hrl Hfl) as Hl.
  unfold AsyncFlow._runAsync. step_get Hl. rewrite bind_unfold, call_eq, Hprep.
  cbn [fst snd outcome_of]. rewrite bind_unfold.
  by rewrite (orchAsync_raises this rl ofl os s
                (mkState w0 (heap st) (console st) (trace st) (settle_order st))
                Hrl Hfl Hstart Hs).
Qed.

Lemma AsyncBatchFlow_runAsync_raises fuel this rl ofl os s st x rest w0 :
  heap st !! this.1 = Some rl ->
  rl !! this.2 = Some ofl ->
  start (fields ofl) = Some s ->
  rl !! s = Some os ->
  prepAsync (hooks ofl) (fields ofl) (world st) = (Normal (VArr (x :: rest)), w0) ->
  AsyncBatchFlow._runAsync (S fuel) this st =
    (Throw (TypeError "curr.setParams is not a function"),
     mkState w0 (heap st ++ [plain <$> rl]) (console st) (trace st)
       (settle_order st)).
Proof.
  intros Hrl Hfl Hstart Hs Hprep.
  pose proof (this_lookup _ _ _ _ Hrl Hfl) as Hl.
  unfold AsyncBatchFlow._runAsync. step_get Hl. rewrite bind_unfold, call_eq, Hprep.
  cbn [fst snd outcome_of truthy AsyncBatchFlow.iterate AsyncBatchFlow.for_of].
  rewrite !bind_assoc.
  match goal with |- context [(get_obj this ≫= _) ?s0] =>
    assert (lookup_obj (heap s0) this = Some ofl) as Hl0 by exact Hl end.
  step_get Hl0. rewrite bind_assoc, bind_unfold.
  by rewrite (orchAsync_raises this rl ofl os s
                (mkState w0 (heap st) (console st) (trace st) (settle_order st))
                Hrl Hfl Hstart Hs).
Qed.

(** X16.  [run] of a [Flow] that has a start unit, of whatever class,
    raises the [TypeError] of [curr.setParams(p)]: the copy that
    [structuredClone] makes of the start unit is a plain object.  The
    flow's prepare has been called and nothing after it: no method of a
    unit and not the flow's finalize, so the shared context is as the
    flow's prepare left it and the trace is as it was.  The objects that
    existed are unchanged; one copy of the flow's realm has been added. *)
Theorem flow_raises_at_first_clone
    (this : Ref) (rl : Realm) (ofl os : Obj) (s : NodeId)
    (st : State) (pr : any) (w0 : World) (fuel : nat) :
  heap st !! this.1 = Some rl ->
  rl !! this.2 = Some ofl ->
  cls ofl = CFlow ->
  start (fields ofl) = Some s ->
  rl !! s = Some os ->
  prep (hooks ofl) (fields ofl) (world st) = (Normal pr, w0) ->
  exists st',
    run (S (S fuel)) this st =
      (Throw (TypeError "curr.setParams is not a function"), st') /\
    world st' = w0 /\
    trace st' = trace st /\
    heap st' = heap st ++ [plain <$> rl] /\
    console st' =
      console st ++
      (if has_keys (successors (fields ofl)) then [WontRunSuccessors "Flow"] else []).
Proof.
  intros Hrl Hfl Hcls Hstart Hs Hprep.
  pose proof (this_lookup _ _ _ _ Hrl Hfl) as Hl.
  unfold run. step_get Hl. rewrite Hcls.
  destruct (has_keys (successors (fields ofl))).
  - rewrite (bind_return _ _ _ _ _ (warn_eq _ _)).
    match goal with |- context [_run _ this ?s0] =>
      rewrite (run_Flow _ this s0 ofl Hl Hcls);
      rewrite (Flow_run_raises _ _ this rl ofl os s s0 pr w0 Hrl Hfl Hstart Hs Hprep)
    end.
    eexists. split; [reflexivity|]. done.
  - rewrite ret_bind, (run_Flow _ this st ofl Hl Hcls).
    rewrite (Flow_run_raises _ _ this rl ofl os s st pr w0 Hrl Hfl Hstart Hs Hprep).
    eexists. split; [reflexivity|]. cbn [world trace heap console].
    by rewrite app_nil_r.
Qed.

Lemma flow_raises_at_first_clone_witness :
  exists st',
    run 2 (0, 2) two_node_flow =
      (Throw (TypeError "curr.setParams is not a function"), st') /\
    world st' = ∅ /\ trace st' = [] /\ console st' = [].
Proof.
  destruct (flow_raises_at_first_clone (0, 2)
              [start_unit; node_obj 1 (step_hooks "done");
               flow_obj CFlow ∅ Flow.default_hooks]
              (flow_obj CFlow ∅ Flow.default_hooks) start_unit 0
              two_node_flow VNull ∅ 0)
    as (st' & Hr & Hw & Ht & _ & Hc).
  - vm_compute. reflexivity.
  - reflexivity.
  - reflexivity.
  - reflexivity.
  - reflexivity.
  - reflexivity.
  - exists st'. split; [exact Hr|]. split; [exact Hw|]. split; [exact Ht|exact Hc].
Defined.

(** X21.  [runAsync] of an [AsyncFlow] that has a start unit is rejected
    with the same [TypeError], for the same reason, after the flow's
    [prepAsync] and before anything else: no unit has been called and
    [postAsync] is not reached. *)
Theorem async_flow_rejects_at_first_clone
    (this : Ref) (rl : Realm) (ofl os : Obj) (s : NodeId)
    (st : State) (pr : any) (w0 : World) (fuel : nat) :
  heap st !! this.1 = Some rl ->
  rl !! this.2 = Some ofl ->
  cls ofl = CAsyncFlow ->
  start (fields ofl) = Some s ->
  rl !! s = Some os ->
  prepAsync (hooks ofl) (fields ofl) (world st) = (Normal pr, w0) ->
  exists st',
    runAsync (S fuel) this st =
      (Throw (TypeError "curr.setParams is not a function"), st') /\
    world st' = w0 /\
    trace st' = trace st /\
    console st' = console st /\
    heap st' = heap st ++ [plain <$> rl].
Proof.
  intros Hrl Hfl Hcls Hstart Hs Hprep.
  pose proof (this_lookup _ _ _ _ Hrl Hfl) as Hl.
  unfold runAsync. step_get Hl. rewrite Hcls.
  rewrite (AsyncFlow_runAsync_raises _ this rl ofl os s st pr w0 Hrl Hfl Hstart Hs Hprep).
  eexists. split; [reflexivity|]. done.
Qed.

Lemma async_flow_rejects_at_first_clone_witness :
  exists st',
    runAsync 1 (0, 3) mixed_flows =
      (Throw (TypeError "curr.setParams is not a function"), st') /\
    world st' = ∅ /\ trace st' = [].
Proof.
  destruct (async_flow_rejects_at_first_clone (0, 3)
              [start_unit; async_obj CAsyncNode 1 (async_step_hooks "done");
               flow_obj CFlow ∅ Flow.default_hooks;
               flow_obj CAsyncFlow ∅ Flow.default_hooks]
              (flow_obj CAsyncFlow ∅ Flow.default_hooks) start_unit 0
              mixed_flows VNull ∅ 0)
    as (st' & Hr & Hw & Ht & _).
  - vm_compute. reflexivity.
  - reflexivity.
  - reflexivity.
  - reflexivity.
  - reflexivity.
  - reflexivity.
  - exists st'. split; [exact Hr|]. split; [exact Hw|exact Ht].
Defined.

(** ** Batches of flows *)

(** X12.  A batch flow whose prepare result is falsy or the empty list runs
    nothing: no unit is cloned or run, and finalize receives the empty
    list and [null].  This holds of [BatchFlow] and of [AsyncBatchFlow]. *)
Theorem empty_batch_runs_nothing
    (this : Ref) (ofl : Obj) (st : State) (pr : any) (w0 : World) (fuel : nat) :
  lookup_obj (heap st) this = Some ofl ->
  truthy pr = false \/ pr = VArr [] ->
  (cls ofl = CBatchFlow ->
   prep (hooks ofl) (fields ofl) (world st) = (Normal pr, w0) ->
   exists st',
     _run (S fuel) this st =
       (outcome_of (post (hooks ofl) (fields ofl) (VArr []) VNull w0).1, st') /\
     heap st' = heap st /\ trace st' = trace st /\ console st' = console st) /\
  (cls ofl = CAsyncBatchFlow ->
   prepAsync (hooks ofl) (fields ofl) (world st) = (Normal pr, w0) ->
   exists st',
     runAsync fuel this st =
       (outcome_of (postAsync (hooks ofl) (fields ofl) (VArr []) VNull w0).1, st') /\
     heap st' = heap st /\ trace st' = trace st /\ console st' = console st).
Proof.
  intros Hl Hpr.
  assert ((if truthy pr then pr else VArr []) = VArr []) as Hnil
    by (destruct Hpr as [->| ->]; reflexivity).
  split; intros Hcls Hprep.
  - rewrite (run_BatchFlow _ _ _ _ Hl Hcls). unfold BatchFlow._run. step_get Hl.
    rewrite bind_unfold, call_eq, Hprep. cbn [fst snd outcome_of].
    rewrite Hnil. cbn [BatchFlow.forEach]. rewrite ret_bind.
    match goal with |- context [(get_obj this ≫= ?k) ?s] =>
      assert (lookup_obj (heap s) this = Some ofl) as Hl1 by exact Hl end.
    step_get Hl1. rewrite call_eq. eexists. split; [reflexivity|]. done.
  - unfold runAsync. step_get Hl. rewrite Hcls.
    unfold AsyncBatchFlow._runAsync. step_get Hl.
    rewrite bind_unfold, call_eq, Hprep. cbn [fst snd outcome_of].
    rewrite Hnil. cbn [AsyncBatchFlow.iterate AsyncBatchFlow.for_of]. rewrite ret_bind.
    match goal with |- context [(get_obj this ≫= ?k) ?s] =>
      assert (lookup_obj (heap s) this = Some ofl) as Hl1 by exact Hl end.
    step_get Hl1. rewrite call_eq. eexists. split; [reflexivity|]. done.
Qed.

Lemma empty_batch_runs_nothing_witness :
  (exists st', _run 1 (0, 1) empty_batch_flows = (Return VNull, st') /\
               trace st' = []) /\
  (exists st', runAsync 0 (0, 2) empty_batch_flows = (Return VNull, st') /\
               trace st' = []).
Proof.
  split.
  - destruct (proj1 (empty_batch_runs_nothing (0, 1)
                (flow_obj CBatchFlow ∅ (batch_hooks VNull)) empty_batch_flows VNull ∅ 0
                ltac:(vm_compute; reflexivity) (or_introl eq_refl)) eq_refl eq_refl)
      as (st' & Hr & _ & Ht & _).
    exists st'. split; [exact Hr|exact Ht].
  - destruct (proj2 (empty_batch_runs_nothing (0, 2)
                (flow_obj CAsyncBatchFlow ∅ (batch_hooks VNull)) empty_batch_flows VNull ∅ 0
                ltac:(vm_compute; reflexivity) (or_introl eq_refl)) eq_refl eq_refl)
      as (st' & Hr & _ & Ht & _).
    exists st'. split; [exact Hr|exact Ht].
Defined.

(** X14.  A batch flow with a start unit and a prepare result that is a
    list with a first item raises the [TypeError] of
    [curr.setParams(p)] on the clone made for that item.  The flow's
    prepare has been called and nothing after it; one copy of the flow's
    realm has been made, so the items after the first have not been
    started.  This holds of [BatchFlow] and of [AsyncBatchFlow]. *)
Theorem batch_of_flow_stops_at_first_item
    (this : Ref) (rl : Realm) (ofl os : Obj) (s : NodeId)
    (st : State) (x : any) (rest : list any) (w0 : World) (fuel : nat) :
  heap st !! this.1 = Some rl ->
  rl !! this.2 = Some ofl ->
  start (fields ofl) = Some s ->
  rl !! s = Some os ->
  (cls ofl = CBatchFlow ->
   prep (hooks ofl) (fields ofl) (world st) = (Normal (VArr (x :: rest)), w0) ->
   exists st',
     _run (S (S fuel)) this st =
       (Throw (TypeError "curr.setParams is not a function"), st') /\
     world st' = w0 /\ trace st' = trace st /\ console st' = console st /\
     heap st' = heap st ++ [plain <$> rl]) /\
  (cls ofl = CAsyncBatchFlow ->
   prepAsync (hooks ofl) (fields ofl) (world st) = (Normal (VArr (x :: rest)), w0) ->
   exists st',
     runAsync (S fuel) this st =
       (Throw (TypeError "curr.setParams is not a function"), st') /\
     world st' = w0 /\ trace st' = trace st /\ console st' = console st /\
     heap st' = heap st ++ [plain <$> rl]).
Proof.
  intros Hrl Hfl Hstart Hs.
  pose proof (this_lookup _ _ _ _ Hrl Hfl) as Hl.
  split; intros Hcls Hprep.
  - rewrite (run_BatchFlow _ this st ofl Hl Hcls).
    rewrite (BatchFlow_run_raises _ _ this rl ofl os s st x rest w0
               Hrl Hfl Hstart Hs Hprep).
    eexists. split; [reflexivity|]. done.
  - unfold runAsync. step_get Hl. rewrite Hcls.
    rewrite (AsyncBatchFlow_runAsync_raises _ this rl ofl os s st x rest w0
               Hrl Hfl Hstart Hs Hprep).
    eexists. split; [reflexivity|]. done.
Qed.

Lemma batch_of_flow_stops_at_first_item_witness :
  (exists st',
     _run 2 (0, 2) batch_flows =
       (Throw (TypeError "curr.setParams is not a function"), st') /\
     length (heap st') = 2) /\
  (exists st',
     runAsync 1 (0, 3) batch_flows =
       (Throw (TypeError "curr.setParams is not a function"), st') /\
     length (heap st') = 2).
Proof.
  split.
  - destruct (proj1 (batch_of_flow_stops_at_first_item (0, 2)
                [start_unit; node_obj 1 (step_hooks "done");
                 flow_obj CBatchFlow ∅ (batch_hooks (VArr [item 1; item 2; item 3]));
                 flow_obj CAsyncBatchFlow ∅ (batch_hooks (VArr [item 1; item 2; item 3]))]
                (flow_obj CBatchFlow ∅ (batch_hooks (VArr [item 1; item 2; item 3])))
                start_unit 0 batch_flows (item 1) [item 2; item 3] ∅ 0
                ltac:(vm_compute; reflexivity) eq_refl eq_refl eq_refl) eq_refl eq_refl)
      as (st' & Hr & _ & _ & _ & Hh).
    exists st'. split; [exact Hr|]. rewrite Hh. reflexivity.
  - destruct (proj2 (batch_of_flow_stops_at_first_item (0, 3)
                [start_unit; node_obj 1 (step_hooks "done");
                 flow_obj CBatchFlow ∅ (batch_hooks (VArr [item 1; item 2; item 3]));
                 flow_obj CAsyncBatchFlow ∅ (batch_hooks (VArr [item 1; item 2; item 3]))]
                (flow_obj CAsyncBatchFlow ∅ (batch_hooks (VArr [item 1; item 2; item 3])))
                start_unit 0 batch_flows (item 1) [item 2; item 3] ∅ 0
                ltac:(vm_compute; reflexivity) eq_refl eq_refl eq_refl) eq_refl eq_refl)
      as (st' & Hr & _ & _ & _ & Hh).
    exists st'. split; [exact Hr|]. rewrite Hh. reflexivity.
Defined.

(** ** Promise-based units and their batches *)

Section AsyncRetryLoop.

Variables (this : Ref) (o : Obj) (p : any).

Lemma async_retry_loop_fulfils k :
  forall i st v w' fuel,
    lookup_obj (heap st) this = Some o ->
    (i + Z.of_nat k < maxRetries (fields o))%Z ->
    rejects_then_fulfils o p k (world st) v w' ->
    k < fuel ->
    exists evs,
      AsyncNode.retry_loop fuel this p i st =
        (Return v,
         mkState w' (heap st) (console st) (trace st ++ evs) (settle_order st)) /\
      quiet_but evs (attempts this p i (S k)) [].
Proof.
  induction k as [|k IH]; intros i st v w' fuel Hl Hmax Hf Hfuel;
    (destruct fuel as [|fuel]; [lia|]); cbn [AsyncNode.retry_loop];
    step_get Hl; cbv zeta;
    (assert ((i <? maxRetries (fields o))%Z = true) as -> by (apply Z.ltb_lt; lia)).
  - inversion Hf as [w0 v0 w0' Hex|]; subst.
    unfold try_catch. rewrite bind_unfold, emit_eq, call_eq.
    cbn [world heap console trace settle_order]. rewrite Hex.
    exists [ExecCall this i p]. split; [reflexivity|by split].
  - inversion Hf as [|k' w0 e w1 v0 w0' Hex Hrest]; subst.
    assert ((i =? maxRetries (fields o) - 1)%Z = false) as ->
      by (apply Z.eqb_neq; lia).
    unfold try_catch at 1. rewrite bind_unfold, emit_eq, call_eq.
    cbn [world heap console trace settle_order]. rewrite Hex.
    cbn [fst snd outcome_of].
    match goal with |- context [(pause ?f ≫= ?k) ?s] =>
      destruct (pause_spec f s) as (evp & Hp & Hq) end.
    rewrite (bind_return _ _ _ _ _ Hp). cbn [world heap console trace settle_order] in *.
    match goal with |- context [AsyncNode.retry_loop fuel this p ?j ?s] =>
      destruct (IH j s v w' fuel) as (evs & Hrun & Hqs) end.
    { exact Hl. }
    { lia. }
    { exact Hrest. }
    { lia. }
    exists ([ExecCall this i p] ++ evp ++ evs). split.
    + rewrite Hrun. cbn [world heap console trace settle_order].
      by rewrite <- !app_assoc.
    + apply (quiet_app [ExecCall this i p] (evp ++ evs)
               [(this, i, p)] (attempts this p (i + 1) (S k)) [] []);
        [by split|].
      apply (quiet_app evp evs [] (attempts this p (i + 1) (S k)) [] []); done.
Qed.

Lemma async_retry_loop_exhausted k :
  forall i st e w' fuel,
    lookup_obj (heap st) this = Some o ->
    maxRetries (fields o) = (i + Z.of_nat k + 1)%Z ->
    always_rejects o p (S k) (world st) e w' ->
    k < fuel ->
    exists evs,
      AsyncNode.retry_loop fuel this p i st =
        call (execFallbackAsync (hooks o) (fields o) p e)
          (mkState w' (heap st) (console st) (trace st ++ evs) (settle_order st)) /\
      quiet_but evs (attempts this p i (S k)) [(this, p, e)].
Proof.
  induction k as [|k IH]; intros i st e w' fuel Hl Hmax Hf Hfuel;
    (destruct fuel as [|fuel]; [lia|]); cbn [AsyncNode.retry_loop];
    step_get Hl; cbv zeta;
    (assert ((i <? maxRetries (fields o))%Z = true) as -> by (apply Z.ltb_lt; lia)).
  - inversion Hf as [w0 e0 w0' Hex|]; subst.
    assert ((i =? maxRetries (fields o) - 1)%Z = true) as ->
      by (apply Z.eqb_eq; lia).
    unfold try_catch at 1. rewrite bind_unfold, emit_eq, call_eq.
    cbn [world heap console trace settle_order]. rewrite Hex.
    cbn [fst snd outcome_of].
    rewrite bind_unfold, emit_eq.
    exists [ExecCall this i p; FallbackCall this p e]. split; [|by split].
    cbn [world heap console trace settle_order]. by rewrite <- app_assoc.
  - inversion Hf as [|k' w0 e1 w1 e0 w0' Hex Hrest]; subst.
    assert ((i =? maxRetries (fields o) - 1)%Z = false) as ->
      by (apply Z.eqb_neq; lia).
    unfold try_catch at 1. rewrite bind_unfold, emit_eq, call_eq.
    cbn [world heap console trace settle_order]. rewrite Hex.
    cbn [fst snd outcome_of].
    match goal with |- context [(pause ?f ≫= ?k) ?s] =>
      destruct (pause_spec f s) as (evp & Hp & Hq) end.
    rewrite (bind_return _ _ _ _ _ Hp). cbn [world heap console trace settle_order] in *.
    match goal with |- context [AsyncNode.retry_loop fuel this p ?j ?s] =>
      destruct (IH j s e w' fuel) as (evs & Hrun & Hqs) end.
    { exact Hl. }
    { lia. }
    { exact Hrest. }
    { lia. }
    exists ([ExecCall this i p] ++ evp ++ evs). split.
    + rewrite Hrun. cbn [world heap console trace settle_order].
      by rewrite <- !app_assoc.
    + apply (quiet_app [ExecCall this i p] (evp ++ evs)
               [(this, i, p)] (attempts this p (i + 1) (S k)) [] [(this, p, e)]);
        [by split|].
      apply (quiet_app evp evs [] (attempts this p (i + 1) (S k))
               [] [(this, p, e)]); done.
Qed.

End AsyncRetryLoop.

(** [runAsync] of a promise-based unit up to [_exec]. *)
Lemma runAsync_AsyncNode fuel this o p w0 st :
  lookup_obj (heap st) this = Some o ->
  cls o = CAsyncNode ->
  prepAsync (hooks o) (fields o) (world st) = (Normal p, w0) ->
  exists st0,
    runAsync fuel this st =
      (e ← AsyncNode._exec this p;
       o' ← get_obj this;
       call (postAsync (hooks o') (fields o') p e)) st0 /\
    world st0 = w0 /\ heap st0 = heap st /\ trace st0 = trace st /\
    settle_order st0 = settle_order st.
Proof.
  intros Hl Hcls Hprep. unfold runAsync. step_get Hl. rewrite Hcls.
  destruct (run_warning o "AsyncFlow" st) as (st1 & Hw & Hh1 & Hw1 & Ht1 & Hs1).
  rewrite (bind_return _ _ _ _ _ Hw).
  assert (lookup_obj (heap st1) this = Some o) as Hl1 by (by rewrite Hh1).
  unfold node_runAsync. step_get Hl1. rewrite Hcls.
  unfold AsyncNode._runAsync. step_get Hl1.
  rewrite bind_unfold, call_eq, Hw1, Hprep. cbn [fst snd outcome_of].
  eexists. split; [reflexivity|]. done.
Qed.

(** X17.  The promise-based unit retries like the blocking one: when compute
    rejects [N - 1] times and then fulfils with [v], [execAsync] is
    invoked exactly [N] times, the fallback never, and [postAsync]
    receives [v].  The loop counts in a local variable: the unit itself,
    its [curRetry] included, is as it was. *)
Theorem async_unit_retries_until_fulfilled
    (this : Ref) (o : Obj) (st : State) (N : nat) (p v : any)
    (w0 w1 : World) (fuel : nat) :
  lookup_obj (heap st) this = Some o ->
  cls o = CAsyncNode ->
  maxRetries (fields o) = Z.of_nat N ->
  1 <= N ->
  prepAsync (hooks o) (fields o) (world st) = (Normal p, w0) ->
  rejects_then_fulfils o p (N - 1) w0 v w1 ->
  let finalize := postAsync (hooks o) (fields o) p v w1 in
  exists st',
    runAsync fuel this st = (outcome_of finalize.1, st') /\
    world st' = finalize.2 /\
    heap st' = heap st /\
    exec_calls (trace st') = exec_calls (trace st) ++ attempts this p 0 N /\
    fallback_calls (trace st') = fallback_calls (trace st).
Proof.
  intros Hl Hcls Hmax HN Hprep Hf finalize.
  destruct N as [|N]; [lia|]. cbn [Nat.sub] in Hf. rewrite Nat.sub_0_r in Hf.
  destruct (runAsync_AsyncNode fuel this o p w0 st Hl Hcls Hprep)
    as (st0 & -> & Hw0 & Hh0 & Ht0 & _).
  assert (lookup_obj (heap st0) this = Some o) as Hl0 by (by rewrite Hh0).
  unfold AsyncNode._exec. rewrite bind_assoc. step_get Hl0.
  destruct (async_retry_loop_fulfils this o p N 0 st0 v w1
              (Z.to_nat (maxRetries (fields o))))
    as (evs & Hrun & [Hq1 Hq2 _]); try done; try lia.
  { by rewrite Hw0. }
  rewrite (bind_return _ _ _ _ _ Hrun).
  match goal with |- context [(get_obj this ≫= ?k) ?s] =>
    assert (lookup_obj (heap s) this = Some o) as Hl1 by exact Hl0 end.
  step_get Hl1. rewrite call_eq.
  eexists. split; [reflexivity|]. cbn [world heap trace].
  rewrite exec_calls_app, fallback_calls_app, Hq1, Hq2, app_nil_r, Ht0.
  by repeat split.
Qed.

Lemma async_unit_retries_until_fulfilled_witness :
  exists st',
    runAsync 0 (0, 0) async_flaky_unit = (Return (VStr "ok"), st') /\
    heap st' = heap async_flaky_unit /\
    length (exec_calls (trace st')) = 3.
Proof.
  destruct (async_unit_retries_until_fulfilled (0, 0)
              (async_obj CAsyncNode 3
                 (async_unit_hooks (flaky 3) (execFallbackAsync AsyncNode.default_hooks)))
              async_flaky_unit 3 VNull (VStr "ok") ∅ {["calls" := VNum 3]} 0)
    as (st' & Hr & _ & Hh & He & _).
  - vm_compute. reflexivity.
  - reflexivity.
  - reflexivity.
  - lia.
  - reflexivity.
  - apply (rtf_rejects _ _ 1 _ (Error "attempt 1") {["calls" := VNum 1]});
      [vm_compute; reflexivity|].
    apply (rtf_rejects _ _ 0 _ (Error "attempt 2") {["calls" := VNum 2]});
      [vm_compute; reflexivity|].
    apply rtf_fulfils. vm_compute. reflexivity.
  - exists st'. split; [exact Hr|]. split; [exact Hh|]. by rewrite He.
Defined.

(** X18.  When compute rejects on all [N] attempts, [execFallbackAsync] is
    invoked once, with the error of the last attempt; what it fulfils
    with is handed to [postAsync]; if it rejects, [runAsync] rejects with
    that error and [postAsync] is not reached. *)
Theorem async_unit_falls_back_once
    (this : Ref) (o : Obj) (st : State) (N : nat) (p : any) (e : Exn)
    (w0 w1 : World) (fuel : nat) :
  lookup_obj (heap st) this = Some o ->
  cls o = CAsyncNode ->
  maxRetries (fields o) = Z.of_nat N ->
  1 <= N ->
  prepAsync (hooks o) (fields o) (world st) = (Normal p, w0) ->
  always_rejects o p N w0 e w1 ->
  let fallback := execFallbackAsync (hooks o) (fields o) p e w1 in
  exists st',
    runAsync fuel this st =
      (match fallback.1 with
       | Normal v => outcome_of (postAsync (hooks o) (fields o) p v fallback.2).1
       | Abrupt e' => Throw e'
       end, st') /\
    heap st' = heap st /\
    fallback_calls (trace st') = fallback_calls (trace st) ++ [(this, p, e)] /\
    exec_calls (trace st') = exec_calls (trace st) ++ attempts this p 0 N.
Proof.
  intros Hl Hcls Hmax HN Hprep Hf fallback.
  destruct N as [|N]; [lia|]. subst fallback.
  destruct (runAsync_AsyncNode fuel this o p w0 st Hl Hcls Hprep)
    as (st0 & -> & Hw0 & Hh0 & Ht0 & _).
  assert (lookup_obj (heap st0) this = Some o) as Hl0 by (by rewrite Hh0).
  unfold AsyncNode._exec. rewrite bind_assoc. step_get Hl0.
  destruct (async_retry_loop_exhausted this o p N 0 st0 e w1
              (Z.to_nat (maxRetries (fields o))))
    as (evs & Hrun & [Hq1 Hq2 _]); try done; try lia.
  { by rewrite Hw0. }
  rewrite bind_unfold, Hrun, call_eq. cbn [world heap console trace settle_order].
  destruct (execFallbackAsync (hooks o) (fields o) p e w1) as [[v|e'] w2];
    cbn [fst snd outcome_of].
  - match goal with |- context [(get_obj this ≫= ?k) ?s] =>
      assert (lookup_obj (heap s) this = Some o) as Hl1 by exact Hl0 end.
    step_get Hl1. rewrite call_eq.
    eexists. split; [reflexivity|]. cbn [world heap trace].
    by rewrite exec_calls_app, fallback_calls_app, Hq1, Hq2, Ht0.
  - eexists. split; [reflexivity|]. cbn [world heap trace].
    by rewrite exec_calls_app, fallback_calls_app, Hq1, Hq2, Ht0.
Qed.

Lemma async_unit_falls_back_once_witness :
  exists st',
    runAsync 0 (0, 0) async_failing_unit = (Return (VStr "recovered"), st') /\
    fallback_calls (trace st') = [((0, 0), VNull, Error "attempt 2")].
Proof.
  destruct (async_unit_falls_back_once (0, 0)
              (async_obj CAsyncNode 2
                 (async_unit_hooks failing (fun _ _ _ w => (Normal (VStr "recovered"), w))))
              async_failing_unit 2 VNull (Error "attempt 2") ∅ {["calls" := VNum 2]} 0)
    as (st' & Hr & _ & Hf & _).
  - vm_compute. reflexivity.
  - reflexivity.
  - reflexivity.
  - lia.
  - reflexivity.
  - apply (ar_more _ _ 0 _ (Error "attempt 1") {["calls" := VNum 1]});
      [vm_compute; reflexivity|].
    apply ar_last. vm_compute. reflexivity.
  - exists st'. split; [exact Hr|exact Hf].
Defined.

(** The first attempt of every item is made when the batch is mapped, in
    the order of the items. *)
Lemma spawn_calls this o (g : any -> Completion any) l :
  (1 <= maxRetries (fields o))%Z ->
  (forall fl x w, x ∈ l -> exists w', execAsync (hooks o) fl x w = (g x, w')) ->
  forall st,
    lookup_obj (heap st) this = Some o ->
    exists st',
      PromiseAll.spawn this l st =
        (Return ((fun x => Attempting 0 (g x)) <$> l), st') /\
      heap st' = heap st /\ settle_order st' = settle_order st /\
      console st' = console st /\
      exec_calls (trace st') =
        exec_calls (trace st) ++ ((fun x => (this, 0%Z, x)) <$> l) /\
      fallback_calls (trace st') = fallback_calls (trace st).
Proof.
  intros Hmax. induction l as [|x l IH]; intros Hg st Hl; cbn [PromiseAll.spawn].
  - exists st. rewrite app_nil_r. by repeat split.
  - unfold attempt at 1. rewrite bind_assoc. step_get Hl. cbv zeta.
    assert ((0 <? maxRetries (fields o))%Z = true) as -> by (apply Z.ltb_lt; lia).
    rewrite !bind_unfold, emit_eq, !bind_unfold, capture_eq.
    cbn [world heap console trace settle_order].
    destruct (Hg (fields o) x (world st)) as (w' & Hx); [apply elem_of_cons; by left|].
    rewrite Hx. cbn [fst snd]. unfold mret at 1, M_ret at 1.
    match goal with |- context [(PromiseAll.spawn this l ≫= _) ?s] =>
      destruct (IH (fun fl y w Hy => Hg fl y w (proj2 (elem_of_cons _ _ _) (or_intror Hy))) s)
        as (st' & Hsp & Hh & Hs & Hc & He & Hf) end.
    { exact Hl. }
    rewrite (bind_return _ _ _ _ _ Hsp).
    exists st'. split; [reflexivity|]. cbn [heap settle_order console trace] in *.
    repeat split; try done.
    + rewrite He, exec_calls_app, <- app_assoc. reflexivity.
    + rewrite Hf, fallback_calls_app. cbn. by rewrite app_nil_r.
Qed.

(** Whatever a batch over a list is given as its items. *)
Lemma batch_items items l :
  items = VArr l \/ (truthy items = false /\ l = []) ->
  (if truthy items then items else VArr []) = VArr l.
Proof. intros [->|[-> ->]]; reflexivity. Qed.

(** X19.  [AsyncBatchNode] gathers the results under [Promise.all] like the
    parallel batch node: for every list of items and every order in which
    the host lets the items complete, the result holds [f item] at the
    index of the item.  Compute has been invoked once per item, in the
    order of the items. *)
Theorem async_batch_results_by_index
    (this : Ref) (o : Obj) (f : any -> any) (items : any) (l : list any)
    (sched : list nat) (rest : list (list nat)) (st : State) :
  lookup_obj (heap st) this = Some o ->
  (1 <= maxRetries (fields o))%Z ->
  (forall fl x w, exists w', execAsync (hooks o) fl x w = (Normal (f x), w')) ->
  items = VArr l \/ (truthy items = false /\ l = []) ->
  settle_order st = sched :: rest ->
  (forall k, k < length l -> k ∈ sched) ->
  exists st',
    AsyncBatchNode._exec this items st = (Return (VArr (f <$> l)), st') /\
    exec_calls (trace st') =
      exec_calls (trace st) ++ ((fun x => (this, 0%Z, x)) <$> l) /\
    settle_order st' = rest.
Proof.
  intros Hl Hmax Hf Hitems Hso Hsched. unfold AsyncBatchNode._exec.
  rewrite (batch_items _ _ Hitems). unfold PromiseAll.all.
  destruct (spawn_calls this o (fun x => Normal (f x)) l Hmax) with (st := st)
    as (st1 & Hsp & Hh1 & Hs1 & _ & He1 & _).
  { intros fl x w _. apply Hf. }
  { exact Hl. }
  rewrite bind_assoc, (bind_return _ _ _ _ _ Hsp).
  rewrite bind_assoc, bind_unfold. unfold PromiseAll.next_schedule at 1.
  rewrite Hs1, Hso.
  rewrite bind_unfold, (drive_collects this f l).
  - eexists. split; [reflexivity|]. cbn [trace settle_order]. done.
  - split.
    + by rewrite length_fmap.
    + by rewrite length_replicate.
    + intros k x Hx. left. by rewrite list_lookup_fmap, Hx.
    + by rewrite (pending_fresh (fun x => Normal (f x))).
  - intros k t Hk _. apply Hsched. apply lookup_lt_Some in Hk.
    by rewrite length_fmap in Hk.
Qed.

Lemma async_batch_results_by_index_witness :
  exists st',
    AsyncBatchNode._exec (0, 0) (VArr [VNum 1; VNum 2; VNum 3]) async_batch_unit =
      (Return (VArr [VArr [VNum 1]; VArr [VNum 2]; VArr [VNum 3]]), st') /\
    exec_calls (trace st') =
      [((0, 0), 0%Z, VNum 1); ((0, 0), 0%Z, VNum 2); ((0, 0), 0%Z, VNum 3)].
Proof.
  destruct (async_batch_results_by_index (0, 0)
              (async_obj CAsyncBatchNode 1 wrap_hooks) (fun x => VArr [x])
              (VArr [VNum 1; VNum 2; VNum 3]) [VNum 1; VNum 2; VNum 3]
              [2; 0; 1] [] async_batch_unit)
    as (st' & Hr & He & _).
  - vm_compute. reflexivity.
  - simpl. lia.
  - intros. eexists. reflexivity.
  - left. reflexivity.
  - reflexivity.
  - intros [|[|[|k]]] Hk; simpl in Hk; try lia; set_solver.
  - exists st'. split; [exact Hr|exact He].
Defined.

Lemma pending_unsettled tasks k t :
  tasks !! k = Some t -> is_settled t = false -> 0 < pending tasks.
Proof.
  revert k. induction tasks as [|t0 rest IH]; intros [|k] Hk Ht; try done.
  - injection Hk as ->. cbn [pending]. rewrite Ht. lia.
  - cbn [lookup list_lookup] in Hk. cbn [pending]. specialize (IH k Hk Ht). lia.
Qed.

Lemma pending_insert_unsettled tasks k t t' :
  tasks !! k = Some t -> is_settled t = false -> is_settled t' = false ->
  pending (<[k := t']> tasks) = pending tasks.
Proof.
  revert k. induction tasks as [|t0 rest IH]; intros [|k] Hk Ht Ht'; try done.
  - injection Hk as ->. cbn [pending list_insert insert]. by rewrite Ht, Ht'.
  - cbn [lookup list_lookup] in Hk. simpl. by rewrite (IH k Hk Ht Ht').
Qed.

Section Rejection.

Variables (this : Ref) (o : Obj) (f : any -> any) (is_bad : any -> bool).
Variables (e e' : Exn) (items : list any) (j : nat) (xj : any).

Hypothesis Hone : maxRetries (fields o) = 1%Z.
Hypothesis Hfallback :
  forall fl x w, is_bad x = true ->
    exists w', execFallbackAsync (hooks o) fl x e w = (Abrupt e', w').
Hypothesis Hj : items !! j = Some xj.
Hypothesis Hbad : is_bad xj = true.

Lemma drive_rejects sched :
  forall tasks values remaining st,
    lookup_obj (heap st) this = Some o ->
    rejecting f is_bad e e' items tasks remaining ->
    resumes_left (tasks !! j) <= length (filter (eq j) sched) ->
    exists st',
      PromiseAll.drive sched this items tasks values remaining st = (Throw e', st') /\
      exec_calls (trace st') = exec_calls (trace st) /\
      heap st' = heap st.
Proof.
  induction sched as [|k sched IH]; intros tasks values remaining st Hl Hr Hn.
  - pose proof (rej_each _ _ _ _ _ _ _ Hr j xj Hj) as Hk. rewrite Hbad in Hk.
    destruct Hk as [Hk|Hk]; rewrite Hk in Hn; cbn in Hn; lia.
  - assert (exists tj, tasks !! j = Some tj /\ is_settled tj = false) as (tj & Htj & Huns).
    { pose proof (rej_each _ _ _ _ _ _ _ Hr j xj Hj) as Hk. rewrite Hbad in Hk.
      destruct Hk as [Hk|Hk]; eexists; (split; [exact Hk|reflexivity]). }
    pose proof (pending_unsettled tasks j tj Htj Huns) as Hpos.
    rewrite <- (rej_remaining _ _ _ _ _ _ _ Hr) in Hpos.
    destruct remaining as [|r]; [lia|]. cbn [PromiseAll.drive].
    assert (forall t, tasks !! k = Some t -> is_settled t = true \/ items !! k = None ->
            resumes_left (tasks !! j) <= length (filter (eq j) sched)) as Hskip.
    { intros t Hk Hs. destruct (decide (j = k)) as [->|Hne].
      - rewrite Htj in Hk. injection Hk as <-. destruct Hs as [Hs|Hs]; congruence.
      - by rewrite filter_cons_False in Hn. }
    destruct (tasks !! k) as [t|] eqn:Hk.
    2: { apply IH; [exact Hl|exact Hr|].
         destruct (decide (j = k)) as [->|Hne]; [congruence|].
         by rewrite filter_cons_False in Hn. }
    destruct (items !! k) as [x|] eqn:Hx.
    2: { apply IH; [exact Hl|exact Hr|]. apply (Hskip t); auto. }
    destruct (is_settled t) eqn:Ht.
    { apply IH; [exact Hl|exact Hr|]. apply (Hskip t); auto. }
    pose proof (rej_each _ _ _ _ _ _ _ Hr k x Hx) as Hcase.
    destruct (is_bad x) eqn:Hbx.
    + destruct Hcase as [Hc|Hc]; rewrite Hk in Hc; injection Hc as ->.
      * (* the rejected attempt: the fallback is called *)
        cbn [resume]. rewrite bind_assoc. step_get Hl. cbv zeta.
        rewrite Hone. change ((0 =? 1 - 1)%Z) with true. cbv iota.
        rewrite !bind_unfold, emit_eq, !bind_unfold, capture_eq.
        cbn [world heap console trace settle_order].
        destruct (Hfallback (fields o) x (world st) Hbx) as (w' & Hw).
        rewrite Hw. cbn [fst snd]. unfold mret at 1, M_ret at 1.
        match goal with |- context [PromiseAll.drive sched this items ?ts values (S r) ?s] =>
          destruct (IH ts values (S r) s) as (st' & Hrun & He & Hh) end.
        { exact Hl. }
        { destruct Hr as [Hlen Heach Hrem]. split.
          - by rewrite length_insert.
          - intros k0 y Hy. specialize (Heach k0 y Hy).
            destruct (decide (k0 = k)) as [->|Hne].
            + rewrite Hx in Hy. injection Hy as <-. rewrite Hbx. right.
              apply list_lookup_insert_eq. eapply lookup_lt_Some; eauto.
            + by rewrite list_lookup_insert_ne.
          - rewrite Hrem. symmetry.
            by apply (pending_insert_unsettled tasks k (Attempting 0 (Abrupt e))). }
        { destruct (decide (j = k)) as [->|Hne].
          - rewrite list_lookup_insert_eq by (eapply lookup_lt_Some; eauto).
            rewrite Hk in Hn. rewrite filter_cons_True in Hn by done.
            cbn [resumes_left length] in *. lia.
          - rewrite list_lookup_insert_ne by done.
            by rewrite filter_cons_False in Hn. }
        exists st'. split; [exact Hrun|]. split; [|exact Hh].
        rewrite He. cbn [trace]. rewrite exec_calls_app. cbn. by rewrite app_nil_r.
      * (* the rejected fallback: the whole is rejected *)
        cbn [resume]. rewrite bind_unfold. unfold mret at 1, M_ret at 1.
        by exists st.
    + destruct Hcase as [Hc|Hc]; rewrite Hk in Hc; injection Hc as ->;
        [|discriminate].
      cbn [resume]. rewrite bind_unfold. unfold mret at 1, M_ret at 1.
      assert (j <> k) as Hne by (intros ->; congruence).
      apply IH; [exact Hl| |].
      * destruct Hr as [Hlen Heach Hrem]. split.
        -- by rewrite length_insert.
        -- intros k0 y Hy. specialize (Heach k0 y Hy).
           destruct (decide (k0 = k)) as [->|Hne0].
           ++ rewrite Hx in Hy. injection Hy as <-. rewrite Hbx. right.
              apply list_lookup_insert_eq. eapply lookup_lt_Some; eauto.
           ++ by rewrite list_lookup_insert_ne.
        -- pose proof (pending_settle tasks k _ (Normal (f x)) Hk Ht). lia.
      * rewrite list_lookup_insert_ne by done.
        by rewrite filter_cons_False in Hn.
Qed.

End Rejection.

(** X20.  One item that fails fails the parallel batch.  When the compute and
    the fallback of some item reject, [Promise.all] rejects with the error
    of the fallback in every order of completion that lets that item come
    to its end, though the compute of every item has been invoked and the
    other items fulfil: their results are dropped. *)
Theorem parallel_batch_rejects_with_failing_item
    (this : Ref) (o : Obj) (f : any -> any) (is_bad : any -> bool)
    (e e' : Exn) (l : list any) (j : nat) (xj : any)
    (sched : list nat) (rest : list (list nat)) (st : State) :
  lookup_obj (heap st) this = Some o ->
  maxRetries (fields o) = 1%Z ->
  (forall fl x w, exists w',
      execAsync (hooks o) fl x w =
        (if is_bad x then Abrupt e else Normal (f x), w')) ->
  (forall fl x w, is_bad x = true ->
      exists w', execFallbackAsync (hooks o) fl x e w = (Abrupt e', w')) ->
  l !! j = Some xj ->
  is_bad xj = true ->
  settle_order st = sched :: rest ->
  2 <= length (filter (eq j) sched) ->
  exists st',
    AsyncParallelBatchNode._exec this (VArr l) st = (Throw e', st') /\
    exec_calls (trace st') =
      exec_calls (trace st) ++ ((fun x => (this, 0%Z, x)) <$> l).
Proof.
  intros Hl Hone Hexec Hfb Hj Hbad Hso Hsched.
  unfold AsyncParallelBatchNode._exec. cbn [truthy]. unfold PromiseAll.all.
  destruct (spawn_calls this o
              (fun x => if is_bad x then Abrupt e else Normal (f x)) l) with (st := st)
    as (st1 & Hsp & Hh1 & Hs1 & _ & He1 & _).
  { lia. }
  { intros fl x w _. apply Hexec. }
  { exact Hl. }
  rewrite bind_assoc, (bind_return _ _ _ _ _ Hsp).
  rewrite bind_assoc, bind_unfold. unfold PromiseAll.next_schedule at 1.
  rewrite Hs1, Hso. rewrite bind_unfold.
  match goal with |- context [PromiseAll.drive sched this l ?ts ?vs ?n ?s] =>
    destruct (drive_rejects this o f is_bad e e' l j xj Hone Hfb Hj Hbad sched ts vs n s)
      as (st' & Hrun & He & _) end.
  { cbn [heap]. by rewrite Hh1. }
  { split.
    - by rewrite length_fmap.
    - intros k x Hx. rewrite list_lookup_fmap, Hx. cbn.
      destruct (is_bad x); by left.
    - by rewrite (pending_fresh (fun x => if is_bad x then Abrupt e else Normal (f x))). }
  { rewrite list_lookup_fmap, Hj. cbn. exact Hsched. }
  rewrite Hrun. exists st'. split; [reflexivity|].
  rewrite He. cbn [trace]. exact He1.
Qed.

Lemma parallel_batch_rejects_with_failing_item_witness :
  exists st',
    AsyncParallelBatchNode._exec (0, 0) (VArr [VNum 1; VNull]) picky_parallel_unit =
      (Throw (Error "bad item"), st') /\
    exec_calls (trace st') = [((0, 0), 0%Z, VNum 1); ((0, 0), 0%Z, VNull)].
Proof.
  destruct (parallel_batch_rejects_with_failing_item (0, 0)
              (async_obj CAsyncParallelBatchNode 1
                 (async_unit_hooks picky (execFallbackAsync AsyncNode.default_hooks)))
              (fun x => VArr [x]) is_null (Error "bad item") (Error "bad item")
              [VNum 1; VNull] 1 VNull [1; 0; 1] [] picky_parallel_unit)
    as (st' & Hr & He).
  - vm_compute. reflexivity.
  - reflexivity.
  - intros fl x w. destruct x; eexists; reflexivity.
  - intros fl x w Hx. eexists. reflexivity.
  - reflexivity.
  - reflexivity.
  - reflexivity.
  - vm_compute. lia.
  - exists st'. split; [exact Hr|exact He].
Defined.

(** ** The parallel batch of flows *)

Import AsyncParallelBatchFlow.

Lemma advance_plain run fuel c p st o :
  lookup_obj (heap st) c = Some o ->
  cls o = CObject ->
  advance run (S fuel) (Some c) p st =
    (Throw (TypeError "curr.setParams is not a function"), st).
Proof.
  intros Hl Hc. cbn [advance].
  by rewrite bind_unfold, (call_setParams_plain _ _ _ _ Hl Hc).
Qed.

Section ParallelStart.

Variables (this : Ref) (rl : Realm) (ofl os : Obj) (s : NodeId).
Hypothesis Hfl : rl !! this.2 = Some ofl.
Hypothesis Hstart : start (fields ofl) = Some s.
Hypothesis Hs : rl !! s = Some os.

(** Every orchestration is rejected when it is called, at its own clone
    of the start unit. *)
Lemma spawn_plain fuel l :
  forall st,
    heap st !! this.1 = Some rl ->
    exists tasks,
      spawn (S fuel) this l st =
        (Return tasks,
         set_heap (heap st ++ replicate (length l) (plain <$> rl)) st) /\
      length tasks = length l /\
      Forall (fun t => t.2 = Ending (Abrupt (TypeError "curr.setParams is not a function")))
        tasks.
Proof.
  induction l as [|bp rest IH]; intros st Hrl.
  - exists []. cbn [spawn replicate length]. rewrite app_nil_r.
    split; [by destruct st|]. by split.
  - pose proof (this_lookup _ _ _ _ Hrl Hfl) as Hl.
    cbn [spawn]. step_get Hl. cbv zeta.
    set (p := merge_params (params (fields ofl)) (spread bp)).
    set (st1 := set_heap (heap st ++ [plain <$> rl]) st).
    assert (settle (o' ← get_obj this;
                    curr ← Flow.clone_if (match start (fields o') with
                                          | Some s => Some (NextUnit (this.1, s))
                                          | None => None
                                          end);
                    advance (_run (S fuel)) (S fuel) curr p) st =
            (Return (Ended (Abrupt (TypeError "curr.setParams is not a function"))),
             st1)) as Hph.
    { unfold settle, try_catch. step_get Hl. rewrite Hstart.
      cbn [Flow.clone_if Flow.clone_next]. rewrite bind_assoc.
      rewrite (bind_return _ _ _ _ _ (structuredClone_spec (this.1, s) _ _ Hrl)).
      rewrite ret_bind. cbn [fst snd].
      by rewrite (advance_plain (_run (S fuel)) fuel (length (heap st), s) p
                    (set_heap (heap st ++ [plain <$> rl]) st) (plain os)
                    (clone_lookup rl os s st Hs) eq_refl). }
    rewrite (bind_return _ _ _ _ _ Hph).
    destruct (IH st1) as (tasks & Hsp & Hlen & Hall).
    { subst st1. cbn [set_heap heap]. by apply lookup_app_l_Some. }
    rewrite (bind_return _ _ _ _ _ Hsp).
    eexists. split.
    { subst st1. unfold mret, M_ret, set_heap.
      cbn [heap world console trace settle_order replicate length].
      by rewrite <- app_assoc. }
    split; [simpl; by rewrite Hlen|].
    constructor; [reflexivity|exact Hall].
Qed.

End ParallelStart.

(** [Promise.all] over orchestrations that have all been rejected with
    [e]. *)
Lemma drive_rejected fuel e sched :
  forall tasks remaining st,
    Forall (fun t => t.2 = Ending (Abrupt e)) tasks ->
    (exists k, k ∈ sched /\ k < length tasks) ->
    drive sched fuel tasks (S remaining) st = (Throw e, st).
Proof.
  induction sched as [|j sched IH]; intros tasks remaining st Hall (k & Hin & Hk).
  - by apply elem_of_nil in Hin.
  - cbn [drive]. destruct (tasks !! j) as [[p ph]|] eqn:Hj.
    + pose proof (proj1 (Forall_lookup _ _) Hall j _ Hj) as Hc. cbn [snd] in Hc.
      subst ph. cbn [has_ended resume_orch]. by rewrite ret_bind.
    + apply IH; [exact Hall|]. exists k. split; [|exact Hk].
      apply elem_of_cons in Hin as [->|Hin]; [|done].
      apply lookup_ge_None in Hj. lia.
Qed.

(** X24.  A parallel batch of flows starts the orchestration of every
    item before it waits for any of them: when the flow has a start
    unit, one copy of the flow's realm is made for each item, in the
    order of the items, and each orchestration is rejected at once with
    the [TypeError] of [curr.setParams(p)] on its own clone.  The batch
    is then rejected with that error as soon as the host notices one of
    the orchestrations.  No unit has been called, and the flow's
    [postAsync] is not reached. *)
Theorem parallel_batch_starts_every_item
    (this : Ref) (rl : Realm) (ofl os : Obj) (s : NodeId)
    (st : State) (items : list any) (w0 : World)
    (sched : list nat) (rest : list (list nat)) (fuel : nat) :
  heap st !! this.1 = Some rl ->
  rl !! this.2 = Some ofl ->
  start (fields ofl) = Some s ->
  rl !! s = Some os ->
  prepAsync (hooks ofl) (fields ofl) (world st) = (Normal (VArr items), w0) ->
  settle_order st = sched :: rest ->
  (exists k, k ∈ sched /\ k < length items) ->
  exists st',
    AsyncParallelBatchFlow._runAsync (S fuel) this st =
      (Throw (TypeError "curr.setParams is not a function"), st') /\
    world st' = w0 /\
    trace st' = trace st /\
    console st' = console st /\
    heap st' = heap st ++ replicate (length items) (plain <$> rl).
Proof.
  intros Hrl Hfl Hstart Hs Hprep Hso Hsched.
  pose proof (this_lookup _ _ _ _ Hrl Hfl) as Hl.
  unfold AsyncParallelBatchFlow._runAsync. step_get Hl.
  rewrite bind_unfold, call_eq, Hprep. cbn [fst snd outcome_of truthy].
  match goal with |- context [(_ ≫= _) ?s0] =>
    destruct (spawn_plain this rl ofl os s Hfl Hstart Hs fuel items s0)
      as (tasks & Hsp & Hlen & Hall) end.
  { exact Hrl. }
  rewrite bind_assoc, (bind_return _ _ _ _ _ Hsp).
  rewrite bind_assoc, bind_unfold. unfold PromiseAll.next_schedule at 1.
  cbn [settle_order set_heap]. rewrite Hso.
  destruct Hsched as (k & Hin & Hk).
  destruct items as [|x items]; [simpl in Hk; lia|]. cbn [length].
  rewrite bind_unfold,
    (drive_rejected (S fuel) (TypeError "curr.setParams is not a function")
       sched tasks (length items));
    [|exact Hall|exists k; split; [exact Hin|by rewrite Hlen]].
  eexists. split; [reflexivity|]. done.
Qed.

Lemma parallel_batch_starts_every_item_witness :
  exists st',
    AsyncParallelBatchFlow._runAsync 1 (0, 2) parallel_flows =
      (Throw (TypeError "curr.setParams is not a function"), st') /\
    trace st' = [] /\
    length (heap st') = 4.
Proof.
  destruct (parallel_batch_starts_every_item (0, 2)
              [start_unit; node_obj 1 (step_hooks "done");
               flow_obj CAsyncFlow ∅ (batch_hooks (VArr [item 1; item 2; item 3]))]
              (flow_obj CAsyncFlow ∅ (batch_hooks (VArr [item 1; item 2; item 3])))
              start_unit 0 parallel_flows [item 1; item 2; item 3] ∅ [2; 0; 1] [] 0)
    as (st' & Hr & _ & Ht & _ & Hh).
  - vm_compute. reflexivity.
  - reflexivity.
  - reflexivity.
  - reflexivity.
  - reflexivity.
  - reflexivity.
  - exists 2. split; [set_solver|simpl; lia].
  - exists st'. split; [exact Hr|]. split; [exact Ht|]. rewrite Hh. reflexivity.
Defined.
